(** * etsymail: order / buyer-email extraction from Etsy transaction mails

    A shallow embedding of [etsymail.py] and the properties of its
    extraction pipeline.

    Python values are embedded as follows.
    - [str] is a list of Unicode code points ([N]); [bytes] a list of
      octets ([N] below 256).
    - a [set] that is only tested and iterated is a [gset]; [list(s)] is
      [elements s] (Python leaves the iteration order unspecified, and so
      does [elements]).
    - exceptions are values of [exn]; a function that can raise returns a
      [result].
    - [main] runs in a small state-and-exception monad over the console
      and the file system; the Gmail service is a record of functions.
    - [re] patterns are values of [regex], run by a backtracking matcher
      with the priorities of the [re] module (greedy repetition first).
    - the Unicode character database (behind [\w], [\b] and [str.lower])
      and the lxml parser behind [BeautifulSoup] are parameters. *)

From Stdlib Require Import NArith ZArith String Ascii Lia Bool.
From stdpp Require Import base tactics option list numbers countable gmap sets.

Local Open Scope N_scope.

(** ** Strings and bytes *)

Abbreviation char := N (only parsing).
Abbreviation str := (list N) (only parsing).
Abbreviation bytes := (list N) (only parsing).

(** A Python literal of ASCII characters. *)
Definition lit (x : string) : str :=
  map N_of_ascii (list_ascii_of_string x).

(** [lo <= c <= hi] *)
Definition between (lo hi c : N) : bool := (lo <=? c) && (c <=? hi).

Definition str_eqb (a b : str) : bool := bool_decide (a = b).

(** [x.startswith(p)] *)
Fixpoint startswith (p x : str) : bool :=
  match p, x with
  | [], _ => true
  | a :: p', b :: x' => (a =? b) && startswith p' x'
  | _ :: _, [] => false
  end.

(** [x.endswith(p)] *)
Definition endswith (x p : str) : bool :=
  startswith (rev p) (rev x).

(** [p in x] for strings: substring test. *)
Fixpoint contains (x p : str) : bool :=
  startswith p x ||
  match x with
  | [] => false
  | _ :: x' => contains x' p
  end.

(** [sep.join(chunks)] *)
Fixpoint join (sep : str) (chunks : list str) : str :=
  match chunks with
  | [] => []
  | [c] => c
  | c :: cs => c ++ sep ++ join sep cs
  end.

(** ** Character classes of the [re] module on [str] patterns *)

(** Unicode 14 (CPython 3.11) general category Nd: first code point of
    every block of ten decimal digits. *)
Definition Nd_blocks : list N :=
  [0x30; 0x660; 0x6F0; 0x7C0; 0x966; 0x9E6; 0xA66; 0xAE6; 0xB66; 0xBE6;
   0xC66; 0xCE6; 0xD66; 0xDE6; 0xE50; 0xED0; 0xF20; 0x1040; 0x1090;
   0x17E0; 0x1810; 0x1946; 0x19D0; 0x1A80; 0x1A90; 0x1B50; 0x1BB0;
   0x1C40; 0x1C50; 0xA620; 0xA8D0; 0xA900; 0xA9D0; 0xA9F0; 0xAA50;
   0xABF0; 0xFF10; 0x104A0; 0x10D30; 0x11066; 0x110F0; 0x11136; 0x111D0;
   0x112F0; 0x11450; 0x114D0; 0x11650; 0x116C0; 0x11730; 0x118E0;
   0x11950; 0x11C50; 0x11D50; 0x11DA0; 0x16A60; 0x16AC0; 0x16B50;
   0x1E140; 0x1E2F0; 0x1E950; 0x1FBF0].

(** [Py_UNICODE_ISDECIMAL]: the class [\d]. The mathematical digits
    U+1D7CE..U+1D7FF are five blocks in one run. *)
Definition isdecimal (c : char) : bool :=
  existsb (fun lo => between lo (lo + 9) c) Nd_blocks
  || between 0x1D7CE 0x1D7FF c.

(** The ASCII digits, the class [[0-9]]. *)
Definition is_ascii_digit (c : char) : bool := between 0x30 0x39 c.

(** [Py_UNICODE_ISSPACE]: the class [\s]. *)
Definition isspace (c : char) : bool :=
  between 0x09 0x0D c || between 0x1C 0x20 c || (c =? 0x85) || (c =? 0xA0)
  || (c =? 0x1680) || between 0x2000 0x200A c || between 0x2028 0x2029 c
  || (c =? 0x202F) || (c =? 0x205F) || (c =? 0x3000).

(** Case folding of [re.IGNORECASE] as far as ASCII patterns see it: the
    52 ASCII letters, and the four letters that fold onto [i], [s] and
    [k]. *)
Definition fold_case (c : char) : char :=
  if between 0x41 0x5A c then c + 32
  else if (c =? 0x130) || (c =? 0x131) then 0x69
  else if c =? 0x17F then 0x73
  else if c =? 0x212A then 0x6B
  else c.

(** A literal character of a pattern compiled with [re.IGNORECASE]. *)
Definition ci (l : char) (c : char) : bool := fold_case c =? fold_case l.

(** [[A-Z]] under [re.IGNORECASE]. *)
Definition ci_AZ (c : char) : bool := between 0x61 0x7A (fold_case c).

(** ** Exceptions *)

Inductive exn :=
| HttpError (reason : str)
| BinasciiError (reason : str)
| UnicodeEncodeError
| AuthError (reason : str)
| SystemExit (code : Z).

Inductive result (A : Type) :=
| Ok (a : A)
| Raise (e : exn).
Arguments Ok {A} a.
Arguments Raise {A} e.

Definition rbind {A B} (r : result A) (k : A -> result B) : result B :=
  match r with
  | Ok a => k a
  | Raise e => Raise e
  end.

Notation "x <-r c1 ;; c2" := (rbind c1 (fun x => c2))
  (at level 100, c1 at next level, right associativity).

(** ** [base64] and the UTF-8 codec *)

Module Codec.

(** [str.encode('utf-8')]: lone surrogates cannot be encoded. *)
Definition encode_char (c : char) : result bytes :=
  if c <? 0x80 then Ok [c]
  else if c <? 0x800 then
    Ok [N.lor 0xC0 (N.shiftr c 6); N.lor 0x80 (N.land c 0x3F)]
  else if c <? 0x10000 then
    if between 0xD800 0xDFFF c then Raise UnicodeEncodeError
    else Ok [N.lor 0xE0 (N.shiftr c 12);
             N.lor 0x80 (N.land (N.shiftr c 6) 0x3F);
             N.lor 0x80 (N.land c 0x3F)]
  else if c <? 0x110000 then
    Ok [N.lor 0xF0 (N.shiftr c 18);
        N.lor 0x80 (N.land (N.shiftr c 12) 0x3F);
        N.lor 0x80 (N.land (N.shiftr c 6) 0x3F);
        N.lor 0x80 (N.land c 0x3F)]
  else Raise UnicodeEncodeError.

Fixpoint encode_utf8 (s : str) : result bytes :=
  match s with
  | [] => Ok []
  | c :: s' =>
      b <-r encode_char c ;;
      bs <-r encode_utf8 s' ;;
      Ok (b ++ bs)
  end.

(** U+FFFD, what [errors='replace'] puts for an undecodable sequence. *)
Definition REPLACEMENT : char := 0xFFFD.

Definition is_cont (b : N) : bool := between 0x80 0xBF b.

(** The second byte a three-byte lead admits. *)
Definition second3 (b0 b1 : N) : bool :=
  if b0 =? 0xE0 then between 0xA0 0xBF b1
  else if b0 =? 0xED then between 0x80 0x9F b1
  else is_cont b1.

(** The second byte a four-byte lead admits. *)
Definition second4 (b0 b1 : N) : bool :=
  if b0 =? 0xF0 then between 0x90 0xBF b1
  else if b0 =? 0xF4 then between 0x80 0x8F b1
  else is_cont b1.

Definition low6 (b : N) : N := N.land b 0x3F.

(** [bytes.decode('utf-8', errors='replace')]: every maximal ill-formed
    prefix becomes one U+FFFD and decoding resumes after it. *)
Fixpoint decode_utf8 (bs : bytes) : str :=
  match bs with
  | [] => []
  | b0 :: r0 =>
      if b0 <? 0x80 then b0 :: decode_utf8 r0
      else if between 0xC2 0xDF b0 then
        match r0 with
        | [] => [REPLACEMENT]
        | b1 :: r1 =>
            if is_cont b1
            then N.lor (N.shiftl (N.land b0 0x1F) 6) (low6 b1) :: decode_utf8 r1
            else REPLACEMENT :: decode_utf8 r0
        end
      else if between 0xE0 0xEF b0 then
        match r0 with
        | [] => [REPLACEMENT]
        | b1 :: r1 =>
            if second3 b0 b1 then
              match r1 with
              | [] => [REPLACEMENT]
              | b2 :: r2 =>
                  if is_cont b2
                  then N.lor (N.shiftl (N.land b0 0x0F) 12)
                         (N.lor (N.shiftl (low6 b1) 6) (low6 b2))
                       :: decode_utf8 r2
                  else REPLACEMENT :: decode_utf8 r1
              end
            else REPLACEMENT :: decode_utf8 r0
        end
      else if between 0xF0 0xF4 b0 then
        match r0 with
        | [] => [REPLACEMENT]
        | b1 :: r1 =>
            if second4 b0 b1 then
              match r1 with
              | [] => [REPLACEMENT]
              | b2 :: r2 =>
                  if is_cont b2 then
                    match r2 with
                    | [] => [REPLACEMENT]
                    | b3 :: r3 =>
                        if is_cont b3
                        then N.lor (N.shiftl (N.land b0 0x07) 18)
                               (N.lor (N.shiftl (low6 b1) 12)
                                  (N.lor (N.shiftl (low6 b2) 6) (low6 b3)))
                             :: decode_utf8 r3
                        else REPLACEMENT :: decode_utf8 r2
                    end
                  else REPLACEMENT :: decode_utf8 r1
              end
            else REPLACEMENT :: decode_utf8 r0
        end
      else REPLACEMENT :: decode_utf8 r0
  end.

(** [table_a2b_base64] of [binascii]: the value of an alphabet
    character, [None] for any other byte. *)
Definition b64_value (b : N) : option N :=
  if between 0x41 0x5A b then Some (b - 0x41)
  else if between 0x61 0x7A b then Some (b - 0x61 + 26)
  else if between 0x30 0x39 b then Some (b - 0x30 + 52)
  else if b =? 0x2B then Some 62
  else if b =? 0x2F then Some 63
  else None.

Definition BASE64_PAD : N := 0x3D.

Definition low8 (b : N) : N := N.land b 0xFF.

(** The loop of [binascii.a2b_base64] with [strict_mode] off.
    [quad_pos] counts the alphabet characters of the current quantum,
    [leftchar] holds its pending bits, [pads] the [=] seen since the last
    alphabet character, [out] the decoded bytes in reverse. *)
Fixpoint a2b_loop (data : bytes) (quad_pos : nat) (leftchar : N)
    (pads : nat) (out : bytes) : result bytes :=
  match data with
  | [] =>
      match quad_pos with
      | O => Ok (rev out)
      | 1%nat => Raise (BinasciiError (lit "Invalid base64-encoded string"))
      | _ => Raise (BinasciiError (lit "Incorrect padding"))
      end
  | this_ch :: data' =>
      if this_ch =? BASE64_PAD then
        if (2 <=? quad_pos)%nat then
          if (4 <=? quad_pos + S pads)%nat then Ok (rev out)
          else a2b_loop data' quad_pos leftchar (S pads) out
        else a2b_loop data' quad_pos leftchar pads out
      else
        match b64_value this_ch with
        | None => a2b_loop data' quad_pos leftchar pads out
        | Some v =>
            match quad_pos with
            | O => a2b_loop data' 1%nat v O out
            | 1%nat =>
                a2b_loop data' 2%nat (N.land v 0x0F) O
                  (low8 (N.lor (N.shiftl leftchar 2) (N.shiftr v 4)) :: out)
            | 2%nat =>
                a2b_loop data' 3%nat (N.land v 0x03) O
                  (low8 (N.lor (N.shiftl leftchar 4) (N.shiftr v 2)) :: out)
            | _ =>
                a2b_loop data' O 0 O
                  (low8 (N.lor (N.shiftl leftchar 6) v) :: out)
            end
        end
  end.

Definition a2b_base64 (data : bytes) : result bytes :=
  a2b_loop data O 0 O [].

(** [_urlsafe_decode_translation]: [-] to [+] and [_] to [/]. *)
Definition urlsafe_translate (b : N) : N :=
  if b =? 0x2D then 0x2B else if b =? 0x5F then 0x2F else b.

(** [base64.urlsafe_b64decode] on a bytes argument. *)
Definition urlsafe_b64decode (s : bytes) : result bytes :=
  a2b_base64 (map urlsafe_translate s).

End Codec.

(** ** The Gmail payload tree *)

(** [decode_part_data] *)
Definition decode_part_data (data_b64 : str) : result str :=
  raw <-r Codec.encode_utf8 data_b64 ;;
  decoded <-r Codec.urlsafe_b64decode raw ;;
  Ok (Codec.decode_utf8 decoded).

(** A payload dict: the keys the program reads. [body_data] is
    [p.get('body', {}).get('data')], [parts] is present when
    ['parts' in payload]. *)
#[warning="-register-all"]
Inductive payload :=
| Payload (mimeType : option str) (body_data : option str)
    (parts : option (list payload)).

(** [p.get('mimeType', '')] *)
Definition mime_of (p : payload) : str :=
  match p with Payload m _ _ => default [] m end.

(** [p.get('body', {}).get('data')] *)
Definition data_of (p : payload) : option str :=
  match p with Payload _ d _ => d end.

(** [if data: yield mime, decode_part_data(data)] *)
Definition yield_own (p : payload) : result (list (str * str)) :=
  match data_of p with
  | Some (c :: d) =>
      content <-r decode_part_data (c :: d) ;;
      Ok [(mime_of p, content)]
  | _ => Ok []
  end.

(** [iter_payload_parts]: the pairs the generator yields, in order, or
    the exception its first failing decode raises. *)
Fixpoint iter_payload_parts (p : payload) : result (list (str * str)) :=
  match p with
  | Payload _ _ (Some ps) =>
      (fix over_parts (l : list payload) : result (list (str * str)) :=
         match l with
         | [] => Ok []
         | q :: l' =>
             own <-r yield_own q ;;
             sub <-r iter_payload_parts q ;;
             rest <-r over_parts l' ;;
             Ok (own ++ sub ++ rest)
         end) ps
  | Payload _ _ None => yield_own p
  end.

(** ** The Unicode character database *)

(** What the program takes from the Unicode tables of the interpreter
    beyond the classes above: the alphabetic, digit and numeric
    properties (they enter [\w]) and [str.lower]. *)
Class UCD := {
  isalpha : char -> bool;
  isdigit : char -> bool;
  isnumeric : char -> bool;
  str_lower : str -> str
}.

(** [SRE_UNI_IS_WORD]: the class [\w], alphanumerics and the
    underscore. *)
Definition is_word `{UCD} (c : char) : bool :=
  isdecimal c || isalpha c || isdigit c || isnumeric c || (c =? 0x5F).

(** ** Regular expressions *)

Module Re.

(** The pattern constructs the program uses. [Rep p lo hi] is the greedy
    repetition [p{lo,hi}] of a one-character class ([hi = None] for no
    upper bound); [Group] is capture group 1. *)
Inductive regex :=
| Chr (p : char -> bool)
| Rep (p : char -> bool) (lo : nat) (hi : option nat)
| Boundary
| Group (r : regex)
| Seq (r1 r2 : regex).

(** A position in the subject string: the text behind it (nearest
    character first), the text ahead, and group 1 if it is set. *)
Record cursor := Cursor {
  behind : str;
  ahead : str;
  group1 : option str
}.

(** The text between two positions of one scan. *)
Definition span (c0 c1 : cursor) : str :=
  take (length (ahead c0) - length (ahead c1)) (ahead c0).

(** [\b]: exactly one side of the position is a word character. *)
Definition at_boundary `{UCD} (bh ah : str) : bool :=
  xorb (from_option is_word false (head bh))
       (from_option is_word false (head ah)).

(** Greedy repetition: one more character first, the continuation as it
    stands only when that fails. *)
Fixpoint rep (p : char -> bool) (lo : nat) (hi : option nat)
    (bh ah : str) (g : option str) (k : cursor -> option cursor)
    : option cursor :=
  let stop :=
    match lo with
    | O => k (Cursor bh ah g)
    | S _ => None
    end in
  match ah with
  | x :: ah' =>
      if p x && negb (bool_decide (hi = Some O)) then
        match rep p (pred lo) (pred <$> hi) (x :: bh) ah' g k with
        | Some c => Some c
        | None => stop
        end
      else stop
  | [] => stop
  end.

(** The backtracking matcher, in continuation-passing style: [k] is the
    rest of the pattern. *)
Fixpoint run `{UCD} (r : regex) (c : cursor)
    (k : cursor -> option cursor) : option cursor :=
  match r with
  | Chr p =>
      match ahead c with
      | x :: ah' =>
          if p x then k (Cursor (x :: behind c) ah' (group1 c)) else None
      | [] => None
      end
  | Rep p lo hi => rep p lo hi (behind c) (ahead c) (group1 c) k
  | Boundary => if at_boundary (behind c) (ahead c) then k c else None
  | Group r' =>
      run r' c (fun c' =>
        k (Cursor (behind c') (ahead c') (Some (span c c'))))
  | Seq r1 r2 => run r1 c (fun c' => run r2 c' k)
  end.

(** A match object: [m.group(0)] and [m.group(1)]. *)
Record rmatch := Match {
  group0 : str;
  group_1 : option str
}.

(** [m.group(1)] *)
Definition group (m : rmatch) : str := default [] (group_1 m).

(** The match that starts at a given position, if there is one. *)
Definition match_at `{UCD} (r : regex) (bh ah : str) : option rmatch :=
  let c0 := Cursor bh ah None in
  match run r c0 Some with
  | Some c1 => Some (Match (span c0 c1) (group1 c1))
  | None => None
  end.

(** [re.fullmatch]: the match must end at the end of the string. *)
Definition fullmatch `{UCD} (r : regex) (s : str) : bool :=
  let accept c := match ahead c with [] => Some c | _ => None end in
  bool_decide (is_Some (run r (Cursor [] s None) accept)).

(** Leftmost match at or after a position. *)
Fixpoint search_from `{UCD} (r : regex) (bh ah : str) : option rmatch :=
  match match_at r bh ah with
  | Some m => Some m
  | None =>
      match ah with
      | x :: ah' => search_from r (x :: bh) ah'
      | [] => None
      end
  end.

(** [re.search] *)
Definition search `{UCD} (r : regex) (s : str) : option rmatch :=
  search_from r [] s.

(** The matches of [finditer] from a position on; [skip] characters
    still belong to the previous match. *)
Fixpoint finditer_from `{UCD} (r : regex) (bh ah : str) (skip : nat)
    : list rmatch :=
  match skip, match_at r bh ah with
  | O, Some m =>
      m :: match ah with
           | x :: ah' =>
               finditer_from r (x :: bh) ah' (pred (length (group0 m)))
           | [] => []
           end
  | _, _ =>
      match ah with
      | x :: ah' => finditer_from r (x :: bh) ah' (pred skip)
      | [] => []
      end
  end.

(** [re.finditer] *)
Definition finditer `{UCD} (r : regex) (s : str) : list rmatch :=
  finditer_from r [] s O.

(** A literal string of a pattern compiled with [re.IGNORECASE],
    followed by [r]. *)
Fixpoint ci_literal (l : str) (r : regex) : regex :=
  match l with
  | [] => r
  | c :: l' => Seq (Chr (ci c)) (ci_literal l' r)
  end.

End Re.

Import Re.

(** ** Settings *)

(** [MAX_MESSAGES], [EXCLUDE_ETSY_DOMAIN] and [OUTPUT_CSV]: the settings
    a run depends on. *)
Record settings := Settings {
  MAX_MESSAGES : option Z;
  EXCLUDE_ETSY_DOMAIN : bool;
  OUTPUT_CSV : str
}.

(** The values in the source. *)
Definition default_settings : settings :=
  Settings (Some 50%Z) true (lit "etsy_orders.csv").

Definition BASE_QUERY : str :=
  lit "from:(transaction@etsy.com OR mailer@etsy.com) category:updates ".

(** [SEND_MAIL_CUES]; U+00F6 is the o with diaeresis of the Turkish
    cues. *)
Definition SEND_MAIL_CUES : list str :=
  [lit "send mail"; lit "send message"; lit "email buyer";
   lit "contact buyer";
   lit "e-posta g" ++ [0xF6] ++ lit "nder";
   lit "mesaj g" ++ [0xF6] ++ lit "nder"].

(** The classes of [EMAIL_REGEX] under [re.IGNORECASE]. *)
Definition local_chr (c : char) : bool :=
  ci_AZ c || is_ascii_digit c
  || existsb (N.eqb c) (lit "._%+-").

Definition domain_chr (c : char) : bool :=
  ci_AZ c || is_ascii_digit c || existsb (N.eqb c) (lit ".-").

(** [EMAIL_REGEX], as every use compiles it (with [re.IGNORECASE]):
    [[A-Z0-9._%+-]+@[A-Z0-9.-]+\.[A-Z]{2,}] *)
Definition EMAIL_REGEX : regex :=
  Seq (Rep local_chr 1 None)
   (Seq (Chr (N.eqb 0x40))
    (Seq (Rep domain_chr 1 None)
     (Seq (Chr (N.eqb 0x2E))
      (Rep ci_AZ 2 None)))).

(** [\d{6,14}] *)
Definition DIGITS_6_14 : regex := Rep isdecimal 6 (Some 14%nat).

(** [ORDER_RE]: [\b(\d{6,14})\b] *)
Definition ORDER_RE : regex :=
  Seq Boundary (Seq (Group DIGITS_6_14) Boundary).

(** [Order\s*#\s*(\d{6,14})] with [re.IGNORECASE] *)
Definition SUBJECT_ORDER_RE : regex :=
  ci_literal (lit "Order")
    (Seq (Rep isspace 0 None)
      (Seq (Chr (N.eqb 0x23))
        (Seq (Rep isspace 0 None) (Group DIGITS_6_14)))).

(** The pattern [mailto:] followed by group 1, one or more characters
    other than the double quote; compiled with [re.IGNORECASE]. *)
Definition MAILTO_RE : regex :=
  ci_literal (lit "mailto:")
    (Group (Rep (fun c => negb (c =? 0x22)) 1 None)).

(** ** Order numbers *)

(** [valid_order_numbers_from_text] *)
Definition valid_order_numbers_from_text `{UCD} (text : str) : list str :=
  match text with
  | [] => []
  | _ =>
      let nums : gset str := list_to_set (group <$> finditer ORDER_RE text) in
      elements nums
  end.

(** ** The parsed document *)

(** What [BeautifulSoup(html, 'lxml')] builds, as far as the program
    looks at it: text nodes and tags with their attributes. The document
    object is the root [Element]. *)
#[warning="-register-all"]
Inductive node :=
| Text (s : str)
| Element (name : str) (attrs : list (str * str)) (children : list node).

Class HtmlParser := {
  BeautifulSoup : str -> node
}.

(** The strings of a subtree in document order. *)
Fixpoint strings (n : node) : list str :=
  match n with
  | Text s => [s]
  | Element _ _ cs =>
      (fix over (l : list node) : list str :=
         match l with
         | [] => []
         | c :: l' => strings c ++ over l'
         end) cs
  end.

(** [s.lstrip()] and [s.strip()] *)
Fixpoint lstrip (s : str) : str :=
  match s with
  | c :: s' => if isspace c then lstrip s' else s
  | [] => []
  end.

Definition strip (s : str) : str := rev (lstrip (rev (lstrip s))).

(** [s.split()]: the maximal runs of non-space characters; [cur] is the
    run being read, in reverse. *)
Fixpoint split_ws (s cur : str) : list str :=
  let flush rest := match cur with [] => rest | _ => rev cur :: rest end in
  match s with
  | [] => flush []
  | c :: s' =>
      if isspace c then flush (split_ws s' []) else split_ws s' (c :: cur)
  end.

(** [tag.get_text(sep)] *)
Definition get_text (sep : str) (n : node) : str := join sep (strings n).

(** [tag.get_text(sep, strip=True)]: strings are stripped and the empty
    ones left out. *)
Definition get_text_strip (sep : str) (n : node) : str :=
  join sep (filter (fun s => s <> []) (strip <$> strings n)).

(** The tags below a node in document order, each with its parent. *)
Fixpoint tags_under (parent : node) : list (node * node) :=
  match parent with
  | Text _ => []
  | Element _ _ cs =>
      (fix over (l : list node) : list (node * node) :=
         match l with
         | [] => []
         | c :: l' =>
             match c with
             | Text _ => over l'
             | Element _ _ _ => (c, parent) :: tags_under c ++ over l'
             end
         end) cs
  end.

Definition tag_name (n : node) : str :=
  match n with Element name _ _ => name | Text _ => [] end.

(** [tag[attr]] when [tag.has_attr(attr)] *)
Definition attr (n : node) (key : str) : option str :=
  match n with
  | Element _ attrs _ => snd <$> find (fun kv => str_eqb (fst kv) key) attrs
  | Text _ => None
  end.

(** [soup.find_all('a', href=True)] *)
Definition find_all_a_href (soup : node) : list (node * node) :=
  filter (fun t => tag_name (fst t) = lit "a" /\ is_Some (attr (fst t) (lit "href")))
    (tags_under soup).

(** [soup.find_all(['a', 'button'])] *)
Definition find_all_a_button (soup : node) : list (node * node) :=
  filter (fun t => tag_name (fst t) = lit "a" \/ tag_name (fst t) = lit "button")
    (tags_under soup).

(** ** Buyer emails *)

Section Emails.
Context `{UCD} `{HtmlParser}.

(** [m = re.search(EMAIL_REGEX, s, re.IGNORECASE)] and, on a match,
    [emails.add(m.group(0).lower())]. *)
Definition add_email (s : str) (emails : gset str) : gset str :=
  match search EMAIL_REGEX s with
  | Some m => {[ str_lower (group0 m) ]} ∪ emails
  | None => emails
  end.

(** The email behind a [mailto:] in a link target. *)
Definition add_mailto (href : str) (emails : gset str) : gset str :=
  match search MAILTO_RE href with
  | Some m => add_email (group m) emails
  | None => emails
  end.

Definition AUX_ATTRS : list str :=
  [lit "data-email"; lit "data-to"; lit "title"; lit "aria-label"].

(** The loop over [('data-email', 'data-to', 'title', 'aria-label')]. *)
Definition add_aux_attrs (el : node) (emails : gset str) : gset str :=
  foldl (fun acc key =>
           match attr el key with
           | Some v => add_email v acc
           | None => acc
           end) emails AUX_ATTRS.

(** [any(cue in text for cue in SEND_MAIL_CUES)] on the visible text of
    a tag, stripped and lowercased. *)
Definition has_cue (el : node) : bool :=
  let text := str_lower (strip (get_text [] el)) in
  existsb (contains text) SEND_MAIL_CUES.

(** First loop: links whose text carries a cue. *)
Definition cue_links (soup : node) (emails : gset str) : gset str :=
  foldl (fun acc t =>
           let a := fst t in
           if has_cue a then
             add_aux_attrs a (add_mailto (default [] (attr a (lit "href"))) acc)
           else acc) emails (find_all_a_href soup).

(** Second loop: links and buttons with a cue, their attributes and the
    first 1500 characters of the text around them. *)
Definition cue_neighbourhood (soup : node) (emails : gset str) : gset str :=
  foldl (fun acc t =>
           let el := fst t in
           if has_cue el then
             let acc := add_aux_attrs el acc in
             let neighborhood :=
               take 1500 (join (lit " ")
                            (split_ws (get_text_strip (lit " ") (snd t)) [])) in
             add_email neighborhood acc
           else acc) emails (find_all_a_button soup).

(** Third loop: every [mailto:] link, whatever its text. *)
Definition mailto_fallback (soup : node) (emails : gset str) : gset str :=
  foldl (fun acc t => add_mailto (default [] (attr (fst t) (lit "href"))) acc)
    emails (find_all_a_href soup).

(** [extract_emails_from_html] *)
Definition extract_emails_from_html (html : str) : list str :=
  match html with
  | [] => []
  | _ =>
      let soup := BeautifulSoup html in
      let emails : gset str := ∅ in
      let emails := cue_links soup emails in
      let emails := cue_neighbourhood soup emails in
      let emails := mailto_fallback soup emails in
      elements emails
  end.

(** [extract_emails_from_text] *)
Definition extract_emails_from_text (text : str) : list str :=
  match text with
  | [] => []
  | _ =>
      let emails : gset str :=
        list_to_set ((fun m => str_lower (group0 m)) <$> finditer EMAIL_REGEX text) in
      elements emails
  end.

(** [extract_orders] *)
Definition extract_orders (subject html plain : str) : list str :=
  let found : gset str := ∅ in
  let found :=
    match subject with
    | [] => found
    | _ =>
        let found :=
          foldl (fun acc m => {[ group m ]} ∪ acc) found
            (finditer SUBJECT_ORDER_RE subject) in
        found ∪ list_to_set (valid_order_numbers_from_text subject)
    end in
  let found :=
    match html with
    | [] => found
    | _ =>
        let text_from_html := get_text (lit " ") (BeautifulSoup html) in
        found ∪ list_to_set (valid_order_numbers_from_text text_from_html)
    end in
  let found :=
    match plain with
    | [] => found
    | _ => found ∪ list_to_set (valid_order_numbers_from_text plain)
    end in
  elements found.

End Emails.

(** The suffix [EXCLUDE_ETSY_DOMAIN] rules out. *)
Definition ETSY_SUFFIX : str := lit "@etsy.com".

(** [filter_buyer_emails]: the loop that fills [cleaned]. *)
Fixpoint cleaned (cfg : settings) (emails : list str) : list str :=
  match emails with
  | [] => []
  | e :: rest =>
      match e with
      | [] => cleaned cfg rest
      | _ =>
          if EXCLUDE_ETSY_DOMAIN cfg && endswith e ETSY_SUFFIX
          then cleaned cfg rest
          else e :: cleaned cfg rest
      end
  end.

Definition filter_buyer_emails (cfg : settings) (emails : list str) : list str :=
  elements (list_to_set (cleaned cfg emails) : gset str).

(** ** The Gmail service *)

(** One header dict of a message: [h.get('name')], [h.get('value')]. *)
Record header := Header {
  h_name : option str;
  h_value : option str
}.

(** The reply of [messages().get(format='full')]: the payload dict with
    its headers. A reply without a payload reads as an empty dict. *)
Record message := Message {
  headers : list header;
  msg_payload : payload
}.

(** The reply of [messages().list(...)]: the ids of [resp['messages']]
    when the key is there, and the continuation token. *)
Record listing := Listing {
  messages : option (list str);
  nextPageToken : option str;
  resultSizeEstimate : option Z
}.

(** The service object: what [execute()] returns or raises for the two
    requests the program sends. *)
Record service := Service {
  messages_list : str -> option str -> Z -> result listing;
  messages_get : str -> result message
}.

(** [MAX_MESSAGES and seen >= MAX_MESSAGES] *)
Definition cap_reached (cfg : settings) (seen : Z) : bool :=
  match MAX_MESSAGES cfg with
  | Some n => negb (n =? 0)%Z && (n <=? seen)%Z
  | None => false
  end.

(** The [for m in resp.get('messages', [])] loop of
    [search_message_ids]: the ids it yields, the counter after it, and
    whether it returned from the generator. *)
Fixpoint page_ids (cfg : settings) (ms : list str) (seen : Z)
    : list str * Z * bool :=
  match ms with
  | [] => ([], seen, false)
  | m :: ms' =>
      let seen := (seen + 1)%Z in
      if cap_reached cfg seen then ([m], seen, true)
      else
        let '(ids, seen', returned) := page_ids cfg ms' seen in
        (m :: ids, seen', returned)
  end.

(** How a generator stands after some pages. *)
Inductive gen_end :=
| GenDone
| GenRaise (e : exn)
| GenPending.

(** The [while True] loop of [search_message_ids], for at most [fuel]
    pages: the ids yielded so far and how the generator stands. *)
Fixpoint search_pages (cfg : settings) (svc : service) (query : str)
    (fuel : nat) (next_page : option str) (seen : Z) : list str * gen_end :=
  match fuel with
  | O => ([], GenPending)
  | S fuel' =>
      match messages_list svc query next_page 500%Z with
      | Raise e => ([], GenRaise e)
      | Ok resp =>
          let '(ids, seen', returned) :=
            page_ids cfg (default [] (messages resp)) seen in
          if returned then (ids, GenDone)
          else
            match nextPageToken resp with
            | Some (c :: tok) =>
                let '(more, fin) :=
                  search_pages cfg svc query fuel' (Some (c :: tok)) seen' in
                (ids ++ more, fin)
            | _ => (ids, GenDone)
            end
      end
  end.

(** [search_message_ids] *)
Definition search_message_ids (cfg : settings) (svc : service) (query : str)
    (fuel : nat) : list str * gen_end :=
  search_pages cfg svc query fuel None 0%Z.

(** [get_message_full] *)
Definition get_message_full (svc : service) (msg_id : str) : result message :=
  messages_get svc msg_id.

(** [header_get] *)
Fixpoint header_get `{UCD} (hs : list header) (name : str) : option str :=
  let name_lower := str_lower name in
  match hs with
  | [] => None
  | h :: hs' =>
      if str_eqb (str_lower (default [] (h_name h))) name_lower
      then h_value h
      else header_get hs' name
  end.

(** ** The main loop *)

(** A row of [rows]. *)
Record row := Row {
  message_id : str;
  date : str;
  subject : str;
  order_number : str;
  buyer_email : str
}.

Definition pair_of (r : row) : str * str := (order_number r, buyer_email r).

(** The run: the console, the files written (path and text, latest
    first), and the variables [rows], [seen_pairs], [processed] of
    [main]. *)
Record state := State {
  stdout : list str;
  files : list (str * str);
  rows : list row;
  seen_pairs : gset (str * str);
  processed : Z
}.

(** The state of a fresh process. *)
Definition start : state := State [] [] [] ∅ 0%Z.

(** How a statement ends: normally, by an exception, or not within the
    pages allowed to the listing. *)
Inductive outcome (A : Type) :=
| Returns (a : A)
| Raises (e : exn)
| Unfinished.
Arguments Returns {A} a.
Arguments Raises {A} e.
Arguments Unfinished {A}.

Definition M (A : Type) : Type := state -> outcome A * state.

Definition ret {A} (a : A) : M A := fun s => (Returns a, s).

Definition bind {A B} (m : M A) (k : A -> M B) : M B :=
  fun s =>
    match m s with
    | (Returns a, s') => k a s'
    | (Raises e, s') => (Raises e, s')
    | (Unfinished, s') => (Unfinished, s')
    end.

Notation "x <- c1 ;;; c2" := (bind c1 (fun x => c2))
  (at level 100, c1 at next level, right associativity).
Notation "c1 ;;; c2" := (bind c1 (fun _ => c2))
  (at level 100, right associativity).

Definition raise {A} (e : exn) : M A := fun s => (Raises e, s).

Definition unfinished {A} : M A := fun s => (Unfinished, s).

(** A pure computation that may raise. *)
Definition lift {A} (r : result A) : M A :=
  match r with
  | Ok a => ret a
  | Raise e => raise e
  end.

(** [sys.exit(code)] *)
Definition sys_exit {A} (code : Z) : M A := raise (SystemExit code).

(** [print(line)]. The lines of the model carry the fixed text of the
    message in ASCII; the interpolated values are left out. *)
Definition print (line : str) : M unit :=
  fun s => (Returns tt,
            State (line :: stdout s) (files s) (rows s) (seen_pairs s) (processed s)).

(** [with open(path, 'w', ...) as f] and everything written to [f]. *)
Definition write_file (path text : str) : M unit :=
  fun s => (Returns tt,
            State (stdout s) ((path, text) :: files s) (rows s) (seen_pairs s)
              (processed s)).

Definition get {A} (proj : state -> A) : M A := fun s => (Returns (proj s), s).

(** [try: body except ...: handler]; [handler e] is [None] when no
    clause matches [e]. *)
Definition try_except {A} (body : M A) (handler : exn -> option (M A)) : M A :=
  fun s =>
    match body s with
    | (Raises e, s') =>
        match handler e with
        | Some h => h s'
        | None => (Raises e, s')
        end
    | r => r
    end.

(** [except Exception]: every exception of the model but [SystemExit]. *)
Definition is_Exception (e : exn) : bool :=
  match e with
  | SystemExit _ => false
  | _ => true
  end.

Fixpoint for_each {A} (l : list A) (body : A -> M unit) : M unit :=
  match l with
  | [] => ret tt
  | a :: l' => body a ;;; for_each l' body
  end.

(** [for x in gen: body]: the body runs on every id the generator
    yields; then the generator is exhausted, or raises into the loop. *)
Definition for_yielded (gen : list str * gen_end) (body : str -> M unit)
    : M unit :=
  for_each (fst gen) body ;;;
  match snd gen with
  | GenDone => ret tt
  | GenRaise e => raise e
  | GenPending => unfinished
  end.

(** ** CSV *)

Definition CRLF : str := [0x0D; 0x0A].

(** A field as [csv.writer] puts it with the [excel] dialect: quoted,
    with its quotes doubled, when it holds a comma, a quote or a line
    break. *)
Definition csv_field (f : str) : str :=
  if existsb (fun c => (c =? 0x2C) || (c =? 0x22) || (c =? 0x0D) || (c =? 0x0A)) f
  then [0x22] ++ flat_map (fun c => if c =? 0x22 then [0x22; 0x22] else [c]) f
       ++ [0x22]
  else f.

Definition csv_line (fields : list str) : str :=
  join (lit ",") (csv_field <$> fields) ++ CRLF.

(** The text of the table: [writeheader()] and a [writerow] for every
    row with both fields. *)
Definition csv_text (rs : list row) : str :=
  csv_line [lit "order_number"; lit "buyer_email"]
  ++ flat_map (fun r =>
       match order_number r, buyer_email r with
       | _ :: _, _ :: _ => csv_line [order_number r; buyer_email r]
       | _, _ => []
       end) rs.

(** ** [main] *)

Inductive source := FromHtml | FromPlain.

(** What the body of the inner [try] computes for a message before it
    touches [rows]. [consulted] lists the email extractors it called. *)
Record findings := Findings {
  f_subject : str;
  f_date : str;
  f_orders : gset str;
  f_emails : gset str;
  consulted : list source
}.

Section Main.
Context `{UCD} `{HtmlParser}.
Variable cfg : settings.

(** Lines 260 to 263: the emails of the HTML, and those of the plain
    text only [if not emails]. *)
Definition candidate_emails (html plain : str) : gset str * list source :=
  let emails : gset str := list_to_set (extract_emails_from_html html) in
  if decide (emails = ∅)
  then (emails ∪ list_to_set (extract_emails_from_text plain),
        [FromHtml; FromPlain])
  else (emails, [FromHtml]).

(** The chunks of the payload by kind. *)
Fixpoint chunks (parts : list (str * str)) : list str * list str :=
  match parts with
  | [] => ([], [])
  | (mime, content) :: rest =>
      let '(html_chunks, text_chunks) := chunks rest in
      if contains mime (lit "html") then (content :: html_chunks, text_chunks)
      else if contains mime (lit "text") then (html_chunks, content :: text_chunks)
      else (html_chunks, text_chunks)
  end.

(** The body of the inner [try] down to line 263: subject, date, and
    the orders and emails as extracted. *)
Definition gather (msg : message) : result findings :=
  let subject := default [] (header_get (headers msg) (lit "Subject")) in
  let date := default [] (header_get (headers msg) (lit "Date")) in
  parts <-r iter_payload_parts (msg_payload msg) ;;
  let '(html_chunks, text_chunks) := chunks parts in
  let html := join [0x0A] html_chunks in
  let plain := join [0x0A] text_chunks in
  let orders : gset str := list_to_set (extract_orders subject html plain) in
  let '(emails, srcs) := candidate_emails html plain in
  Ok (Findings subject date orders emails srcs).

(** Lines 266 and 267: orders validated again, emails filtered. *)
Definition clean (f : findings) : findings :=
  let orders := filter (fun o => fullmatch DIGITS_6_14 o = true) (f_orders f) in
  let emails : gset str :=
    list_to_set (filter_buyer_emails cfg (elements (f_emails f))) in
  Findings (f_subject f) (f_date f) orders emails (consulted f).

Definition analyse (msg : message) : result findings :=
  f <-r gather msg ;;
  Ok (clean f).

(** The body of [for e in emails]. *)
Definition record_pair (msg_id : str) (f : findings) (o e : str) : M unit :=
  fun s =>
    match o, e with
    | _ :: _, _ :: _ =>
        if decide ((o, e) ∈ seen_pairs s) then (Returns tt, s)
        else (Returns tt,
              State (stdout s) (files s)
                (rows s ++ [Row msg_id (f_date f) (f_subject f) o e])
                ({[ (o, e) ]} ∪ seen_pairs s) (processed s))
    | _, _ => (Returns tt, s)
    end.

(** [processed += 1] and the progress line every hundredth message. *)
Definition count_processed : M unit :=
  fun s =>
    let n := (processed s + 1)%Z in
    let s' := State (stdout s) (files s) (rows s) (seen_pairs s) n in
    if (n mod 100 =? 0)%Z then print (lit "[DEBUG] mesaj islendi...") s'
    else (Returns tt, s').

(** The body of [for msg_id in search_message_ids(...)]. The pause of
    [time.sleep] has no part in the state and is left out. *)
Definition process_message (svc : service) (msg_id : str) : M unit :=
  try_except
    (f <- lift (msg <-r get_message_full svc msg_id ;; analyse msg) ;;;
     for_each (elements (f_orders f)) (fun o =>
       for_each (elements (f_emails f)) (fun e =>
         record_pair msg_id f o e)) ;;;
     count_processed)
    (fun e =>
       match e with
       | HttpError _ => Some (print (lit "[Uyari] okunamadi"))
       | _ =>
           if is_Exception e then Some (print (lit "[Uyari] parse edilirken hata"))
           else None
       end).

(** The block under the comment on the CSV, where the source has it:
    in the [except HttpError] clause, after [sys.exit(2)]. *)
Definition write_table : M unit :=
  rs <- get rows ;;;
  write_file (OUTPUT_CSV cfg) (csv_text rs).

(** [main]; [get_service] is the outcome of the OAuth handshake and
    [fuel] the number of pages the listing is followed for. *)
Definition main (get_service : result service) (fuel : nat) : M unit :=
  svc <- try_except (lift get_service)
           (fun e =>
              if is_Exception e then
                Some (print (lit "[HATA] Gmail servisine baglanirken sorun") ;;;
                      print (lit "client_secret.json ve yetkilendirme adimlarini kontrol edin.") ;;;
                      sys_exit 1%Z)
              else None) ;;;
  print (lit "[DEBUG] Query: " ++ BASE_QUERY) ;;;
  first_list <- lift (messages_list svc BASE_QUERY None 1%Z) ;;;
  match resultSizeEstimate first_list with
  | Some _ => print (lit "[DEBUG] Yaklasik mesaj bulundu.")
  | None => ret tt
  end ;;;
  (fun s => (Returns tt, State (stdout s) (files s) [] ∅ 0%Z)) ;;;
  try_except
    (for_yielded (search_message_ids cfg svc BASE_QUERY fuel)
       (process_message svc))
    (fun e =>
       match e with
       | HttpError _ =>
           Some (print (lit "[HATA] Listeleme sirasinda HttpError") ;;;
                 (sys_exit 2%Z : M unit) ;;;
                 write_table)
       | _ => None
       end) ;;;
  print (lit "Tamamlandi. kayit yazildi").

End Main.

(** ** A small interpreter configuration for examples *)

(** The tables restricted to ASCII: letters are the 52 ASCII letters and
    [str.lower] changes only those. Every theorem below holds for any
    tables; this instance serves to evaluate examples on ASCII input. *)
Definition ascii_lower (s : str) : str :=
  (fun c => if between 0x41 0x5A c then c + 32 else c) <$> s.

Definition ascii_ucd : UCD := {|
  isalpha c := between 0x41 0x5A c || between 0x61 0x7A c;
  isdigit c := is_ascii_digit c;
  isnumeric c := is_ascii_digit c;
  str_lower := ascii_lower
|}.

(** A parser that answers with a given document. *)
Definition parser_of (doc : node) : HtmlParser := {|
  BeautifulSoup _ := doc
|}.

(** The end-to-end example: one link to the buyer under a cue, and the
    order number in the subject. The body is the base64 of a short
    piece of markup, for which [parser_of example_doc] stands in. *)
Definition example_doc : node :=
  Element (lit "[document]") []
    [Element (lit "a") [(lit "href", lit "mailto:jane@example.com")]
       [Text (lit "Contact Buyer")]].

Definition example_message : message :=
  Message
    [Header (Some (lit "Subject"))
       (Some (lit "Your Etsy order [Order #12345678] has shipped"))]
    (Payload (Some (lit "text/html")) (Some (lit "PGE-")) None).

(** A mailbox that lists two ids on one page and answers both with the
    same message. *)
Definition example_service : service :=
  Service (fun _ _ _ => Ok (Listing (Some [lit "m1"; lit "m2"]) None (Some 2%Z)))
    (fun _ => Ok example_message).

(** The same message when its only link is to the sender's domain. *)
Definition support_doc : node :=
  Element (lit "[document]") []
    [Element (lit "a") [(lit "href", lit "mailto:support@etsy.com")]
       [Text (lit "Help")]].

(** The example message with a body that stops inside a base64 group. *)
Definition broken_message : message :=
  Message (headers example_message)
    (Payload (Some (lit "text/html")) (Some (lit "QQ")) None).

(** ** Vocabulary of the properties *)

(** A string of 6 to 14 characters of the class [\d]. *)
Definition digits_6_14 (o : str) : Prop :=
  Forall (fun c => isdecimal c = true) o /\ (6 <= length o <= 14)%nat.

(** A string of 6 to 14 ASCII digits. *)
Definition ascii_digits_6_14 (o : str) : Prop :=
  Forall (fun c => is_ascii_digit c = true) o /\ (6 <= length o <= 14)%nat.

(** A token between [pre] and [post] stands on its own: no word
    character touches it on either side. *)
Definition word_bounded `{UCD} (pre post : str) : Prop :=
  from_option is_word false (last pre) = false /\
  from_option is_word false (head post) = false.

(** A statement keeps a property of the files written, the rows and
    the seen pairs, however it ends. *)
Definition preserves {A : Type}
    (J : list (str * str) -> list row -> gset (str * str) -> Prop)
    (m : M A) : Prop :=
  forall s, J (files s) (rows s) (seen_pairs s) ->
    J (files (snd (m s))) (rows (snd (m s))) (seen_pairs (snd (m s))).

(** The rows carry distinct pairs, all of them in [seen_pairs]. *)
Definition distinct_pairs (fs : list (str * str)) (rs : list row)
    (sp : gset (str * str)) : Prop :=
  NoDup (pair_of <$> rs) /\ forall r, r ∈ rs -> pair_of r ∈ sp.

(** No row is on the excluded domain. *)
Definition off_domain (fs : list (str * str)) (rs : list row)
    (sp : gset (str * str)) : Prop :=
  forall r, r ∈ rs -> endswith (buyer_email r) ETSY_SUFFIX = false.

(** The settings with the cap taken off. *)
Definition uncapped (cfg : settings) : settings :=
  Settings None (EXCLUDE_ETSY_DOMAIN cfg) (OUTPUT_CSV cfg).

(** A mailbox whose listing is one page of the given ids. *)
Definition one_page (ids : list str) (get : str -> result message) : service :=
  Service (fun _ _ _ => Ok (Listing (Some ids) None None)) get.

(** The leaves of a payload tree that carry body data: the nodes
    without parts whose data is there and not empty. *)
Fixpoint data_leaves (p : payload) : nat :=
  match p with
  | Payload _ _ (Some ps) =>
      (fix over (l : list payload) : nat :=
         match l with
         | [] => O
         | q :: l' => (data_leaves q + over l')%nat
         end) ps
  | Payload _ (Some (_ :: _)) None => 1%nat
  | Payload _ _ None => O
  end.

(** A character of the URL-safe base64 alphabet. *)
Definition urlsafe_chr (c : char) : bool :=
  bool_decide (is_Some (Codec.b64_value (Codec.urlsafe_translate c))).

(** [f] holds of the [n] numbers from [c] on. *)
Fixpoint all_from (f : N -> bool) (n : nat) (c : N) : bool :=
  match n with
  | O => true
  | S n' => f c && all_from f n' (c + 1)
  end.

(** The lowercased form of a string that [EMAIL_REGEX] matches in
    full. *)
Definition lowered_address `{UCD} (e : str) : Prop :=
  exists m, e = str_lower m /\ fullmatch EMAIL_REGEX m = true.

(** A character an address can hold: one of the local part, or the
    [@]. *)
Definition address_chr (c : char) : bool := local_chr c || (c =? 0x40).

(** Every seen pair has its row (an invariant in the sense of
    [preserves]). *)
Definition seen_have_rows (fs : list (str * str)) (rs : list row)
    (sp : gset (str * str)) : Prop :=
  forall p, p ∈ sp -> p ∈ pair_of <$> rs.

(** The nodes below a payload in document order, and those of a list of
    sibling parts. *)
Fixpoint nodes_below (p : payload) : list payload :=
  match p with
  | Payload _ _ (Some ps) =>
      (fix over (l : list payload) : list payload :=
         match l with
         | [] => []
         | q :: l' => q :: nodes_below q ++ over l'
         end) ps
  | Payload _ _ None => []
  end.

(** The nodes whose body the flattener reads: the payload itself when it
    has no parts, the nodes below it when it has. *)
Definition sources (p : payload) : list payload :=
  match p with
  | Payload _ _ (Some _) => nodes_below p
  | Payload _ _ None => [p]
  end.

(** The loop of the flattener over sibling parts, and the nodes it goes
    through. *)
Definition iter_parts (l : list payload) : result (list (str * str)) :=
  iter_payload_parts (Payload None None (Some l)).

Definition nodes_of (l : list payload) : list payload :=
  nodes_below (Payload None None (Some l)).

(** The byte sequences the decoder takes for a character, with the
    character: the four shapes of well-formed UTF-8. *)
Definition decodes_to (seg : bytes) (c : char) : bool :=
  match seg with
  | [b0] => (b0 <? 0x80) && (b0 =? c)
  | [b0; b1] =>
      between 0xC2 0xDF b0 && Codec.is_cont b1 &&
      (N.lor (N.shiftl (N.land b0 0x1F) 6) (Codec.low6 b1) =? c)
  | [b0; b1; b2] =>
      between 0xE0 0xEF b0 && Codec.second3 b0 b1 && Codec.is_cont b2 &&
      (N.lor (N.shiftl (N.land b0 0x0F) 12)
         (N.lor (N.shiftl (Codec.low6 b1) 6) (Codec.low6 b2)) =? c)
  | [b0; b1; b2; b3] =>
      between 0xF0 0xF4 b0 && Codec.second4 b0 b1 && Codec.is_cont b2 &&
      Codec.is_cont b3 &&
      (N.lor (N.shiftl (N.land b0 0x07) 18)
         (N.lor (N.shiftl (Codec.low6 b1) 12)
            (N.lor (N.shiftl (Codec.low6 b2) 6) (Codec.low6 b3))) =? c)
  | _ => false
  end.

(** A byte sequence that is the encoding of a character, and one that
    begins such an encoding. *)
Definition well_formed (seg : bytes) : Prop :=
  exists c, Codec.encode_char c = Ok seg.

Definition well_formed_prefix (p : bytes) : Prop :=
  exists c tail, Codec.encode_char c = Ok (p ++ tail).

(** A maximal ill-formed piece standing before [rest]: it is no
    encoding, it is one byte or begins an encoding, and the byte that
    follows does not carry that beginning on. *)
Definition ill_formed_subpart (seg rest : bytes) : Prop :=
  seg <> [] /\ ~ well_formed seg /\
  ((exists b, seg = [b]) \/ well_formed_prefix seg) /\
  (forall x rest', rest = x :: rest' -> ~ well_formed_prefix (seg ++ [x])).

(** The pair stands in the message of that id: the message is fetched
    and analysed without error, and the order and the email are among
    its findings. *)
Definition occurs `{UCD} `{HtmlParser} (cfg : settings) (svc : service)
    (msg_id : str) (p : str * str) : Prop :=
  exists msg f,
    get_message_full svc msg_id = Ok msg /\ analyse cfg msg = Ok f /\
    p.1 ∈ f_orders f /\ p.2 ∈ f_emails f.

(** The rows and the ids gone through: pairs and rows go together,
    every pair of a message gone through has its row, and every row
    belongs to the first message gone through in which its pair
    stands. *)
Definition first_recorded `{UCD} `{HtmlParser} (cfg : settings) (svc : service)
    (done : list str) (s : state) : Prop :=
  distinct_pairs (files s) (rows s) (seen_pairs s) /\
  seen_have_rows (files s) (rows s) (seen_pairs s) /\
  (forall id p, id ∈ done -> occurs cfg svc id p -> p ∈ pair_of <$> rows s) /\
  (forall r, r ∈ rows s ->
     exists l1 l2,
       done = l1 ++ message_id r :: l2 /\
       occurs cfg svc (message_id r) (pair_of r) /\
       forall id, id ∈ l1 -> ~ occurs cfg svc id (pair_of r)).

(** * Properties *)

(** ** The matcher *)

Section Matcher.
Context `{UCD}.

(** What a successful repetition consumed. *)
Lemma rep_inv p lo hi bh ah g k c :
  rep p lo hi bh ah g k = Some c ->
  exists pre rest,
    ah = pre ++ rest /\ Forall (fun x => p x = true) pre /\
    (lo <= length pre)%nat /\
    (forall h, hi = Some h -> (length pre <= h)%nat) /\
    k (Cursor (rev pre ++ bh) rest g) = Some c.
Proof.
  revert lo hi bh.
  induction ah as [|x ah IH]; intros lo hi bh Hrep; simpl in Hrep.
  - destruct lo; [|discriminate].
    exists [], []. repeat split; simpl; auto using Forall_nil with lia.
  - assert (Hstop :
      match lo with O => k (Cursor bh (x :: ah) g) | S _ => None end = Some c ->
      exists pre rest,
        x :: ah = pre ++ rest /\ Forall (fun x => p x = true) pre /\
        (lo <= length pre)%nat /\
        (forall h, hi = Some h -> (length pre <= h)%nat) /\
        k (Cursor (rev pre ++ bh) rest g) = Some c).
    { destruct lo; [|discriminate]. intros Hk.
      exists [], (x :: ah). repeat split; simpl; auto using Forall_nil with lia. }
    destruct (p x) eqn:Hpx; simpl in Hrep; [|auto].
    case_bool_decide as Hhi; simpl in Hrep; [auto|].
    destruct (rep p (pred lo) (pred <$> hi) (x :: bh) ah g k) as [c'|] eqn:Hrec;
      [|auto].
    inversion Hrep; subst c'.
    destruct (IH _ _ _ Hrec) as (pre & rest & -> & Hall & Hlo & Hh & Hk).
    exists (x :: pre), rest. simpl. rewrite <- app_assoc. simpl.
    repeat split; auto with lia.
    intros h ->. simpl in Hh. specialize (Hh _ eq_refl).
    destruct h; [congruence|simpl in Hh; lia].
Qed.

(** A greedy repetition takes the whole run when the rest of the pattern
    accepts there. *)
Lemma rep_greedy p lo hi bh pre rest g k c :
  Forall (fun x => p x = true) pre ->
  from_option p false (head rest) = false \/ hi = Some (length pre) ->
  (lo <= length pre)%nat ->
  (forall h, hi = Some h -> (length pre <= h)%nat) ->
  k (Cursor (rev pre ++ bh) rest g) = Some c ->
  rep p lo hi bh (pre ++ rest) g k = Some c.
Proof.
  revert lo hi bh.
  induction pre as [|x pre IH]; intros lo hi bh Hall Hmax Hlo Hhi Hk; simpl in *.
  - assert (lo = O) as -> by lia.
    destruct rest as [|y rest]; simpl; [done|].
    destruct Hmax as [Hy | ->]; simpl in *.
    + by rewrite Hy.
    + rewrite andb_false_r. done.
  - inversion Hall as [|? ? Hx Hall']; subst.
    rewrite Hx. simpl.
    case_bool_decide as Hz.
    { specialize (Hhi _ Hz). lia. }
    simpl. rewrite (IH (pred lo) (pred <$> hi) (x :: bh)); auto.
    + destruct Hmax as [?| ->]; auto.
    + lia.
    + intros h Hh. destruct hi as [h'|]; [|done]. simpl in Hh.
      inversion Hh; subst. specialize (Hhi _ eq_refl). lia.
    + by rewrite <- app_assoc in Hk.
Qed.

(** An unbounded repetition fails when the rest of the pattern refuses
    every length it can offer. *)
Lemma rep_none p lo bh pre rest g k :
  from_option p false (head rest) = false ->
  (forall j, (j <= length pre)%nat ->
     k (Cursor (rev (take j pre) ++ bh) (drop j pre ++ rest) g) = None) ->
  rep p lo None bh (pre ++ rest) g k = None.
Proof.
  revert lo bh.
  induction pre as [|x pre IH]; intros lo bh Hrest Hk; simpl in *.
  - assert (H0 := Hk O (le_n _)). simpl in H0.
    destruct rest as [|y rest]; simpl in *.
    + by destruct lo.
    + rewrite Hrest. simpl. by destruct lo.
  - assert (H0 := Hk O (Nat.le_0_l _)). simpl in H0.
    rewrite IH; auto.
    + destruct (p x); simpl; by destruct lo.
    + intros j Hj. specialize (Hk (S j)). simpl in Hk.
      rewrite <- app_assoc in Hk. apply Hk. lia.
Qed.

(** Backtracking: the repetition settles on the longest prefix of the
    run after which the rest of the pattern accepts. *)
Lemma rep_backtrack p lo bh pre1 pre2 rest g k c :
  Forall (fun x => p x = true) pre1 ->
  from_option p false (head rest) = false ->
  (lo <= length pre1)%nat ->
  k (Cursor (rev pre1 ++ bh) (pre2 ++ rest) g) = Some c ->
  (forall j, (0 < j <= length pre2)%nat ->
     k (Cursor (rev (take j pre2) ++ rev pre1 ++ bh) (drop j pre2 ++ rest) g) = None) ->
  rep p lo None bh (pre1 ++ pre2 ++ rest) g k = Some c.
Proof.
  revert lo bh.
  induction pre1 as [|x pre1 IH]; intros lo bh Hall Hrest Hlo Hk Hfail; simpl in *.
  - assert (lo = O) as -> by lia.
    destruct pre2 as [|y pre2]; simpl in *.
    + destruct rest as [|z rest]; simpl in *; [done|]. by rewrite Hrest.
    + rewrite (rep_none p _ (y :: bh) pre2 rest g k); auto.
      * by destruct (p y).
      * intros j Hj. specialize (Hfail (S j)). simpl in Hfail.
        rewrite <- app_assoc in Hfail. apply Hfail. lia.
  - inversion Hall as [|? ? Hx Hall']; subst.
    rewrite Hx. simpl.
    rewrite (IH (pred lo) (x :: bh)); auto.
    + lia.
    + by rewrite <- app_assoc in Hk.
    + intros j Hj. specialize (Hfail j Hj).
      by rewrite <- (app_assoc (rev pre1)) in Hfail.
Qed.

(** Every match of [finditer] is the match at some position. *)
Lemma finditer_from_match_at r bh ah skip m :
  m ∈ finditer_from r bh ah skip ->
  exists bh' ah', match_at r bh' ah' = Some m.
Proof.
  revert bh skip.
  induction ah as [|x ah IH]; intros bh skip Hm; simpl in Hm.
  - destruct skip; [|by apply elem_of_nil in Hm].
    destruct (match_at r bh []) as [m'|] eqn:Hat; [|by apply elem_of_nil in Hm].
    apply list_elem_of_singleton in Hm as ->. eauto.
  - destruct skip.
    + destruct (match_at r bh (x :: ah)) as [m'|] eqn:Hat.
      * apply elem_of_cons in Hm as [->|Hm]; eauto.
      * eauto.
    + destruct (match_at r bh (x :: ah)); eauto.
Qed.

End Matcher.

(** ** Order numbers *)

Section Orders.
Context `{UCD} `{HtmlParser}.

Lemma span_app bh bh' pre rest g g' :
  span (Cursor bh (pre ++ rest) g) (Cursor bh' rest g') = pre.
Proof.
  unfold span. simpl. rewrite length_app.
  replace (length pre + length rest - length rest)%nat with (length pre) by lia.
  by rewrite take_app_length.
Qed.

Lemma run_group_digits c k c' :
  run (Group DIGITS_6_14) c k = Some c' ->
  exists pre rest,
    ahead c = pre ++ rest /\ digits_6_14 pre /\
    k (Cursor (rev pre ++ behind c) rest (Some pre)) = Some c'.
Proof.
  destruct c as [bh ah g]. simpl. intros Hrun.
  apply rep_inv in Hrun as (pre & rest & -> & Hall & Hlo & Hhi & Hk).
  simpl in Hk. rewrite span_app in Hk.
  exists pre, rest. repeat split; auto.
Qed.

Lemma run_seq r1 r2 c k :
  run (Seq r1 r2) c k = run r1 c (fun c' => run r2 c' k).
Proof. reflexivity. Qed.

Lemma run_chr_inv p c k c' :
  run (Chr p) c k = Some c' ->
  exists x ah', ahead c = x :: ah' /\ p x = true /\
    k (Cursor (x :: behind c) ah' (group1 c)) = Some c'.
Proof.
  simpl. destruct (ahead c) as [|x ah']; [done|].
  destruct (p x) eqn:Hp; [|done]. eauto.
Qed.

Lemma run_rep_inv p lo hi c k c' :
  run (Rep p lo hi) c k = Some c' ->
  exists pre rest, ahead c = pre ++ rest /\
    Forall (fun x => p x = true) pre /\ (lo <= length pre)%nat /\
    k (Cursor (rev pre ++ behind c) rest (group1 c)) = Some c'.
Proof.
  simpl. intros Hrun.
  apply rep_inv in Hrun as (pre & rest & ? & ? & ? & _ & ?). eauto 10.
Qed.

(** A match of [ORDER_RE] is a run of 6 to 14 digits at the head of the
    text ahead, and group 1 is the whole match. *)
Lemma match_at_ORDER_RE_inv bh ah m :
  match_at ORDER_RE bh ah = Some m ->
  exists pre rest, ah = pre ++ rest /\ digits_6_14 pre /\ m = Match pre (Some pre).
Proof.
  unfold match_at, ORDER_RE.
  destruct (run _ _ Some) as [c1|] eqn:Hrun; [|done].
  intros [= <-].
  change (run (Seq Boundary (Seq (Group DIGITS_6_14) Boundary)) (Cursor bh ah None) Some)
    with (if at_boundary bh ah
          then run (Group DIGITS_6_14) (Cursor bh ah None)
                 (fun c' => run Boundary c' Some)
          else None) in Hrun.
  destruct (at_boundary bh ah); [|done].
  apply run_group_digits in Hrun as (pre & rest & Hah & Hd & Hk).
  simpl in *. subst ah.
  destruct (at_boundary _ rest); [|done].
  inversion Hk; subst c1. simpl.
  exists pre, rest. by rewrite span_app.
Qed.

(** Group 1 of a match of the subject pattern is 6 to 14 digits. *)
Lemma match_at_SUBJECT_ORDER_RE_inv bh ah m :
  match_at SUBJECT_ORDER_RE bh ah = Some m ->
  exists pre, digits_6_14 pre /\ group_1 m = Some pre.
Proof.
  unfold match_at, SUBJECT_ORDER_RE.
  destruct (run _ _ Some) as [c1|] eqn:Hrun; [|done].
  intros [= <-]. simpl group_1.
  cbn [ci_literal lit list_ascii_of_string map] in Hrun.
  do 5 (rewrite run_seq in Hrun;
        apply run_chr_inv in Hrun as (? & ? & _ & _ & Hrun); cbv beta in Hrun).
  rewrite run_seq in Hrun.
  apply run_rep_inv in Hrun as (? & ? & _ & _ & _ & Hrun); cbv beta in Hrun.
  rewrite run_seq in Hrun.
  apply run_chr_inv in Hrun as (? & ? & _ & _ & Hrun); cbv beta in Hrun.
  rewrite run_seq in Hrun.
  apply run_rep_inv in Hrun as (? & ? & _ & _ & _ & Hrun); cbv beta in Hrun.
  apply run_group_digits in Hrun as (pre & rest & _ & Hd & Hk).
  inversion Hk; subst c1. eauto.
Qed.

Lemma valid_order_numbers_sound text o :
  o ∈ valid_order_numbers_from_text text -> digits_6_14 o.
Proof.
  unfold valid_order_numbers_from_text.
  destruct text as [|x text]; [by intros ?%elem_of_nil|].
  rewrite elem_of_elements, elem_of_list_to_set, list_elem_of_fmap.
  intros (m & -> & Hm).
  apply finditer_from_match_at in Hm as (bh & ah & Hat).
  apply match_at_ORDER_RE_inv in Hat as (pre & rest & _ & Hd & ->).
  done.
Qed.

Lemma subject_orders_sound (acc : gset str) ms o :
  (forall m, m ∈ ms -> exists pre, digits_6_14 pre /\ group_1 m = Some pre) ->
  (forall o, o ∈ acc -> digits_6_14 o) ->
  o ∈ foldl (fun acc m => {[ group m ]} ∪ acc) acc ms -> digits_6_14 o.
Proof.
  revert acc. induction ms as [|m ms IH]; intros acc Hms Hacc; simpl.
  - apply Hacc.
  - apply IH.
    + intros m' Hm'. apply Hms. by right.
    + intros o'. rewrite elem_of_union, elem_of_singleton.
      intros [->|?]; [|by apply Hacc].
      destruct (Hms m) as (pre & Hd & Hg); [by left|].
      unfold group. by rewrite Hg.
Qed.

(** Whatever [extract_orders] returns is 6 to 14 digits long. *)
Lemma extract_orders_sound subject html plain o :
  o ∈ extract_orders subject html plain -> digits_6_14 o.
Proof.
  unfold extract_orders. rewrite elem_of_elements.
  set (from_subject := match subject with [] => _ | _ => _ end).
  set (from_html := match html with [] => _ | _ => _ end).
  assert (Hs : forall o, o ∈ from_subject -> digits_6_14 o).
  { subst from_subject. destruct subject as [|x subject]; [set_solver|].
    intros o'. rewrite elem_of_union, elem_of_list_to_set.
    intros [Ho|Ho]; [|by eapply valid_order_numbers_sound].
    eapply subject_orders_sound; [| |exact Ho]; [|set_solver].
    intros m Hm. apply finditer_from_match_at in Hm as (bh & ah & Hat).
    by eapply match_at_SUBJECT_ORDER_RE_inv. }
  assert (Hh : forall o, o ∈ from_html -> digits_6_14 o).
  { subst from_html. destruct html as [|x html]; [done|].
    intros o'. rewrite elem_of_union, elem_of_list_to_set.
    intros [Ho|Ho]; [auto|by eapply valid_order_numbers_sound]. }
  destruct plain as [|x plain]; [auto|].
  rewrite elem_of_union, elem_of_list_to_set.
  intros [Ho|Ho]; [auto|by eapply valid_order_numbers_sound].
Qed.

Lemma ascii_digit_decimal c : is_ascii_digit c = true -> isdecimal c = true.
Proof.
  unfold is_ascii_digit, isdecimal, Nd_blocks. intros Hc. cbn [existsb].
  change (0x30 + 9) with 0x39. by rewrite Hc.
Qed.

Lemma isdecimal_word c : isdecimal c = true -> is_word c = true.
Proof. unfold is_word. by intros ->. Qed.

Lemma not_word_not_decimal (o : option N) :
  from_option is_word false o = false -> from_option isdecimal false o = false.
Proof.
  destruct o as [c|]; simpl; [|done].
  destruct (isdecimal c) eqn:Hd; [|done].
  by rewrite (isdecimal_word _ Hd).
Qed.

(** A standalone run of 6 to 14 digits is the match of [ORDER_RE] at its
    first character. *)
Lemma match_at_ORDER_RE_token bh tok post :
  digits_6_14 tok ->
  from_option is_word false (head bh) = false ->
  from_option is_word false (head post) = false ->
  match_at ORDER_RE bh (tok ++ post) = Some (Match tok (Some tok)).
Proof.
  intros [Hall [Hlo Hhi]] Hbh Hpost.
  assert (Hfirst : from_option is_word false (head (tok ++ post)) = true).
  { destruct tok as [|d tok]; [simpl in Hlo; lia|].
    inversion Hall; subst. simpl. by apply isdecimal_word. }
  assert (Hlast : from_option is_word false (head (rev tok ++ bh)) = true).
  { destruct tok as [|d tok] using rev_ind; [simpl in Hlo; lia|].
    rewrite rev_app_distr. simpl.
    apply Forall_app in Hall as [_ Hd]. inversion Hd; subst.
    by apply isdecimal_word. }
  unfold match_at, ORDER_RE, DIGITS_6_14.
  rewrite run_seq. cbn [run behind ahead group1].
  unfold at_boundary at 1. rewrite Hbh, Hfirst. cbn [xorb].
  rewrite (rep_greedy _ _ _ _ tok post None _
             (Cursor (rev tok ++ bh) post (Some tok))); auto.
  - cbn [ahead group1]. by rewrite span_app.
  - left. by apply not_word_not_decimal.
  - intros h [= <-]. done.
  - cbn [behind ahead group1]. rewrite span_app.
    unfold at_boundary. by rewrite Hlast, Hpost.
Qed.

Lemma match_at_ORDER_RE_prefix bh l z rest m :
  isdecimal z = false ->
  match_at ORDER_RE bh (l ++ z :: rest) = Some m ->
  (length (group0 m) <= length l)%nat.
Proof.
  intros Hz Hat.
  apply match_at_ORDER_RE_inv in Hat as (pre & rest' & Heq & [Hall _] & ->).
  simpl. destruct (decide (length pre <= length l)%nat) as [|Hgt]; [done|].
  exfalso.
  assert (Hin : pre !! length l = Some z).
  { assert (Hl : (l ++ z :: rest) !! length l = Some z)
      by (rewrite lookup_app_r, Nat.sub_diag by lia; done).
    rewrite Heq, lookup_app_l in Hl by lia. done. }
  rewrite Forall_lookup in Hall. specialize (Hall _ _ Hin). congruence.
Qed.

Lemma finditer_from_cons r bh x ah skip :
  finditer_from r bh (x :: ah) skip =
  match skip, match_at r bh (x :: ah) with
  | O, Some m => m :: finditer_from r (x :: bh) ah (pred (length (group0 m)))
  | _, _ => finditer_from r (x :: bh) ah (pred skip)
  end.
Proof. reflexivity. Qed.

(** The scan loses nothing behind a character that is no digit: a match
    before it ends before it. *)
Lemma finditer_ORDER_RE_resume pre z rest bh skip m :
  isdecimal z = false ->
  (skip <= length pre)%nat ->
  m ∈ finditer_from ORDER_RE (z :: rev pre ++ bh) rest O ->
  m ∈ finditer_from ORDER_RE bh (pre ++ z :: rest) skip.
Proof.
  intros Hz. revert bh skip.
  induction pre as [|x pre IH]; intros bh skip Hskip Hm.
  - simpl in Hskip. assert (skip = O) as -> by lia.
    simpl app. rewrite finditer_from_cons.
    destruct (match_at ORDER_RE bh (z :: rest)) as [m'|] eqn:Hat; [|done].
    apply (match_at_ORDER_RE_prefix bh [] z rest) in Hat; [|done].
    simpl in Hat. right. replace (length (group0 m')) with O by lia. done.
  - simpl rev in Hm. rewrite <- app_assoc in Hm. simpl in Hm.
    change ((x :: pre) ++ z :: rest) with (x :: (pre ++ z :: rest)).
    rewrite finditer_from_cons. simpl in Hskip.
    destruct skip as [|n].
    + destruct (match_at ORDER_RE bh (x :: pre ++ z :: rest)) as [m'|] eqn:Hat.
      * right. apply IH; [|done].
        apply (match_at_ORDER_RE_prefix bh (x :: pre) z rest) in Hat; [|done].
        simpl in Hat. lia.
      * apply IH; [simpl; lia|done].
    + destruct (match_at ORDER_RE bh (x :: pre ++ z :: rest));
        apply IH; simpl; auto with lia.
Qed.

(** [finditer] finds every standalone run of 6 to 14 digits. *)
Lemma finditer_ORDER_RE_token pre tok post :
  digits_6_14 tok -> word_bounded pre post ->
  Match tok (Some tok) ∈ finditer ORDER_RE (pre ++ tok ++ post).
Proof.
  intros Hd [Hpre Hpost]. unfold finditer.
  assert (Hhere : forall bh,
    from_option is_word false (head bh) = false ->
    Match tok (Some tok) ∈ finditer_from ORDER_RE bh (tok ++ post) O).
  { intros bh Hbh.
    pose proof (match_at_ORDER_RE_token bh tok post Hd Hbh Hpost) as Hat.
    destruct Hd as [_ [Hlo _]].
    destruct tok as [|d tok]; [simpl in Hlo; lia|].
    change ((d :: tok) ++ post) with (d :: (tok ++ post)) in *.
    rewrite finditer_from_cons, Hat. by left. }
  destruct pre as [|z pre _] using rev_ind.
  - by apply Hhere.
  - rewrite last_snoc in Hpre. simpl in Hpre.
    rewrite <- app_assoc. simpl.
    apply finditer_ORDER_RE_resume.
    + by apply (not_word_not_decimal (Some z)).
    + lia.
    + by apply Hhere.
Qed.

Lemma valid_order_numbers_complete pre tok post :
  digits_6_14 tok -> word_bounded pre post ->
  tok ∈ valid_order_numbers_from_text (pre ++ tok ++ post).
Proof.
  intros Hd Hb. unfold valid_order_numbers_from_text.
  destruct (pre ++ tok ++ post) as [|x text] eqn:Htext.
  - destruct Hd as [_ [Hlo _]].
    apply (f_equal length) in Htext. rewrite !length_app in Htext.
    simpl in Htext. lia.
  - rewrite <- Htext.
    rewrite elem_of_elements, elem_of_list_to_set, list_elem_of_fmap.
    exists (Match tok (Some tok)). split; [done|].
    by apply finditer_ORDER_RE_token.
Qed.

Lemma extract_orders_subject subject html plain o :
  o ∈ valid_order_numbers_from_text subject ->
  o ∈ extract_orders subject html plain.
Proof.
  intros Ho. unfold extract_orders. rewrite elem_of_elements.
  destruct subject as [|x subject]; [by apply elem_of_nil in Ho|].
  assert (o ∈ (list_to_set (valid_order_numbers_from_text (x :: subject))
               : gset (list N))) by by apply elem_of_list_to_set.
  destruct html, plain; rewrite ?elem_of_union; tauto.
Qed.

Lemma extract_orders_plain subject html plain o :
  o ∈ valid_order_numbers_from_text plain ->
  o ∈ extract_orders subject html plain.
Proof.
  intros Ho. unfold extract_orders. rewrite elem_of_elements.
  destruct plain as [|x plain]; [by apply elem_of_nil in Ho|].
  apply elem_of_union_r. by apply elem_of_list_to_set.
Qed.

(** The strict pattern accepts every string of 6 to 14 digits. *)
Lemma fullmatch_digits o : digits_6_14 o -> fullmatch DIGITS_6_14 o = true.
Proof.
  intros [Hall [Hlo Hhi]]. unfold fullmatch, DIGITS_6_14.
  apply bool_decide_eq_true. cbn [run behind ahead group1].
  rewrite <- (app_nil_r o) at 1.
  rewrite (rep_greedy _ _ _ _ o [] None _ (Cursor (rev o ++ []) [] None)); auto.
  intros h [= <-]. done.
Qed.

End Orders.

(** C5. The Order Extractor never emits a digit run shorter than 6 or
    longer than 14: every candidate of [extract_orders] is 6 to 14 digits
    long. And it emits every run of 6 to 14 digits that stands in the
    subject or in the plain text as a token of its own, with no word
    character next to it on either side. The digits are those of the
    class [\d], the ASCII digits among them. *)
Theorem order_extractor_digit_runs `{UCD} `{HtmlParser}
    (subject html plain : str) :
  (forall o, o ∈ extract_orders subject html plain -> digits_6_14 o) /\
  (forall pre tok post,
     digits_6_14 tok -> word_bounded pre post ->
     subject = pre ++ tok ++ post \/ plain = pre ++ tok ++ post ->
     tok ∈ extract_orders subject html plain) /\
  (forall o, ascii_digits_6_14 o -> digits_6_14 o).
Proof.
  split; [|split].
  - intros o. apply extract_orders_sound.
  - intros pre tok post Hd Hb [-> | ->].
    + apply extract_orders_subject. by apply valid_order_numbers_complete.
    + apply extract_orders_plain. by apply valid_order_numbers_complete.
  - intros o [Hall Hlen]. split; [|done].
    eapply Forall_impl; [exact Hall|]. apply ascii_digit_decimal.
Qed.

Lemma order_extractor_digit_runs_witness :
  digits_6_14 (lit "1234567") /\
  @word_bounded ascii_ucd (lit "ref ") (lit " ok") /\
  lit "1234567" ∈
    @extract_orders ascii_ucd (parser_of (Text [])) (lit "ref 1234567 ok") [] [] /\
  (lit "1234567" ∈
     @extract_orders ascii_ucd (parser_of (Text [])) (lit "ref 1234567 ok") [] [] ->
   digits_6_14 (lit "1234567")).
Proof.
  assert (Hd : digits_6_14 (lit "1234567")).
  { split; [repeat constructor | simpl; lia]. }
  assert (Hb : @word_bounded ascii_ucd (lit "ref ") (lit " ok")).
  { split; reflexivity. }
  pose proof (@order_extractor_digit_runs ascii_ucd (parser_of (Text []))
                (lit "ref 1234567 ok") [] []) as (Hsound & Hcomplete & _).
  split; [exact Hd|]. split; [exact Hb|]. split; [|apply Hsound].
  apply (Hcomplete (lit "ref ") (lit "1234567") (lit " ok") Hd Hb).
  left. reflexivity.
Defined.

(** C9, as amended. Every string returned by the Order Extractor
    consists of 6 to 14 decimal digits in the sense of the class [\d]
    (any Unicode decimal digit, not only the ASCII ones); the strict
    pattern of the Pair Filter uses the same class, so validating the
    candidate set again removes no element. *)
Theorem order_revalidation_identity `{UCD} `{HtmlParser}
    (subject html plain : str) :
  (forall o, o ∈ extract_orders subject html plain -> digits_6_14 o) /\
  filter (fun o => fullmatch DIGITS_6_14 o = true)
    (list_to_set (extract_orders subject html plain) : gset str)
  = list_to_set (extract_orders subject html plain).
Proof.
  split; [intros o; apply extract_orders_sound|].
  apply set_eq. intros o.
  rewrite elem_of_filter, elem_of_list_to_set.
  split; [tauto|]. intros Ho. split; [|done].
  by apply fullmatch_digits, (extract_orders_sound subject html plain).
Qed.

Lemma order_revalidation_identity_witness :
  lit "12345678" ∈
    @extract_orders ascii_ucd (parser_of (Text [])) (lit "Order #12345678") [] [] /\
  digits_6_14 (lit "12345678").
Proof.
  assert (Hin : lit "12345678" ∈
    @extract_orders ascii_ucd (parser_of (Text [])) (lit "Order #12345678") [] []).
  { vm_compute. left. }
  split; [exact Hin|].
  exact (proj1 (@order_revalidation_identity ascii_ucd (parser_of (Text []))
                  (lit "Order #12345678") [] []) _ Hin).
Defined.

(** C9 as stated fails: six Arabic-Indic digits in the subject are
    returned as an order number, and they are no ASCII digits. *)
Lemma order_not_ascii_counterexample :
  @extract_orders ascii_ucd (parser_of (Text []))
    [0x661; 0x662; 0x663; 0x664; 0x665; 0x666] [] []
  = [[0x661; 0x662; 0x663; 0x664; 0x665; 0x666]] /\
  ~ ascii_digits_6_14 [0x661; 0x662; 0x663; 0x664; 0x665; 0x666].
Proof.
  split; [by vm_compute|].
  intros [Hall _]. inversion Hall as [|? ? Hc _]. discriminate Hc.
Qed.

(** ** Buyer emails *)

Section EmailProps.
Context `{UCD} `{HtmlParser}.

(** The shape [EMAIL_REGEX] describes: local part, [@], domain, a dot
    and a top-level name of two letters or more. *)
Lemma fullmatch_EMAIL_REGEX_inv addr :
  fullmatch EMAIL_REGEX addr = true ->
  exists l d t,
    addr = l ++ 0x40 :: d ++ 0x2E :: t /\
    Forall (fun c => local_chr c = true) l /\ (1 <= length l)%nat /\
    Forall (fun c => domain_chr c = true) d /\ (1 <= length d)%nat /\
    Forall (fun c => ci_AZ c = true) t /\ (2 <= length t)%nat.
Proof.
  unfold fullmatch, EMAIL_REGEX. intros Hfm.
  apply bool_decide_eq_true in Hfm as [c Hrun].
  rewrite run_seq in Hrun.
  apply run_rep_inv in Hrun as (l & r1 & Hl & Hall_l & Hlen_l & Hrun).
  cbv beta in Hrun. rewrite run_seq in Hrun.
  apply run_chr_inv in Hrun as (x & r2 & Hr1 & Hx & Hrun).
  cbv beta in Hrun. rewrite run_seq in Hrun.
  apply run_rep_inv in Hrun as (d & r3 & Hd & Hall_d & Hlen_d & Hrun).
  cbv beta in Hrun. rewrite run_seq in Hrun.
  apply run_chr_inv in Hrun as (y & r4 & Hr3 & Hy & Hrun).
  cbv beta in Hrun.
  apply run_rep_inv in Hrun as (t & r5 & Ht & Hall_t & Hlen_t & Hrun).
  apply N.eqb_eq in Hx, Hy.
  simpl in Hl, Hr1, Hd, Hr3, Ht, Hrun. destruct r5; [|done]. subst.
  exists l, d, t. rewrite app_nil_r. auto 10.
Qed.

Lemma ci_AZ_not_dot x : ci_AZ x = true -> (0x2E =? x) = false.
Proof.
  intros Hx. apply N.eqb_neq. intros <-. by vm_compute in Hx.
Qed.

(** At the first character of an address the pattern matches the whole
    address: the local part stops at the [@], the domain backs off to
    the last dot. *)
Lemma match_at_EMAIL_REGEX_whole bh l d t :
  Forall (fun c => local_chr c = true) l -> (1 <= length l)%nat ->
  Forall (fun c => domain_chr c = true) d -> (1 <= length d)%nat ->
  Forall (fun c => ci_AZ c = true) t -> (2 <= length t)%nat ->
  match_at EMAIL_REGEX bh (l ++ 0x40 :: d ++ 0x2E :: t)
  = Some (Match (l ++ 0x40 :: d ++ 0x2E :: t) None).
Proof.
  intros Hall_l Hlen_l Hall_d Hlen_d Hall_t Hlen_t.
  unfold match_at, EMAIL_REGEX.
  set (c1 := Cursor (rev t ++ 0x2E :: rev d ++ 0x40 :: rev l ++ bh) [] None).
  assert (Hrun : run
    (Seq (Rep local_chr 1 None)
       (Seq (Chr (N.eqb 0x40))
          (Seq (Rep domain_chr 1 None) (Seq (Chr (N.eqb 0x2E)) (Rep ci_AZ 2 None)))))
    (Cursor bh (l ++ 0x40 :: d ++ 0x2E :: t) None) Some = Some c1).
  { cbn [run behind ahead group1].
    apply rep_greedy; [done|by left|done|done|].
    cbn [behind ahead group1]. rewrite N.eqb_refl.
    replace (d ++ 0x2E :: t) with (d ++ (0x2E :: t) ++ [])
      by (by rewrite app_nil_r).
    apply rep_backtrack; [done|done|done| |].
    - rewrite app_nil_r. cbn [behind ahead group1]. rewrite N.eqb_refl.
      rewrite <- (app_nil_r t) at 1.
      apply rep_greedy; [done|by left|done|done|].
      done.
    - intros j [Hj1 Hj2]. rewrite app_nil_r.
      destruct j as [|j]; [lia|]. simpl drop.
      cbn [behind ahead group1].
      destruct (drop j t) as [|x r] eqn:Hdrop; [done|].
      assert (Hx : ci_AZ x = true).
      { rewrite Forall_forall in Hall_t. apply Hall_t.
        apply (subseteq_drop j t). rewrite Hdrop. by left. }
      by rewrite (ci_AZ_not_dot _ Hx). }
  rewrite Hrun. unfold span, c1. simpl.
  by rewrite Nat.sub_0_r, firstn_all.
Qed.

Lemma search_from_here r bh ah m :
  match_at r bh ah = Some m -> search_from r bh ah = Some m.
Proof. intros Hat. destruct ah; simpl; by rewrite Hat. Qed.

(** [re.search] on an address returns the address. *)
Lemma search_EMAIL_REGEX_whole addr :
  fullmatch EMAIL_REGEX addr = true ->
  search EMAIL_REGEX addr = Some (Match addr None).
Proof.
  intros (l & d & t & -> & ? & ? & ? & ? & ? & ?)%fullmatch_EMAIL_REGEX_inv.
  by apply search_from_here, match_at_EMAIL_REGEX_whole.
Qed.

Lemma not_quote_of_class (p : N -> bool) l :
  p 0x22 = false -> Forall (fun c => p c = true) l ->
  Forall (fun c => negb (c =? 0x22) = true) l.
Proof.
  intros Hq Hl. eapply Forall_impl; [exact Hl|]. intros c Hc. simpl.
  apply negb_true_iff, N.eqb_neq. intros ->. congruence.
Qed.

(** An address holds no double quote and is not empty. *)
Lemma email_no_quote addr :
  fullmatch EMAIL_REGEX addr = true ->
  Forall (fun c => negb (c =? 0x22) = true) addr /\ (1 <= length addr)%nat.
Proof.
  intros (l & d & t & -> & Hl & ? & Hd & ? & Ht & ?)%fullmatch_EMAIL_REGEX_inv.
  split; [|rewrite length_app; lia].
  apply Forall_app. split; [by apply (not_quote_of_class local_chr)|].
  constructor; [done|].
  apply Forall_app. split; [by apply (not_quote_of_class domain_chr)|].
  constructor; [done|]. by apply (not_quote_of_class ci_AZ).
Qed.

(** In a link target that is [mailto:] and an address, group 1 of the
    [mailto:] pattern is the address. *)
Lemma search_MAILTO_RE addr :
  fullmatch EMAIL_REGEX addr = true ->
  exists m, search MAILTO_RE (lit "mailto:" ++ addr) = Some m /\ group m = addr.
Proof.
  intros [Hq Hlen]%email_no_quote.
  exists (Match (lit "mailto:" ++ addr) (Some addr)). split; [|done].
  apply search_from_here. unfold match_at, MAILTO_RE.
  set (c1 := Cursor (rev addr ++ rev (lit "mailto:")) [] (Some addr)).
  assert (Hrun : run
    (ci_literal (lit "mailto:") (Group (Rep (fun c => negb (c =? 0x22)) 1 None)))
    (Cursor [] (lit "mailto:" ++ addr) None) Some = Some c1).
  { cbn -[rep]. rewrite <- (app_nil_r addr) at 1.
    apply rep_greedy; [done|by left|done|done|].
    unfold c1, span. cbn [ahead length]. f_equal. f_equal.
    by rewrite Nat.sub_0_r, firstn_all. }
  rewrite Hrun. unfold span, c1. cbn [ahead group1 length].
  by rewrite Nat.sub_0_r, firstn_all.
Qed.



Lemma add_mailto_address (addr : list N) (emails : gset (list N)) :
  fullmatch EMAIL_REGEX addr = true ->
  str_lower addr ∈ add_mailto (lit "mailto:" ++ addr) emails.
Proof.
  intros Haddr. unfold add_mailto, add_email.
  destruct (search_MAILTO_RE addr Haddr) as (m & -> & ->).
  rewrite (search_EMAIL_REGEX_whole _ Haddr). simpl. set_solver.
Qed.

(** A loop that only adds to the set keeps what an earlier round put
    in. *)
Lemma foldl_adds {A} (f : gset (list N) -> A -> gset (list N)) l t emails e :
  (forall acc a x, x ∈ acc -> x ∈ f acc a) ->
  t ∈ l -> (forall acc, e ∈ f acc t) ->
  e ∈ foldl f emails l.
Proof.
  intros Hmono Ht He. revert emails.
  induction l as [|a l IH]; intros emails; [by apply elem_of_nil in Ht|].
  simpl. apply elem_of_cons in Ht as [<-|Ht]; [|by apply IH].
  clear IH. generalize (He emails). generalize (f emails t).
  induction l as [|b l IH]; intros acc Hacc; simpl; [done|].
  apply IH. by apply Hmono.
Qed.


End EmailProps.

(** ** The main loop *)

Section Invariants.
Context {A : Type}.
Variable J : list (list N * list N) -> list row -> gset (list N * list N) -> Prop.

Lemma preserves_ret (a : A) : preserves J (ret a).
Proof. by intros s. Qed.

Lemma preserves_raise (e : exn) : preserves J (raise e : M A).
Proof. by intros s. Qed.

Lemma preserves_unfinished : preserves J (unfinished : M A).
Proof. by intros s. Qed.

Lemma preserves_lift (r : result A) : preserves J (lift r).
Proof. destruct r; [apply preserves_ret|apply preserves_raise]. Qed.

Lemma preserves_try_except (body : M A) handler :
  preserves J body ->
  (forall e h, handler e = Some h -> preserves J h) ->
  preserves J (try_except body handler).
Proof.
  intros Hbody Hh s Hs. unfold try_except.
  specialize (Hbody s Hs).
  destruct (body s) as [[a|e|] s']; simpl in *; [done| |done].
  destruct (handler e) as [h|] eqn:He; [|done].
  by apply (Hh e h He).
Qed.

End Invariants.

Section InvariantsBind.
Context {A B : Type}.
Variable J : list (list N * list N) -> list row -> gset (list N * list N) -> Prop.

Lemma preserves_bind (m : M A) (k : A -> M B) :
  preserves J m -> (forall a, preserves J (k a)) -> preserves J (bind m k).
Proof.
  intros Hm Hk s Hs. unfold bind.
  specialize (Hm s Hs).
  destruct (m s) as [[a|e|] s']; simpl in *; [|done|done].
  by apply Hk.
Qed.

(** After a pure computation the rest runs only on what it returned. *)
Lemma preserves_bind_lift (r : result A) (k : A -> M B) :
  (forall a, r = Ok a -> preserves J (k a)) -> preserves J (bind (lift r) k).
Proof.
  intros Hk. destruct r as [a|e]; [|by intros s].
  intros s Hs. by apply (Hk a).
Qed.

(** What follows [sys.exit] in a block never runs. *)
Lemma preserves_after_exit (code : Z) (k : A -> M B) :
  preserves J (bind (sys_exit code) k).
Proof. by intros s. Qed.

End InvariantsBind.

Section InvariantsLoop.
Variable J : list (list N * list N) -> list row -> gset (list N * list N) -> Prop.

Lemma preserves_print line : preserves J (print line).
Proof. by intros s. Qed.

Lemma preserves_for_each {A} (l : list A) body :
  (forall a, a ∈ l -> preserves J (body a)) ->
  preserves J (for_each l body).
Proof.
  induction l as [|a l IH]; intros Hbody; simpl; [apply preserves_ret|].
  apply preserves_bind.
  - apply Hbody. by left.
  - intros _. apply IH. intros b Hb. apply Hbody. by right.
Qed.

Lemma preserves_for_yielded gen body :
  (forall msg_id, preserves J (body msg_id)) ->
  preserves J (for_yielded gen body).
Proof.
  intros Hbody. unfold for_yielded. apply preserves_bind.
  - by apply preserves_for_each.
  - intros _. destruct (snd gen);
      [apply preserves_ret|apply preserves_raise|apply preserves_unfinished].
Qed.

Lemma preserves_count_processed : preserves J count_processed.
Proof.
  intros s Hs. unfold count_processed.
  by destruct (_ =? _)%Z.
Qed.

Context `{UCD} `{HtmlParser}.
Variable cfg : settings.

(** A property that every recorded pair keeps is kept by the whole of
    [process_message]. *)
Lemma preserves_process_message svc msg_id :
  (forall msg f o e,
     get_message_full svc msg_id = Ok msg -> analyse cfg msg = Ok f ->
     o ∈ f_orders f -> e ∈ f_emails f ->
     preserves J (record_pair msg_id f o e)) ->
  preserves J (process_message cfg svc msg_id).
Proof.
  intros Hrec. unfold process_message. apply preserves_try_except.
  - apply preserves_bind_lift. intros f Hf.
    destruct (get_message_full svc msg_id) as [msg|] eqn:Hmsg; [|done].
    simpl in Hf.
    apply preserves_bind; [|intros _; apply preserves_count_processed].
    apply preserves_for_each. intros o Ho.
    apply preserves_for_each. intros e He.
    apply (Hrec msg); auto; by apply elem_of_elements.
  - intros e h Hh. destruct e; simpl in Hh; inversion Hh; apply preserves_print.
Qed.

(** A property that holds of the empty table and that every recorded
    pair keeps is kept by [main]. *)
Lemma preserves_main gs fuel :
  (forall fs rs sp, J fs rs sp -> J fs [] ∅) ->
  (forall svc msg_id msg f o e,
     get_message_full svc msg_id = Ok msg -> analyse cfg msg = Ok f ->
     o ∈ f_orders f -> e ∈ f_emails f ->
     preserves J (record_pair msg_id f o e)) ->
  preserves J (main cfg gs fuel).
Proof.
  intros Hinit Hrec. unfold main.
  apply preserves_bind.
  { apply preserves_try_except; [apply preserves_lift|].
    intros e h Hh. destruct (is_Exception e); inversion Hh.
    repeat (apply preserves_bind; [apply preserves_print|intros _]).
    apply preserves_raise. }
  intros svc.
  apply preserves_bind; [apply preserves_print|intros _].
  apply preserves_bind; [apply preserves_lift|intros first_list].
  apply preserves_bind.
  { destruct (resultSizeEstimate first_list);
      [apply preserves_print|apply preserves_ret]. }
  intros _.
  apply preserves_bind; [intros s Hs; simpl; eapply Hinit, Hs|intros _].
  apply preserves_bind; [|intros _; apply preserves_print].
  apply preserves_try_except.
  - apply preserves_for_yielded. intros msg_id.
    apply preserves_process_message. apply Hrec.
  - intros e h Hh. destruct e; inversion Hh.
    apply preserves_bind; [apply preserves_print|intros _].
    apply preserves_after_exit.
Qed.

End InvariantsLoop.

Section Runs.
Context `{UCD} `{HtmlParser}.
Variable cfg : settings.

Lemma record_pair_seen msg_id f o e s :
  (o, e) ∈ seen_pairs s -> record_pair msg_id f o e s = (Returns tt, s).
Proof.
  intros Hseen. unfold record_pair.
  destruct o, e; try done. by rewrite decide_True.
Qed.

Lemma record_pair_fresh msg_id f o e s :
  o <> [] -> e <> [] -> (o, e) ∉ seen_pairs s ->
  record_pair msg_id f o e s =
  (Returns tt,
   State (stdout s) (files s)
     (rows s ++ [Row msg_id (f_date f) (f_subject f) o e])
     ({[ (o, e) ]} ∪ seen_pairs s) (processed s)).
Proof.
  intros Ho He Hseen. unfold record_pair.
  destruct o, e; try done. by rewrite decide_False.
Qed.

Lemma record_pair_cases msg_id f o e s :
  record_pair msg_id f o e s = (Returns tt, s) \/
  ((o, e) ∉ seen_pairs s) /\
  record_pair msg_id f o e s =
  (Returns tt,
   State (stdout s) (files s)
     (rows s ++ [Row msg_id (f_date f) (f_subject f) o e])
     ({[ (o, e) ]} ∪ seen_pairs s) (processed s)).
Proof.
  destruct (decide ((o, e) ∈ seen_pairs s)) as [Hin|Hin].
  - left. by apply record_pair_seen.
  - destruct o as [|x o]; [by left|]. destruct e as [|y e]; [by left|].
    right. split; [done|]. by apply record_pair_fresh.
Qed.

Lemma record_pair_distinct msg_id f o e :
  preserves distinct_pairs (record_pair msg_id f o e).
Proof.
  intros s [Hnd Hseen].
  destruct (record_pair_cases msg_id f o e s) as [-> | [Hfresh ->]]; [done|].
  simpl. split.
  - rewrite fmap_app. simpl. apply NoDup_app. split; [done|]. split.
    + intros p Hp Hp'. apply list_elem_of_singleton in Hp'. subst p.
      apply list_elem_of_fmap in Hp as (r & Hr & Hin).
      apply Hfresh. specialize (Hseen r Hin). by rewrite <- Hr in Hseen.
    + apply NoDup_singleton.
  - intros r [Hr | ->%list_elem_of_singleton]%elem_of_app.
    + apply elem_of_union_r. by apply Hseen.
    + apply elem_of_union_l. by apply elem_of_singleton.
Qed.

Lemma cleaned_spec emails e :
  e ∈ cleaned cfg emails ->
  e ∈ emails /\ e <> [] /\
  (EXCLUDE_ETSY_DOMAIN cfg = true -> endswith e ETSY_SUFFIX = false).
Proof.
  induction emails as [|x emails IH]; simpl; [by intros ?%elem_of_nil|].
  assert (Hrest : e ∈ cleaned cfg emails ->
    e ∈ x :: emails /\ e <> [] /\
    (EXCLUDE_ETSY_DOMAIN cfg = true -> endswith e ETSY_SUFFIX = false)).
  { intros (? & ? & ?)%IH. split; [by right|done]. }
  destruct x as [|c x]; [done|].
  destruct (EXCLUDE_ETSY_DOMAIN cfg && endswith (c :: x) ETSY_SUFFIX) eqn:Hex;
    [done|].
  intros [-> | He]%elem_of_cons; [|auto].
  split; [by left|]. split; [done|].
  intros Hon. by rewrite Hon in Hex.
Qed.

Lemma filter_buyer_emails_spec emails e :
  e ∈ filter_buyer_emails cfg emails ->
  e ∈ emails /\ e <> [] /\
  (EXCLUDE_ETSY_DOMAIN cfg = true -> endswith e ETSY_SUFFIX = false).
Proof.
  unfold filter_buyer_emails.
  rewrite elem_of_elements, elem_of_list_to_set. apply cleaned_spec.
Qed.

Lemma record_pair_off_domain msg_id f o e :
  endswith e ETSY_SUFFIX = false ->
  preserves off_domain (record_pair msg_id f o e).
Proof.
  intros He s Hs.
  destruct (record_pair_cases msg_id f o e s) as [-> | [_ ->]]; [done|].
  simpl. intros r [Hr | ->%list_elem_of_singleton]%elem_of_app; [by apply Hs|done].
Qed.

Lemma analyse_emails msg f e :
  analyse cfg msg = Ok f -> e ∈ f_emails f ->
  exists g, gather msg = Ok g /\
    e ∈ filter_buyer_emails cfg (elements (f_emails g)).
Proof.
  unfold analyse. destruct (gather msg) as [g|]; [|done].
  simpl. intros [= <-]. simpl. rewrite elem_of_list_to_set. eauto.
Qed.

(** A message all of whose candidates are on the excluded domain leaves
    the rows as they are. *)
Lemma process_message_all_excluded svc msg_id msg g s :
  EXCLUDE_ETSY_DOMAIN cfg = true ->
  get_message_full svc msg_id = Ok msg ->
  gather msg = Ok g ->
  (forall e, e ∈ f_emails g -> endswith e ETSY_SUFFIX = true) ->
  rows (snd (process_message cfg svc msg_id s)) = rows s.
Proof.
  intros Hon Hmsg Hg Hall.
  apply (preserves_process_message (fun _ rs _ => rs = rows s) cfg svc msg_id);
    [|done].
  intros msg' f o e Hmsg' Hf _ He. exfalso.
  rewrite Hmsg in Hmsg'. injection Hmsg' as <-.
  destruct (analyse_emails _ _ _ Hf He) as (g' & Hg' & Hin).
  rewrite Hg in Hg'. injection Hg' as <-.
  apply filter_buyer_emails_spec in Hin as (Hin & _ & Hoff).
  apply elem_of_elements in Hin. rewrite (Hall _ Hin) in Hoff. by specialize (Hoff Hon).
Qed.

End Runs.

(** C1, where the code departs from it. A run that lists and processes
    its messages without a listing error should write the table once,
    after the loop. In [main] the block that writes it stands in the
    [except HttpError] clause behind [sys.exit(2)]: no run reaches it,
    and the set of files written is the same after [main] as before.
    The example run ends normally with one accepted row and no file. *)
Theorem output_table_never_written :
  (forall (U : UCD) (P : HtmlParser) cfg gs fuel s,
     files (snd (main cfg gs fuel s)) = files s) /\
  (let r := @main ascii_ucd (parser_of example_doc) default_settings
              (Ok example_service) 1 start in
   fst r = Returns tt /\
   pair_of <$> rows (snd r) = [(lit "12345678", lit "jane@example.com")] /\
   files (snd r) = []).
Proof.
  split.
  - intros U P cfg gs fuel s.
    apply (preserves_main (fun fs _ _ => fs = files s)); [done| |done].
    intros svc msg_id msg f o e _ _ _ _ s' Hs'.
    by destruct (record_pair_cases msg_id f o e s') as [-> | [_ ->]].
  - by vm_compute.
Qed.

(** C7. With domain exclusion on, no accepted row has a buyer_email that
    ends with the suffix of the excluded domain; and a message whose
    extracted email candidates are all on that domain adds no row. *)
Theorem excluded_domain_never_emitted `{UCD} `{HtmlParser} (cfg : settings) :
  EXCLUDE_ETSY_DOMAIN cfg = true ->
  (forall gs fuel r,
     r ∈ rows (snd (main cfg gs fuel start)) ->
     endswith (buyer_email r) ETSY_SUFFIX = false) /\
  (forall svc msg_id msg g s,
     get_message_full svc msg_id = Ok msg ->
     gather msg = Ok g ->
     (forall e, e ∈ f_emails g -> endswith e ETSY_SUFFIX = true) ->
     rows (snd (process_message cfg svc msg_id s)) = rows s).
Proof.
  intros Hon. split.
  - intros gs fuel.
    apply (preserves_main off_domain cfg gs fuel).
    + by intros fs rs sp _ r ?%elem_of_nil.
    + intros svc msg_id msg f o e _ Hf _ He.
      apply record_pair_off_domain.
      destruct (analyse_emails cfg _ _ _ Hf He) as (g & _ & Hin).
      apply filter_buyer_emails_spec in Hin as (_ & _ & Hoff). by apply Hoff.
    + by intros r ?%elem_of_nil.
  - intros svc msg_id msg g s. by apply process_message_all_excluded.
Qed.

Lemma excluded_domain_never_emitted_witness :
  EXCLUDE_ETSY_DOMAIN default_settings = true /\
  @gather ascii_ucd (parser_of support_doc) example_message
    = Ok (Findings (lit "Your Etsy order [Order #12345678] has shipped") []
            {[ lit "12345678" ]} {[ lit "support@etsy.com" ]} [FromHtml]) /\
  rows (snd (@process_message ascii_ucd (parser_of support_doc) default_settings
               example_service (lit "m1") start)) = [] /\
  (forall r,
     r ∈ rows (snd (@main ascii_ucd (parser_of example_doc) default_settings
                      (Ok example_service) 1 start)) ->
     endswith (buyer_email r) ETSY_SUFFIX = false).
Proof.
  assert (Hon : EXCLUDE_ETSY_DOMAIN default_settings = true) by reflexivity.
  assert (Hg : @gather ascii_ucd (parser_of support_doc) example_message
    = Ok (Findings (lit "Your Etsy order [Order #12345678] has shipped") []
            {[ lit "12345678" ]} {[ lit "support@etsy.com" ]} [FromHtml])).
  { vm_compute. reflexivity. }
  destruct (@excluded_domain_never_emitted ascii_ucd (parser_of support_doc)
              default_settings Hon) as [_ Hzero].
  destruct (@excluded_domain_never_emitted ascii_ucd (parser_of example_doc)
              default_settings Hon) as [Hrows _].
  split; [exact Hon|]. split; [exact Hg|]. split.
  - apply (Hzero example_service (lit "m1") example_message _ start eq_refl Hg).
    intros e He. simpl in He. apply elem_of_singleton in He. subst e. reflexivity.
  - apply Hrows.
Defined.

(** ** The email sources of a message *)

Lemma list_to_set_empty_iff (l : list (list N)) :
  (list_to_set l : gset (list N)) = ∅ <-> l = [].
Proof.
  split; [|by intros ->].
  destruct l as [|x l]; [done|]. intros Hempty.
  assert (Hx : x ∈ (list_to_set (x :: l) : gset (list N)))
    by (apply elem_of_list_to_set; by left).
  rewrite Hempty in Hx. by apply not_elem_of_empty in Hx.
Qed.

(** C6. For a message whose HTML yields at least one email candidate
    the plain-text extractor is not consulted: the candidates are those
    of the HTML alone. The plain text is consulted exactly when the HTML
    yields none. The same holds of what [main] gathers for a message. *)
Theorem plaintext_only_without_html_emails `{UCD} `{HtmlParser}
    (html plain : str) :
  (extract_emails_from_html html <> [] ->
   candidate_emails html plain
     = (list_to_set (extract_emails_from_html html), [FromHtml])) /\
  (extract_emails_from_html html = [] ->
   candidate_emails html plain
     = (list_to_set (extract_emails_from_text plain), [FromHtml; FromPlain])) /\
  (forall msg parts g,
     iter_payload_parts (msg_payload msg) = Ok parts ->
     html = join [0x0A] (fst (chunks parts)) ->
     extract_emails_from_html html <> [] ->
     gather msg = Ok g ->
     (FromPlain ∉ consulted g) /\
     f_emails g = list_to_set (extract_emails_from_html html)).
Proof.
  assert (Hyes : extract_emails_from_html html <> [] ->
    forall plain', candidate_emails html plain'
      = (list_to_set (extract_emails_from_html html), [FromHtml])).
  { intros Hne plain'. unfold candidate_emails.
    destruct (decide _) as [Hempty|]; [|done].
    by apply list_to_set_empty_iff in Hempty. }
  split; [intros Hne; by apply Hyes|]. split.
  - intros Hnil. unfold candidate_emails. rewrite Hnil. simpl.
    rewrite decide_True by done. by rewrite (left_id_L ∅ (∪)).
  - intros msg parts g Hparts -> Hne. unfold gather. rewrite Hparts. simpl.
    destruct (chunks parts) as [html_chunks text_chunks]. simpl in *.
    rewrite (Hyes Hne). intros [= <-]. simpl. split; [|done].
    by intros ?%list_elem_of_singleton.
Qed.

Lemma plaintext_only_without_html_emails_witness :
  @extract_emails_from_html ascii_ucd (parser_of example_doc) (lit "<a>") <> [] /\
  @candidate_emails ascii_ucd (parser_of example_doc) (lit "<a>")
      (lit "write to someone@example.org")
    = ({[ lit "jane@example.com" ]}, [FromHtml]) /\
  @extract_emails_from_html ascii_ucd (parser_of example_doc) [] = [] /\
  @candidate_emails ascii_ucd (parser_of example_doc) []
      (lit "write to someone@example.org")
    = ({[ lit "someone@example.org" ]}, [FromHtml; FromPlain]).
Proof.
  assert (Hne : @extract_emails_from_html ascii_ucd (parser_of example_doc)
                  (lit "<a>") <> []) by (vm_compute; discriminate).
  assert (Hnil : @extract_emails_from_html ascii_ucd (parser_of example_doc) []
                 = []) by reflexivity.
  split; [exact Hne|]. split; [|split; [exact Hnil|]].
  - rewrite (proj1 (@plaintext_only_without_html_emails ascii_ucd
               (parser_of example_doc) (lit "<a>")
               (lit "write to someone@example.org")) Hne).
    vm_compute. reflexivity.
  - rewrite (proj1 (proj2 (@plaintext_only_without_html_emails ascii_ucd
               (parser_of example_doc) []
               (lit "write to someone@example.org"))) Hnil).
    vm_compute. reflexivity.
Defined.

(** ** The cap on listed ids *)

Section Cap.
Variable cfg : settings.
Variable svc : service.
Variable query : list N.

Lemma page_ids_capped (n : Z) ms seen :
  MAX_MESSAGES cfg = Some n -> (0 <= seen < n)%Z ->
  (snd (fst (page_ids cfg ms seen))
     = seen + Z.of_nat (length (fst (fst (page_ids cfg ms seen)))))%Z /\
  (snd (fst (page_ids cfg ms seen)) <= n)%Z /\
  (snd (page_ids cfg ms seen) = false -> (snd (fst (page_ids cfg ms seen)) < n)%Z).
Proof.
  intros Hcap. revert seen.
  induction ms as [|m ms IH]; intros seen Hseen; simpl.
  - lia.
  - unfold cap_reached. rewrite Hcap.
    destruct (negb (n =? 0)%Z && (n <=? seen + 1)%Z) eqn:Hreached; simpl.
    + split; [lia|]. split; [lia|done].
    + assert (seen + 1 < n)%Z.
      { apply andb_false_iff in Hreached as [Hz|Hle].
        - apply negb_false_iff, Z.eqb_eq in Hz. lia.
        - apply Z.leb_gt in Hle. lia. }
      specialize (IH (seen + 1)%Z ltac:(lia)).
      destruct (page_ids cfg ms (seen + 1)) as [[ids seen'] returned].
      simpl in *. destruct IH as (Hlen & Hle & Hlt).
      split; [lia|]. split; [lia|done].
Qed.

Lemma search_pages_capped (n : Z) fuel next seen :
  MAX_MESSAGES cfg = Some n -> (0 <= seen < n)%Z ->
  (Z.of_nat (length (fst (search_pages cfg svc query fuel next seen)))
     <= n - seen)%Z.
Proof.
  intros Hcap. revert next seen.
  induction fuel as [|fuel IH]; intros next seen Hseen; simpl; [lia|].
  destruct (messages_list svc query next 500) as [resp|e]; simpl; [|lia].
  pose proof (page_ids_capped n (default [] (messages resp)) seen Hcap Hseen)
    as (Hlen & Hle & Hlt).
  destruct (page_ids cfg (default [] (messages resp)) seen)
    as [[ids seen'] returned].
  simpl in *. destruct returned; simpl; [lia|].
  specialize (Hlt eq_refl).
  destruct (nextPageToken resp) as [[|c tok]|]; simpl; try lia.
  specialize (IH (Some (c :: tok)) seen' ltac:(lia)).
  destruct (search_pages cfg svc query fuel (Some (c :: tok)) seen')
    as [more fin].
  simpl in *. rewrite length_app. lia.
Qed.

Lemma page_ids_uncapped ms seen :
  (forall k, cap_reached cfg k = false) ->
  page_ids cfg ms seen = (ms, (seen + Z.of_nat (length ms))%Z, false).
Proof.
  intros Hcap. revert seen.
  induction ms as [|m ms IH]; intros seen; simpl.
  - f_equal. f_equal. lia.
  - rewrite Hcap, IH. f_equal. f_equal. lia.
Qed.

Lemma search_pages_same_cap cfg' fuel next seen :
  (forall k, cap_reached cfg k = cap_reached cfg' k) ->
  search_pages cfg svc query fuel next seen
  = search_pages cfg' svc query fuel next seen.
Proof.
  intros Hcap.
  assert (Hpage : forall ms k, page_ids cfg ms k = page_ids cfg' ms k).
  { induction ms as [|m ms IH]; intros k; simpl; [done|].
    by rewrite Hcap, IH. }
  revert next seen.
  induction fuel as [|fuel IH]; intros next seen; simpl; [done|].
  destruct (messages_list svc query next 500) as [resp|e]; [|done].
  rewrite Hpage.
  destruct (page_ids cfg' (default [] (messages resp)) seen)
    as [[ids seen'] returned].
  destruct returned; [done|].
  destruct (nextPageToken resp) as [[|c tok]|]; try done.
  by rewrite IH.
Qed.

End Cap.

Lemma cap_zero_never_reached cfg k :
  MAX_MESSAGES cfg = Some 0%Z -> cap_reached cfg k = false.
Proof. intros Hcap. unfold cap_reached. by rewrite Hcap. Qed.

(** C10. With a positive cap N the listing yields at most N ids,
    however many pages are followed. A cap of 0 is no cap: the listing
    is then the listing without a cap, and a page of any number of ids
    is yielded whole. *)
Theorem message_cap (cfg : settings) (svc : service) (query : str) (fuel : nat) :
  (forall n, MAX_MESSAGES cfg = Some n -> (0 < n)%Z ->
     (Z.of_nat (length (fst (search_message_ids cfg svc query fuel))) <= n)%Z) /\
  (MAX_MESSAGES cfg = Some 0%Z ->
     search_message_ids cfg svc query fuel
       = search_message_ids (uncapped cfg) svc query fuel /\
     forall ids get,
       search_message_ids cfg (one_page ids get) query 1 = (ids, GenDone)).
Proof.
  split.
  - intros n Hcap Hn. unfold search_message_ids.
    pose proof (search_pages_capped cfg svc query n fuel None 0%Z Hcap) as Hle.
    lia.
  - intros Hcap. split.
    + apply search_pages_same_cap. intros k.
      by rewrite (cap_zero_never_reached cfg k Hcap).
    + intros ids get. unfold search_message_ids. simpl.
      rewrite page_ids_uncapped; [done|].
      intros k. by apply cap_zero_never_reached.
Qed.

Lemma message_cap_witness :
  let ids := [lit "m1"; lit "m2"; lit "m3"] in
  let get := fun _ : list N => Ok example_message in
  MAX_MESSAGES (Settings (Some 2%Z) true []) = Some 2%Z /\
  (Z.of_nat (length (fst (search_message_ids (Settings (Some 2%Z) true [])
                            (one_page ids get) [] 3))) <= 2)%Z /\
  search_message_ids (Settings (Some 0%Z) true []) (one_page ids get) [] 1
    = (ids, GenDone).
Proof.
  intros ids get. split; [reflexivity|]. split.
  - apply (proj1 (message_cap (Settings (Some 2%Z) true []) (one_page ids get)
                    [] 3) 2%Z eq_refl).
    lia.
  - exact (proj2 (proj2 (message_cap (Settings (Some 0%Z) true [])
                           (one_page ids get) [] 1) eq_refl) ids get).
Defined.

(** ** The payload tree *)

(** A leaf with data under a multipart node is yielded by the loop over
    the parts and once more by the recursive call on it. *)
Lemma leaf_child_yielded_twice m0 d0 mime c d content :
  decode_part_data (c :: d) = Ok content ->
  iter_payload_parts
    (Payload m0 d0 (Some [Payload mime (Some (c :: d)) None]))
  = Ok [(default [] mime, content); (default [] mime, content)].
Proof.
  intros Hdec. simpl. unfold yield_own. simpl. by rewrite Hdec.
Qed.

(** C2, where the code departs from it. The flattener should yield one
    pair for every leaf that carries body data. A payload with one such
    leaf under a multipart node has one data leaf, and
    [iter_payload_parts] yields its pair twice; the same leaf as the
    whole payload is yielded once. *)
Theorem leaf_under_multipart_yielded_twice :
  let leaf := Payload (Some (lit "text/html")) (Some (lit "PGE-")) None in
  let multipart := Payload (Some (lit "multipart/alternative")) None (Some [leaf]) in
  data_leaves multipart = 1%nat /\
  iter_payload_parts multipart
    = Ok [(lit "text/html", lit "<a>"); (lit "text/html", lit "<a>")] /\
  iter_payload_parts leaf = Ok [(lit "text/html", lit "<a>")].
Proof. by vm_compute. Qed.

(** ** Decoding *)

Section Decoding.
Import Codec.

Lemma decode_utf8_bad_lead b rest :
  between 0x80 0xC1 b || (0xF5 <=? b) = true ->
  decode_utf8 (b :: rest) = REPLACEMENT :: decode_utf8 rest.
Proof.
  intros Hb. simpl. unfold between in *.
  destruct (N.ltb_spec b 0x80); [exfalso|].
  { destruct (N.leb_spec 0x80 b), (N.leb_spec 0xF5 b); simpl in Hb; try done; lia. }
  destruct (N.leb_spec 0xC2 b), (N.leb_spec b 0xDF); simpl;
    try (exfalso; destruct (N.leb_spec 0x80 b), (N.leb_spec b 0xC1),
           (N.leb_spec 0xF5 b); simpl in Hb; try done; lia).
  all: destruct (N.leb_spec 0xE0 b), (N.leb_spec b 0xEF); simpl;
    try (exfalso; destruct (N.leb_spec 0x80 b), (N.leb_spec b 0xC1),
           (N.leb_spec 0xF5 b); simpl in Hb; try done; lia).
  all: destruct (N.leb_spec 0xF0 b), (N.leb_spec b 0xF4); simpl;
    try (exfalso; destruct (N.leb_spec 0x80 b), (N.leb_spec b 0xC1),
           (N.leb_spec 0xF5 b); simpl in Hb; try done; lia).
  all: done.
Qed.

(** A byte outside the alphabet that is no padding is passed over. *)
Lemma a2b_loop_skips l1 b l2 quad_pos leftchar pads out :
  b64_value b = None -> b <> BASE64_PAD ->
  a2b_loop (l1 ++ b :: l2) quad_pos leftchar pads out
  = a2b_loop (l1 ++ l2) quad_pos leftchar pads out.
Proof.
  intros Hv Hpad. revert quad_pos leftchar pads out.
  induction l1 as [|x l1 IH]; intros quad_pos leftchar pads out; simpl.
  - apply N.eqb_neq in Hpad. by rewrite Hpad, Hv.
  - repeat case_match; auto.
Qed.

Lemma a2b_loop_raises data quad_pos leftchar pads out e :
  a2b_loop data quad_pos leftchar pads out = Raise e ->
  exists reason, e = BinasciiError reason.
Proof.
  revert quad_pos leftchar pads out.
  induction data as [|x data IH]; intros quad_pos leftchar pads out; simpl.
  - repeat case_match; intros [= <-]; eauto.
  - repeat case_match; try done; apply IH.
Qed.

(** On alphabet characters alone the loop ends well exactly when they
    fill whole groups of four. *)
Lemma a2b_loop_alphabet data quad_pos leftchar pads out :
  Forall (fun b => b <> BASE64_PAD /\ is_Some (b64_value b)) data ->
  (quad_pos < 4)%nat ->
  (exists bs, a2b_loop data quad_pos leftchar pads out = Ok bs)
  <-> ((quad_pos + length data) mod 4 = 0)%nat.
Proof.
  intros Hall. revert quad_pos leftchar pads out.
  induction Hall as [|b data [Hpad [v Hv]] _ IH];
    intros quad_pos leftchar pads out Hq.
  - destruct quad_pos as [|[|[|[|?]]]]; [| | | |lia]; simpl;
      (split; [intros [bs Hbs]; done | intros Hm; try done; eauto]).
  - cbn [a2b_loop length].
    apply N.eqb_neq in Hpad. rewrite Hpad, Hv.
    destruct quad_pos as [|[|[|[|?]]]]; [| | | |lia]; rewrite IH by lia.
    + by replace (0 + S (length data))%nat with (1 + length data)%nat by lia.
    + by replace (1 + S (length data))%nat with (2 + length data)%nat by lia.
    + by replace (2 + S (length data))%nat with (3 + length data)%nat by lia.
    + replace (3 + S (length data))%nat with (length data + 1 * 4)%nat by lia.
      by rewrite Nat.Div0.mod_add.
Qed.

Lemma urlsafe_chr_spec c :
  urlsafe_chr c = true ->
  c < 0x80 /\ urlsafe_translate c <> BASE64_PAD /\
  is_Some (b64_value (urlsafe_translate c)).
Proof.
  unfold urlsafe_chr. intros Hc%bool_decide_eq_true.
  split; [|split; [|done]].
  - destruct (N.ltb_spec c 0x80) as [|Hge]; [done|exfalso].
    destruct Hc as [v Hv]. revert Hv.
    unfold urlsafe_translate, b64_value, between.
    repeat (match goal with
            | |- context [N.eqb ?a ?b] => destruct (N.eqb_spec a b)
            | |- context [N.leb ?a ?b] => destruct (N.leb_spec a b)
            end; simpl; try lia); done.
  - intros Heq. rewrite Heq in Hc. by destruct Hc as [v Hv].
Qed.

Lemma encode_utf8_ascii data :
  Forall (fun c => c < 0x80) data -> encode_utf8 data = Ok data.
Proof.
  induction 1 as [|c data Hc _ IH]; simpl; [done|].
  unfold encode_char. apply N.ltb_lt in Hc. rewrite Hc. simpl.
  by rewrite IH.
Qed.

(** Data made of alphabet characters alone decodes exactly when its
    length is a multiple of four; otherwise [binascii.Error] is
    raised. *)
Lemma decode_part_data_alphabet data :
  Forall (fun c => urlsafe_chr c = true) data ->
  ((exists text, decode_part_data data = Ok text) <-> (length data mod 4 = 0)%nat) /\
  ((length data mod 4 <> 0)%nat ->
   exists reason, decode_part_data data = Raise (BinasciiError reason)).
Proof.
  intros Hall. unfold decode_part_data.
  rewrite encode_utf8_ascii
    by (eapply Forall_impl; [exact Hall|]; by intros c (? & _)%urlsafe_chr_spec).
  cbn [rbind]. unfold urlsafe_b64decode, a2b_base64.
  pose proof (a2b_loop_alphabet (map urlsafe_translate data) O 0 O []) as Hloop.
  rewrite length_map in Hloop. rewrite Nat.add_0_l in Hloop.
  assert (Hok : (∃ bs, a2b_loop (map urlsafe_translate data) 0 0 0 [] = Ok bs)
                <-> (length data mod 4 = 0)%nat).
  { apply Hloop; [|lia]. apply Forall_fmap.
    eapply Forall_impl; [exact Hall|]. by intros c (_ & ? & ?)%urlsafe_chr_spec. }
  destruct (a2b_loop (map urlsafe_translate data) 0 0 0 []) as [bs|e] eqn:Hres;
    cbn [rbind].
  - split; [|intros Hne; exfalso; apply Hne, Hok; eauto].
    split; [intros _; apply Hok|]; eauto.
  - destruct (a2b_loop_raises _ _ _ _ _ _ Hres) as [reason ->].
    split; [|eauto]. split; [by intros [? ?]|].
    intros [bs Hbs]%Hok. done.
Qed.

End Decoding.

(** A message whose payload fails to decode is given up with a warning:
    the inner handler prints it and the state is otherwise as before. *)
Lemma process_message_decode_error `{UCD} `{HtmlParser}
    cfg svc msg_id msg reason s :
  get_message_full svc msg_id = Ok msg ->
  iter_payload_parts (msg_payload msg) = Raise (BinasciiError reason) ->
  process_message cfg svc msg_id s
  = print (lit "[Uyari] parse edilirken hata") s.
Proof.
  intros Hmsg Hparts.
  unfold process_message, try_except, bind, lift, analyse, gather.
  by rewrite Hmsg; simpl; rewrite Hparts.
Qed.

(** ** The decoder against the encoder *)

(** A check that passes on a range of numbers holds of each of them. *)
Lemma all_from_spec (f : N -> bool) (n : nat) c d :
  all_from f n c = true -> c <= d < c + N.of_nat n -> f d = true.
Proof.
  revert c. induction n as [|n IH]; intros c Hall Hd; [lia|].
  simpl in Hall. apply andb_true_iff in Hall as [Hc Hall].
  destruct (N.eq_dec c d) as [->|Hne]; [done|].
  apply (IH (c + 1)); [done|lia].
Qed.

Section Utf8.
Import Codec.

Lemma encode_char_decodes_to c seg :
  encode_char c = Ok seg -> decodes_to seg c = true.
Proof.
  intros Henc.
  destruct (N.ltb_spec c 0x110000) as [Hc|Hc].
  - assert (Hall : all_from (fun c => match encode_char c with
                                      | Ok seg => decodes_to seg c
                                      | Raise _ => true
                                      end) (N.to_nat 0x110000) 0 = true)
      by vm_cast_no_check (eq_refl true).
    pose proof (all_from_spec _ _ 0 c Hall) as Hc'.
    rewrite N2Nat.id in Hc'. specialize (Hc' ltac:(lia)).
    cbv beta in Hc'. by rewrite Henc in Hc'.
  - exfalso. unfold encode_char in Henc.
    destruct (N.ltb_spec c 0x80); [lia|].
    destruct (N.ltb_spec c 0x800); [lia|].
    destruct (N.ltb_spec c 0x10000); [lia|].
    destruct (N.ltb_spec c 0x110000); [lia|]. done.
Qed.

Lemma is_cont_range b : is_cont b = true -> 0x80 <= b < 0x80 + N.of_nat 64.
Proof.
  unfold is_cont, between. intros [?%N.leb_le ?%N.leb_le]%andb_true_iff. lia.
Qed.

Lemma second3_cont b0 b1 : second3 b0 b1 = true -> is_cont b1 = true.
Proof.
  unfold second3, is_cont, between.
  repeat case_match; intros [?%N.leb_le ?%N.leb_le]%andb_true_iff;
    apply andb_true_iff; split; apply N.leb_le; lia.
Qed.

Lemma second4_cont b0 b1 : second4 b0 b1 = true -> is_cont b1 = true.
Proof.
  unfold second4, is_cont, between.
  repeat case_match; intros [?%N.leb_le ?%N.leb_le]%andb_true_iff;
    apply andb_true_iff; split; apply N.leb_le; lia.
Qed.

Lemma between_range lo hi b :
  between lo hi b = true -> lo <= b < lo + N.of_nat (N.to_nat (hi - lo + 1)).
Proof.
  unfold between. intros [?%N.leb_le ?%N.leb_le]%andb_true_iff.
  rewrite N2Nat.id. lia.
Qed.

Lemma encode_char_checked c seg :
  match encode_char c with
  | Ok l => startswith l seg && startswith seg l
  | Raise _ => false
  end = true ->
  encode_char c = Ok seg.
Proof.
  destruct (encode_char c) as [l|]; [|done].
  intros [H1 H2]%andb_true_iff. f_equal.
  revert seg H1 H2. induction l as [|a l IH]; intros [|b seg]; simpl; try done.
  intros [->%N.eqb_eq H1]%andb_true_iff [_ H2]%andb_true_iff.
  f_equal. by apply IH.
Qed.

Lemma decodes_to_encode_char seg c :
  decodes_to seg c = true -> encode_char c = Ok seg.
Proof.
  destruct seg as [|b0 [|b1 [|b2 [|b3 [|b4 seg]]]]]; try done; cbn [decodes_to];
    rewrite ?andb_true_iff.
  - intros [H0 ->%N.eqb_eq]. unfold encode_char. by rewrite H0.
  - intros [[H0 H1] <-%N.eqb_eq]. apply encode_char_checked.
    assert (Hall :
      all_from (fun b0 => all_from (fun b1 =>
        match encode_char (N.lor (N.shiftl (N.land b0 0x1F) 6) (low6 b1)) with
        | Ok l => startswith l [b0; b1] && startswith [b0; b1] l
        | Raise _ => false
        end) 64 0x80) (N.to_nat (0xDF - 0xC2 + 1)) 0xC2 = true)
      by vm_cast_no_check (eq_refl true).
    apply (all_from_spec _ _ _ b0) in Hall; [|exact (between_range _ _ _ H0)].
    apply (all_from_spec _ _ _ b1) in Hall; [|apply is_cont_range; assumption].
    exact Hall.
  - intros [[[H0 H1] H2] <-%N.eqb_eq]. apply encode_char_checked.
    assert (Hall :
      all_from (fun b0 => all_from (fun b1 => all_from (fun b2 =>
        implb (second3 b0 b1)
        match encode_char (N.lor (N.shiftl (N.land b0 0x0F) 12)
                (N.lor (N.shiftl (low6 b1) 6) (low6 b2))) with
        | Ok l => startswith l [b0; b1; b2] && startswith [b0; b1; b2] l
        | Raise _ => false
        end) 64 0x80) 64 0x80) (N.to_nat (0xEF - 0xE0 + 1)) 0xE0 = true)
      by vm_cast_no_check (eq_refl true).
    apply (all_from_spec _ _ _ b0) in Hall; [|exact (between_range _ _ _ H0)].
    apply (all_from_spec _ _ _ b1) in Hall;
      [|exact (is_cont_range _ (second3_cont _ _ H1))].
    apply (all_from_spec _ _ _ b2) in Hall; [|apply is_cont_range; assumption].
    rewrite H1 in Hall. exact Hall.
  - intros [[[[H0 H1] H2] H3] <-%N.eqb_eq]. apply encode_char_checked.
    assert (Hall :
      all_from (fun b0 => all_from (fun b1 => all_from (fun b2 =>
        all_from (fun b3 =>
        implb (second4 b0 b1)
        match encode_char (N.lor (N.shiftl (N.land b0 0x07) 18)
                (N.lor (N.shiftl (low6 b1) 12)
                   (N.lor (N.shiftl (low6 b2) 6) (low6 b3)))) with
        | Ok l => startswith l [b0; b1; b2; b3] && startswith [b0; b1; b2; b3] l
        | Raise _ => false
        end) 64 0x80) 64 0x80) 64 0x80) (N.to_nat (0xF4 - 0xF0 + 1)) 0xF0 = true)
      by vm_cast_no_check (eq_refl true).
    apply (all_from_spec _ _ _ b0) in Hall; [|exact (between_range _ _ _ H0)].
    apply (all_from_spec _ _ _ b1) in Hall;
      [|exact (is_cont_range _ (second4_cont _ _ H1))].
    apply (all_from_spec _ _ _ b2) in Hall; [|apply is_cont_range; assumption].
    apply (all_from_spec _ _ _ b3) in Hall; [|apply is_cont_range; assumption].
    rewrite H1 in Hall. exact Hall.
Qed.

End Utf8.

Section Decoder.
Import Codec.

Lemma lead2_excl b : between 0xC2 0xDF b = true -> (b <? 0x80) = false.
Proof.
  unfold between. intros [?%N.leb_le ?%N.leb_le]%andb_true_iff.
  apply N.ltb_ge. lia.
Qed.

Lemma lead3_excl b :
  between 0xE0 0xEF b = true ->
  (b <? 0x80) = false /\ between 0xC2 0xDF b = false.
Proof.
  unfold between. intros [?%N.leb_le ?%N.leb_le]%andb_true_iff.
  split; [apply N.ltb_ge; lia|].
  apply andb_false_iff. right. apply N.leb_gt. lia.
Qed.

Lemma lead4_excl b :
  between 0xF0 0xF4 b = true ->
  (b <? 0x80) = false /\ between 0xC2 0xDF b = false /\
  between 0xE0 0xEF b = false.
Proof.
  unfold between. intros [?%N.leb_le ?%N.leb_le]%andb_true_iff.
  split; [apply N.ltb_ge; lia|].
  split; apply andb_false_iff; right; apply N.leb_gt; lia.
Qed.

(** The decoder on each kind of first byte. *)
Lemma decode_utf8_ascii b0 r0 :
  (b0 <? 0x80) = true -> decode_utf8 (b0 :: r0) = b0 :: decode_utf8 r0.
Proof. intros H0. cbn [decode_utf8]. by rewrite H0. Qed.

Lemma decode_utf8_lead2 b0 r0 :
  between 0xC2 0xDF b0 = true ->
  decode_utf8 (b0 :: r0)
  = match r0 with
    | [] => [REPLACEMENT]
    | b1 :: r1 =>
        if is_cont b1
        then N.lor (N.shiftl (N.land b0 0x1F) 6) (low6 b1) :: decode_utf8 r1
        else REPLACEMENT :: decode_utf8 r0
    end.
Proof.
  intros H0. cbn [decode_utf8]. rewrite (lead2_excl _ H0), H0.
  by destruct r0.
Qed.

Lemma decode_utf8_lead3 b0 r0 :
  between 0xE0 0xEF b0 = true ->
  decode_utf8 (b0 :: r0)
  = match r0 with
    | [] => [REPLACEMENT]
    | b1 :: r1 =>
        if second3 b0 b1 then
          match r1 with
          | [] => [REPLACEMENT]
          | b2 :: r2 =>
              if is_cont b2
              then N.lor (N.shiftl (N.land b0 0x0F) 12)
                     (N.lor (N.shiftl (low6 b1) 6) (low6 b2))
                   :: decode_utf8 r2
              else REPLACEMENT :: decode_utf8 r1
          end
        else REPLACEMENT :: decode_utf8 r0
    end.
Proof.
  intros H0. cbn [decode_utf8].
  destruct (lead3_excl _ H0) as (-> & ->). rewrite H0.
  by destruct r0.
Qed.

Lemma decode_utf8_lead4 b0 r0 :
  between 0xF0 0xF4 b0 = true ->
  decode_utf8 (b0 :: r0)
  = match r0 with
    | [] => [REPLACEMENT]
    | b1 :: r1 =>
        if second4 b0 b1 then
          match r1 with
          | [] => [REPLACEMENT]
          | b2 :: r2 =>
              if is_cont b2 then
                match r2 with
                | [] => [REPLACEMENT]
                | b3 :: r3 =>
                    if is_cont b3
                    then N.lor (N.shiftl (N.land b0 0x07) 18)
                           (N.lor (N.shiftl (low6 b1) 12)
                              (N.lor (N.shiftl (low6 b2) 6) (low6 b3)))
                         :: decode_utf8 r3
                    else REPLACEMENT :: decode_utf8 r2
                end
              else REPLACEMENT :: decode_utf8 r1
          end
        else REPLACEMENT :: decode_utf8 r0
    end.
Proof.
  intros H0. cbn [decode_utf8].
  destruct (lead4_excl _ H0) as (-> & -> & ->). rewrite H0.
  by destruct r0.
Qed.

Lemma decode_utf8_no_lead b0 r0 :
  (b0 <? 0x80) = false -> between 0xC2 0xDF b0 = false ->
  between 0xE0 0xEF b0 = false -> between 0xF0 0xF4 b0 = false ->
  decode_utf8 (b0 :: r0) = REPLACEMENT :: decode_utf8 r0.
Proof. intros H1 H2 H3 H4. cbn [decode_utf8]. by rewrite H1, H2, H3, H4. Qed.

(** The first bytes of an accepted sequence. *)
Lemma decodes_to_first b0 tail c :
  decodes_to (b0 :: tail) c = true ->
  (tail = [] /\ (b0 <? 0x80) = true) \/
  (length tail = 1%nat /\ between 0xC2 0xDF b0 = true) \/
  (length tail = 2%nat /\ between 0xE0 0xEF b0 = true) \/
  (length tail = 3%nat /\ between 0xF0 0xF4 b0 = true).
Proof.
  destruct tail as [|b1 [|b2 [|b3 [|b4 tail]]]]; try done; cbn [decodes_to];
    rewrite ?andb_true_iff; intros H; [left|right; left|do 2 right; left|do 3 right];
    split; try done; tauto.
Qed.

Lemma decodes_to_second b0 b1 tail c :
  decodes_to (b0 :: b1 :: tail) c = true ->
  (tail = [] /\ between 0xC2 0xDF b0 = true /\ is_cont b1 = true) \/
  (length tail = 1%nat /\ between 0xE0 0xEF b0 = true /\ second3 b0 b1 = true) \/
  (length tail = 2%nat /\ between 0xF0 0xF4 b0 = true /\ second4 b0 b1 = true).
Proof.
  destruct tail as [|b2 [|b3 [|b4 tail]]]; try done; cbn [decodes_to];
    rewrite ?andb_true_iff; intros H; [left|right; left|do 2 right];
    split; try done; tauto.
Qed.

Lemma decodes_to_third b0 b1 b2 tail c :
  decodes_to (b0 :: b1 :: b2 :: tail) c = true ->
  is_cont b2 = true /\
  ((tail = [] /\ between 0xE0 0xEF b0 = true /\ second3 b0 b1 = true) \/
   (length tail = 1%nat /\ between 0xF0 0xF4 b0 = true /\ second4 b0 b1 = true)).
Proof.
  destruct tail as [|b3 [|b4 tail]]; try done; cbn [decodes_to];
    rewrite ?andb_true_iff; intros H; (split; [tauto|]); [left|right];
    split; try done; tauto.
Qed.

Lemma decodes_to_fourth b0 b1 b2 b3 tail c :
  decodes_to (b0 :: b1 :: b2 :: b3 :: tail) c = true ->
  tail = [] /\ is_cont b3 = true.
Proof.
  destruct tail as [|b4 tail]; try done; cbn [decodes_to];
    rewrite ?andb_true_iff; intros H. split; [done|tauto].
Qed.

(** A well-formed sequence decodes to its character, whatever
    follows. *)
Lemma decode_utf8_encode_char c seg rest :
  encode_char c = Ok seg ->
  decode_utf8 (seg ++ rest) = c :: decode_utf8 rest.
Proof.
  intros Hs%encode_char_decodes_to.
  destruct seg as [|b0 [|b1 [|b2 [|b3 [|b4 seg]]]]]; try done;
    cbn [decodes_to] in Hs; rewrite ?andb_true_iff in Hs; cbn [app].
  - destruct Hs as [H0 <-%N.eqb_eq]. by apply decode_utf8_ascii.
  - destruct Hs as [[H0 H1] <-%N.eqb_eq].
    by rewrite decode_utf8_lead2, H1.
  - destruct Hs as [[[H0 H1] H2] <-%N.eqb_eq].
    by rewrite decode_utf8_lead3, H1, H2.
  - destruct Hs as [[[[H0 H1] H2] H3] <-%N.eqb_eq].
    by rewrite decode_utf8_lead4, H1, H2, H3.
Qed.

(** Text that was encoded comes back. *)
Lemma decode_utf8_encode_utf8 (s : str) bs :
  encode_utf8 s = Ok bs -> decode_utf8 bs = s.
Proof.
  revert bs. induction s as [|c s IH]; intros bs; cbn [encode_utf8].
  - by intros [= <-].
  - destruct (encode_char c) as [seg|] eqn:Hc; [|done]. cbn [rbind].
    destruct (encode_utf8 s) as [bs'|]; [|done]. cbn [rbind].
    intros [= <-]. rewrite (decode_utf8_encode_char c seg bs' Hc).
    by rewrite (IH bs' eq_refl).
Qed.

End Decoder.

Section IllFormed.
Import Codec.

Lemma well_formed_1 b0 : well_formed [b0] <-> (b0 <? 0x80) = true.
Proof.
  split.
  - intros [c Hc%encode_char_decodes_to]. cbn [decodes_to] in Hc.
    by apply andb_true_iff in Hc as [? _].
  - intros H0. exists b0. apply decodes_to_encode_char. cbn [decodes_to].
    by rewrite H0, N.eqb_refl.
Qed.

Lemma well_formed_2 b0 b1 :
  well_formed [b0; b1] <-> between 0xC2 0xDF b0 = true /\ is_cont b1 = true.
Proof.
  split.
  - intros [c Hc%encode_char_decodes_to]. cbn [decodes_to] in Hc.
    rewrite !andb_true_iff in Hc. tauto.
  - intros [H0 H1]. eexists. apply decodes_to_encode_char. cbn [decodes_to].
    by rewrite H0, H1, N.eqb_refl.
Qed.

Lemma well_formed_3 b0 b1 b2 :
  well_formed [b0; b1; b2] <->
  between 0xE0 0xEF b0 = true /\ second3 b0 b1 = true /\ is_cont b2 = true.
Proof.
  split.
  - intros [c Hc%encode_char_decodes_to]. cbn [decodes_to] in Hc.
    rewrite !andb_true_iff in Hc. tauto.
  - intros (H0 & H1 & H2). eexists. apply decodes_to_encode_char.
    cbn [decodes_to]. by rewrite H0, H1, H2, N.eqb_refl.
Qed.

Lemma well_formed_4 b0 b1 b2 b3 :
  well_formed [b0; b1; b2; b3] <->
  between 0xF0 0xF4 b0 = true /\ second4 b0 b1 = true /\
  is_cont b2 = true /\ is_cont b3 = true.
Proof.
  split.
  - intros [c Hc%encode_char_decodes_to]. cbn [decodes_to] in Hc.
    rewrite !andb_true_iff in Hc. tauto.
  - intros (H0 & H1 & H2 & H3). eexists. apply decodes_to_encode_char.
    cbn [decodes_to]. by rewrite H0, H1, H2, H3, N.eqb_refl.
Qed.

Lemma well_formed_prefix_2 b0 b1 :
  well_formed_prefix [b0; b1] <->
  (between 0xC2 0xDF b0 = true /\ is_cont b1 = true) \/
  (between 0xE0 0xEF b0 = true /\ second3 b0 b1 = true) \/
  (between 0xF0 0xF4 b0 = true /\ second4 b0 b1 = true).
Proof.
  split.
  - intros (c & tail & Hc%encode_char_decodes_to). cbn [app] in Hc.
    apply decodes_to_second in Hc. tauto.
  - intros [H|[[H0 H1]|[H0 H1]]].
    + apply well_formed_2 in H as [c Hc]. by exists c, [].
    + destruct (proj2 (well_formed_3 b0 b1 0x80)) as [c Hc]; [done|].
      by exists c, [0x80].
    + destruct (proj2 (well_formed_4 b0 b1 0x80 0x80)) as [c Hc]; [done|].
      by exists c, [0x80; 0x80].
Qed.

Lemma well_formed_prefix_3 b0 b1 b2 :
  well_formed_prefix [b0; b1; b2] <->
  is_cont b2 = true /\
  ((between 0xE0 0xEF b0 = true /\ second3 b0 b1 = true) \/
   (between 0xF0 0xF4 b0 = true /\ second4 b0 b1 = true)).
Proof.
  split.
  - intros (c & tail & Hc%encode_char_decodes_to). cbn [app] in Hc.
    apply decodes_to_third in Hc. tauto.
  - intros [H2 [[H0 H1]|[H0 H1]]].
    + destruct (proj2 (well_formed_3 b0 b1 b2)) as [c Hc]; [done|].
      by exists c, [].
    + destruct (proj2 (well_formed_4 b0 b1 b2 0x80)) as [c Hc]; [done|].
      by exists c, [0x80].
Qed.

Lemma well_formed_prefix_4 b0 b1 b2 b3 p :
  well_formed_prefix (b0 :: b1 :: b2 :: b3 :: p) ->
  p = [] /\ well_formed [b0; b1; b2; b3].
Proof.
  intros (c & tail & Hc). pose proof Hc as Hd%encode_char_decodes_to.
  cbn [app] in Hd. apply decodes_to_fourth in Hd as [Hnil _].
  apply app_eq_nil in Hnil as [-> ->]. split; [done|]. by exists c.
Qed.

(** A maximal ill-formed piece decodes to one U+FFFD. *)
Lemma decode_utf8_ill_formed seg rest :
  ill_formed_subpart seg rest ->
  decode_utf8 (seg ++ rest) = REPLACEMENT :: decode_utf8 rest.
Proof.
  intros (Hne & Hnwf & Hshape & Hmax).
  assert (Hone : forall b, seg = [b] ->
            decode_utf8 (seg ++ rest) = REPLACEMENT :: decode_utf8 rest).
  { intros b ->. cbn [app].
    assert (H0 : (b <? 0x80) = false).
    { destruct (b <? 0x80) eqn:E; [|done]. by destruct Hnwf; apply well_formed_1. }
    destruct (between 0xC2 0xDF b) eqn:H2.
    { rewrite decode_utf8_lead2 by done. destruct rest as [|x rest']; [done|].
      destruct (is_cont x) eqn:Hx; [|done]. exfalso.
      apply (Hmax x rest' eq_refl), well_formed_prefix_2. by left. }
    destruct (between 0xE0 0xEF b) eqn:H3.
    { rewrite decode_utf8_lead3 by done. destruct rest as [|x rest']; [done|].
      destruct (second3 b x) eqn:Hx; [|done]. exfalso.
      apply (Hmax x rest' eq_refl), well_formed_prefix_2. right. by left. }
    destruct (between 0xF0 0xF4 b) eqn:H4.
    { rewrite decode_utf8_lead4 by done. destruct rest as [|x rest']; [done|].
      destruct (second4 b x) eqn:Hx; [|done]. exfalso.
      apply (Hmax x rest' eq_refl), well_formed_prefix_2. right. by right. }
    by apply decode_utf8_no_lead. }
  destruct Hshape as [[b ->]|Hpre]; [by apply (Hone b)|].
  destruct seg as [|b0 [|b1 [|b2 [|b3 seg]]]]; [done|by apply (Hone b0)| | |].
  - apply well_formed_prefix_2 in Hpre as [H|[[H0 H1]|[H0 H1]]].
    + by destruct Hnwf; apply well_formed_2.
    + cbn [app]. rewrite decode_utf8_lead3, H1 by done.
      destruct rest as [|x rest']; [done|].
      destruct (is_cont x) eqn:Hx; [|done]. exfalso.
      apply (Hmax x rest' eq_refl), well_formed_prefix_3. split; [done|]. by left.
    + cbn [app]. rewrite decode_utf8_lead4, H1 by done.
      destruct rest as [|x rest']; [done|].
      destruct (is_cont x) eqn:Hx; [|done]. exfalso.
      apply (Hmax x rest' eq_refl), well_formed_prefix_3. split; [done|]. by right.
  - apply well_formed_prefix_3 in Hpre as [H2 [[H0 H1]|[H0 H1]]].
    + by destruct Hnwf; apply well_formed_3.
    + cbn [app]. rewrite decode_utf8_lead4, H1, H2 by done.
      destruct rest as [|x rest']; [done|].
      destruct (is_cont x) eqn:Hx; [|done]. exfalso.
      apply (Hmax x rest' eq_refl).
      destruct (proj2 (well_formed_4 b0 b1 b2 x)) as [c Hc]; [done|].
      by exists c, [].
  - by apply well_formed_prefix_4 in Hpre as [-> Hwf].
Qed.

(** Every input begins with a well-formed sequence or with a maximal
    ill-formed piece. *)
Lemma decode_utf8_covers bs :
  bs <> [] ->
  exists seg rest,
    bs = seg ++ rest /\ seg <> [] /\
    (well_formed seg \/ ill_formed_subpart seg rest).
Proof.
  destruct bs as [|b0 r0]; [done|intros _].
  assert (Hbad1 : (b0 <? 0x80) = false ->
            (forall x rest', r0 = x :: rest' -> ~ well_formed_prefix [b0; x]) ->
            ill_formed_subpart [b0] r0).
  { intros H0 Hmax. split; [done|]. split; [|split; [left; by eexists|done]].
    intros Hwf%well_formed_1. congruence. }
  destruct (b0 <? 0x80) eqn:H0.
  { exists [b0], r0. split; [done|]. split; [done|]. left. by apply well_formed_1. }
  destruct (between 0xC2 0xDF b0) eqn:H2.
  { destruct r0 as [|b1 r1].
    { exists [b0], []. split; [done|]. split; [done|]. right. by apply Hbad1. }
    destruct (is_cont b1) eqn:H1.
    - exists [b0; b1], r1. split; [done|]. split; [done|]. left. by apply well_formed_2.
    - exists [b0], (b1 :: r1). split; [done|]. split; [done|]. right. apply Hbad1; [done|].
      intros x rest' [= <- <-] [H|[[H3 _]|[H4 _]]]%well_formed_prefix_2.
      + destruct H. congruence.
      + destruct (lead3_excl _ H3). congruence.
      + destruct (lead4_excl _ H4) as (_ & ? & _). congruence. }
  destruct (between 0xE0 0xEF b0) eqn:H3.
  { assert (Hbad2 : forall b1 r1, second3 b0 b1 = true ->
              (forall x rest', r1 = x :: rest' -> is_cont x = false) ->
              ill_formed_subpart [b0; b1] r1).
    { intros b1 r1 H1 Hmax. split; [done|]. split; [|split].
      - intros [? _]%well_formed_2. congruence.
      - right. apply well_formed_prefix_2. right. by left.
      - intros x rest' Hr [Hx _]%well_formed_prefix_3.
        rewrite (Hmax x rest' Hr) in Hx. done. }
    destruct r0 as [|b1 r1].
    { exists [b0], []. split; [done|]. split; [done|]. right. by apply Hbad1. }
    destruct (second3 b0 b1) eqn:H1.
    - destruct r1 as [|b2 r2].
      { exists [b0; b1], []. split; [done|]. split; [done|]. right. by apply Hbad2. }
      destruct (is_cont b2) eqn:Hb2.
      + exists [b0; b1; b2], r2. split; [done|]. split; [done|]. left. by apply well_formed_3.
      + exists [b0; b1], (b2 :: r2). split; [done|]. split; [done|]. right.
        apply Hbad2; [done|]. by intros x rest' [= <- <-].
    - exists [b0], (b1 :: r1). split; [done|]. split; [done|]. right. apply Hbad1; [done|].
      intros x rest' [= <- <-] [[? _]|[[_ ?]|[H4 _]]]%well_formed_prefix_2.
      + congruence.
      + congruence.
      + destruct (lead4_excl _ H4) as (_ & _ & ?). congruence. }
  destruct (between 0xF0 0xF4 b0) eqn:H4.
  { assert (Hbad2 : forall b1 r1, second4 b0 b1 = true ->
              (forall x rest', r1 = x :: rest' -> is_cont x = false) ->
              ill_formed_subpart [b0; b1] r1).
    { intros b1 r1 H1 Hmax. split; [done|]. split; [|split].
      - intros [? _]%well_formed_2. congruence.
      - right. apply well_formed_prefix_2. right. by right.
      - intros x rest' Hr [Hx _]%well_formed_prefix_3.
        rewrite (Hmax x rest' Hr) in Hx. done. }
    assert (Hbad3 : forall b1 b2 r2, second4 b0 b1 = true -> is_cont b2 = true ->
              (forall x rest', r2 = x :: rest' -> is_cont x = false) ->
              ill_formed_subpart [b0; b1; b2] r2).
    { intros b1 b2 r2 H1 Hb2 Hmax. split; [done|]. split; [|split].
      - intros (? & _)%well_formed_3. congruence.
      - right. apply well_formed_prefix_3. split; [done|]. by right.
      - intros x rest' Hr Hpre. cbn [app] in Hpre.
        apply well_formed_prefix_4 in Hpre as [_ (_ & _ & _ & Hx)%well_formed_4].
        rewrite (Hmax x rest' Hr) in Hx. done. }
    destruct r0 as [|b1 r1].
    { exists [b0], []. split; [done|]. split; [done|]. right. by apply Hbad1. }
    destruct (second4 b0 b1) eqn:H1.
    - destruct r1 as [|b2 r2].
      { exists [b0; b1], []. split; [done|]. split; [done|]. right. by apply Hbad2. }
      destruct (is_cont b2) eqn:Hb2.
      + destruct r2 as [|b3 r3].
        { exists [b0; b1; b2], []. split; [done|]. split; [done|]. right. by apply Hbad3. }
        destruct (is_cont b3) eqn:Hb3.
        * exists [b0; b1; b2; b3], r3. split; [done|]. split; [done|]. left.
          by apply well_formed_4.
        * exists [b0; b1; b2], (b3 :: r3). split; [done|]. split; [done|]. right.
          apply Hbad3; [done..|]. by intros x rest' [= <- <-].
      + exists [b0; b1], (b2 :: r2). split; [done|]. split; [done|]. right.
        apply Hbad2; [done|]. by intros x rest' [= <- <-].
    - exists [b0], (b1 :: r1). split; [done|]. split; [done|]. right. apply Hbad1; [done|].
      intros x rest' [= <- <-] [[? _]|[[? _]|[_ ?]]]%well_formed_prefix_2;
        congruence. }
  exists [b0], r0. split; [done|]. split; [done|]. right. apply Hbad1; [done|].
  intros x rest' _ [[? _]|[[? _]|[? _]]]%well_formed_prefix_2; congruence.
Qed.

End IllFormed.

(** C3, as amended. Bytes that are not UTF-8 never fail the decoding:
    once the base64 layer has produced bytes the result is their text.
    The decoder reads the bytes piece by piece, and every input begins
    with a piece of one of two kinds: the encoding of a character, which
    gives that character, or a maximal ill-formed piece (a byte that
    begins no encoding, or the beginning of an encoding that the next
    byte does not carry on or the end of the input cuts short), which
    gives one U+FFFD. Nothing is dropped, and text that was encoded
    comes back as it was. Bytes outside the base64 alphabet are passed
    over. Base64 data that stops inside a group of four does raise: data
    made of alphabet characters alone decodes exactly when its length is
    a multiple of four. The message is then given up by the handler of
    [main] with a warning, and the run goes on. *)
Theorem decode_part_data_failures `{UCD} `{HtmlParser} :
  (forall data raw bs,
     Codec.encode_utf8 data = Ok raw ->
     Codec.urlsafe_b64decode raw = Ok bs ->
     decode_part_data data = Ok (Codec.decode_utf8 bs)) /\
  (forall c seg rest,
     Codec.encode_char c = Ok seg ->
     Codec.decode_utf8 (seg ++ rest) = c :: Codec.decode_utf8 rest) /\
  (forall seg rest,
     ill_formed_subpart seg rest ->
     Codec.decode_utf8 (seg ++ rest)
       = Codec.REPLACEMENT :: Codec.decode_utf8 rest) /\
  (forall bs,
     bs <> [] ->
     exists seg rest,
       bs = seg ++ rest /\ seg <> [] /\
       (well_formed seg \/ ill_formed_subpart seg rest)) /\
  (forall s bs, Codec.encode_utf8 s = Ok bs -> Codec.decode_utf8 bs = s) /\
  (forall b rest,
     between 0x80 0xC1 b || (0xF5 <=? b) = true ->
     Codec.decode_utf8 (b :: rest)
       = Codec.REPLACEMENT :: Codec.decode_utf8 rest) /\
  (forall l1 b l2,
     Codec.b64_value b = None -> b <> Codec.BASE64_PAD ->
     Codec.a2b_base64 (l1 ++ b :: l2) = Codec.a2b_base64 (l1 ++ l2)) /\
  (forall data,
     Forall (fun c => urlsafe_chr c = true) data ->
     ((exists text, decode_part_data data = Ok text)
        <-> (length data mod 4 = 0)%nat) /\
     ((length data mod 4 <> 0)%nat ->
      exists reason, decode_part_data data = Raise (BinasciiError reason))) /\
  (forall cfg svc msg_id msg reason s,
     get_message_full svc msg_id = Ok msg ->
     iter_payload_parts (msg_payload msg) = Raise (BinasciiError reason) ->
     process_message cfg svc msg_id s
       = print (lit "[Uyari] parse edilirken hata") s).
Proof.
  split; [|split; [|split; [|split; [|split; [|split; [|split; [|split]]]]]]].
  - intros data raw bs Hraw Hbs. unfold decode_part_data.
    by rewrite Hraw; simpl; rewrite Hbs.
  - apply decode_utf8_encode_char.
  - apply decode_utf8_ill_formed.
  - apply decode_utf8_covers.
  - apply decode_utf8_encode_utf8.
  - apply decode_utf8_bad_lead.
  - intros l1 b l2. apply a2b_loop_skips.
  - apply decode_part_data_alphabet.
  - intros cfg svc msg_id msg reason s. apply process_message_decode_error.
Qed.

(** The body [w6lB] is the base64 of a two-byte character and a letter;
    [w0E=] of bytes that open that character and break off at the
    letter, [ww==] of its first byte alone. *)
Lemma decode_part_data_failures_witness :
  decode_part_data (lit "w6lB") = Ok [0xE9; 0x41] /\
  decode_part_data (lit "w0E=") = Ok [Codec.REPLACEMENT; 0x41] /\
  decode_part_data (lit "ww==") = Ok [Codec.REPLACEMENT] /\
  decode_part_data (lit "_w==") = Ok [Codec.REPLACEMENT] /\
  Codec.a2b_base64 (lit "Q!Q=!=") = Codec.a2b_base64 (lit "QQ=!=") /\
  (exists reason, decode_part_data (lit "QQ") = Raise (BinasciiError reason)) /\
  rows (snd (@process_message ascii_ucd (parser_of example_doc) default_settings
               (one_page [lit "m1"] (fun _ => Ok broken_message)) (lit "m1") start))
    = [].
Proof.
  destruct (@decode_part_data_failures ascii_ucd (parser_of example_doc))
    as (Hutf8 & Hgood & Hill & _ & _ & Hbad & Hskip & Halpha & Hdrop).
  assert (Hcut : forall rest,
            from_option Codec.is_cont false (head rest) = false ->
            ill_formed_subpart [0xC3] rest).
  { intros rest Hrest. split; [discriminate|]. split; [|split].
    - intros [c Hc%encode_char_decodes_to]. discriminate.
    - left. by eexists.
    - intros x rest' -> (c & tail & Hc%encode_char_decodes_to).
      cbn [app] in Hc. apply decodes_to_second in Hc.
      cbn [head from_option] in Hrest. rewrite Hrest in Hc.
      destruct Hc as [(_ & _ & ?)|[(_ & ? & _)|(_ & ? & _)]]; discriminate. }
  split; [|split; [|split; [|split; [|split; [|split]]]]].
  - rewrite (Hutf8 (lit "w6lB") (lit "w6lB") [0xC3; 0xA9; 0x41] eq_refl eq_refl).
    apply (f_equal Ok). exact (Hgood 0xE9 [0xC3; 0xA9] [0x41] eq_refl).
  - rewrite (Hutf8 (lit "w0E=") (lit "w0E=") [0xC3; 0x41] eq_refl eq_refl).
    apply (f_equal Ok). exact (Hill [0xC3] [0x41] (Hcut [0x41] eq_refl)).
  - rewrite (Hutf8 (lit "ww==") (lit "ww==") [0xC3] eq_refl eq_refl).
    apply (f_equal Ok). exact (Hill [0xC3] [] (Hcut [] eq_refl)).
  - rewrite (Hutf8 (lit "_w==") (lit "_w==") [0xFF] eq_refl eq_refl).
    rewrite (Hbad 0xFF [] eq_refl). reflexivity.
  - apply (Hskip (lit "Q") 0x21 (lit "Q=!=")); [reflexivity|discriminate].
  - apply (Halpha (lit "QQ")).
    + repeat constructor.
    + discriminate.
  - rewrite (Hdrop default_settings
               (one_page [lit "m1"] (fun _ => Ok broken_message)) (lit "m1")
               broken_message (lit "Incorrect padding") start eq_refl eq_refl).
    reflexivity.
Defined.

(** C3 as stated fails: body data of two alphabet characters and no
    padding makes [decode_part_data] raise, and the message is lost: the
    body of the loop ends in the handler with a warning and no row,
    although subject and markup hold an order and an address. *)
Lemma decode_part_data_counterexample :
  decode_part_data (lit "QQ") = Raise (BinasciiError (lit "Incorrect padding")) /\
  (let r := @process_message ascii_ucd (parser_of example_doc) default_settings
              (one_page [lit "m1"] (fun _ => Ok broken_message)) (lit "m1") start in
   fst r = Returns tt /\ rows (snd r) = [] /\
   stdout (snd r) = [lit "[Uyari] parse edilirken hata"]).
Proof. by vm_compute. Qed.

(** * Further properties of the code *)

(** ** Headers and the email filter *)

Lemma header_get_none `{UCD} hs name :
  (forall h, h ∈ hs -> str_lower (default [] (h_name h)) <> str_lower name) ->
  header_get hs name = None.
Proof.
  induction hs as [|h hs IH]; intros Hno; simpl; [done|].
  unfold str_eqb. rewrite bool_decide_eq_false_2 by (apply Hno; by left).
  apply IH. intros h' Hh'. apply Hno. by right.
Qed.

(** X1. [header_get] compares names without regard to case and answers
    with the first header that matches: its value, present or not, is
    the result, and headers after it are not looked at. Without a
    matching header the result is [None]. *)
Theorem header_get_first_match `{UCD} (hs1 hs2 : list header) (h : header)
    (name : str) :
  (forall h', h' ∈ hs1 ->
     str_lower (default [] (h_name h')) <> str_lower name) ->
  (str_lower (default [] (h_name h)) = str_lower name ->
   header_get (hs1 ++ h :: hs2) name = h_value h) /\
  header_get hs1 name = None.
Proof.
  intros Hno. split; [|by apply header_get_none].
  intros Hh. induction hs1 as [|h1 hs1 IH]; simpl.
  - unfold str_eqb. by rewrite bool_decide_eq_true_2.
  - unfold str_eqb. rewrite bool_decide_eq_false_2 by (apply Hno; by left).
    apply IH. intros h' Hh'. apply Hno. by right.
Qed.

Lemma header_get_first_match_witness :
  let date := Header (Some (lit "Date")) (Some (lit "Mon, 1 Jan")) in
  let subj := Header (Some (lit "SUBJECT")) None in
  let late := Header (Some (lit "Subject")) (Some (lit "Order #12345678")) in
  @header_get ascii_ucd [date; subj; late] (lit "Subject") = None /\
  @header_get ascii_ucd [date] (lit "Subject") = None.
Proof.
  intros date subj late.
  assert (Hno : forall h', h' ∈ [date] ->
    @str_lower ascii_ucd (default [] (h_name h')) <> @str_lower ascii_ucd (lit "Subject")).
  { intros h' Hh'. apply list_elem_of_singleton in Hh'. subst h'. discriminate. }
  destruct (@header_get_first_match ascii_ucd [date] [late] subj (lit "Subject") Hno)
    as [Hfirst Hnone].
  split; [|exact Hnone].
  apply Hfirst. reflexivity.
Defined.

Lemma startswith_spec p x :
  startswith p x = true <-> exists r, x = p ++ r.
Proof.
  revert x. induction p as [|a p IH]; intros x; simpl.
  - split; eauto.
  - destruct x as [|b x]; [split; [done|by intros [r ?]]|].
    rewrite andb_true_iff, N.eqb_eq, IH. split.
    + intros [-> [r ->]]. eauto.
    + intros [r [= -> ->]]. eauto.
Qed.

Lemma endswith_spec x p :
  endswith x p = true <-> exists r, x = r ++ p.
Proof.
  unfold endswith. rewrite startswith_spec. split.
  - intros [r Hr]. exists (rev r).
    apply (f_equal (@rev N)) in Hr. rewrite rev_involutive in Hr.
    by rewrite Hr, rev_app_distr, rev_involutive.
  - intros [r ->]. exists (rev r). by rewrite rev_app_distr.
Qed.

Lemma cleaned_complete cfg emails e :
  e ∈ emails -> e <> [] ->
  (EXCLUDE_ETSY_DOMAIN cfg = true -> endswith e ETSY_SUFFIX = false) ->
  e ∈ cleaned cfg emails.
Proof.
  intros Hin Hne Hoff.
  induction emails as [|x emails IH]; [by apply elem_of_nil in Hin|].
  simpl. apply elem_of_cons in Hin as [<-|Hin].
  - destruct e as [|c e]; [done|].
    destruct (EXCLUDE_ETSY_DOMAIN cfg) eqn:Hon; simpl.
    + rewrite Hoff by done. by left.
    + by left.
  - destruct x as [|c x]; [by apply IH|].
    destruct (_ && _); [by apply IH|]. right. by apply IH.
Qed.

(** X2. [filter_buyer_emails] returns each surviving address once. An
    address survives exactly when it is in the input, is not empty and,
    with the exclusion on, does not end in [@etsy.com]; with the
    exclusion off only the empty strings go. *)
Theorem filter_buyer_emails_exact (cfg : settings) (emails : list str) :
  NoDup (filter_buyer_emails cfg emails) /\
  (forall e, e ∈ filter_buyer_emails cfg emails <->
     e ∈ emails /\ e <> [] /\
     ~ (EXCLUDE_ETSY_DOMAIN cfg = true /\ exists local, e = local ++ ETSY_SUFFIX)).
Proof.
  split; [apply NoDup_elements|].
  intros e. split.
  - intros (Hin & Hne & Hoff)%filter_buyer_emails_spec.
    split; [done|]. split; [done|].
    intros [Hon Hsuffix]. apply endswith_spec in Hsuffix.
    rewrite (Hoff Hon) in Hsuffix. done.
  - intros (Hin & Hne & Hoff). unfold filter_buyer_emails.
    rewrite elem_of_elements, elem_of_list_to_set.
    apply cleaned_complete; [done|done|].
    intros Hon. destruct (endswith e ETSY_SUFFIX) eqn:Hends; [|done].
    exfalso. apply Hoff. split; [done|]. by apply endswith_spec.
Qed.

Lemma filter_buyer_emails_exact_witness :
  let emails := [lit "Jane@example.com"; []; lit "support@etsy.com";
                 lit "Jane@example.com"] in
  lit "Jane@example.com" ∈ filter_buyer_emails default_settings emails /\
  (lit "support@etsy.com" ∉ filter_buyer_emails default_settings emails) /\
  lit "support@etsy.com" ∈ filter_buyer_emails (Settings None false []) emails.
Proof.
  intros emails.
  pose proof (proj2 (filter_buyer_emails_exact default_settings emails)) as Hon.
  pose proof (proj2 (filter_buyer_emails_exact (Settings None false []) emails)) as Hoff.
  split; [|split].
  - apply Hon. split; [by left|]. split; [discriminate|].
    intros [_ Hsuffix]. apply endswith_spec in Hsuffix. discriminate Hsuffix.
  - intros (_ & _ & Hnot)%Hon. apply Hnot. split; [reflexivity|].
    by exists (lit "support").
  - apply Hoff. split; [do 2 right; by left|]. split; [discriminate|].
    by intros [? _].
Defined.

(** ** Order numbers, exactly *)

Section OrdersExact.
Context `{UCD}.

(** Where in the text a match of [finditer] starts. *)
Lemma finditer_from_position r bh ah skip m :
  m ∈ finditer_from r bh ah skip ->
  exists pre rest, ah = pre ++ rest /\ match_at r (rev pre ++ bh) rest = Some m.
Proof.
  revert bh skip.
  induction ah as [|x ah IH]; intros bh skip Hm; simpl in Hm.
  - destruct skip; [|by apply elem_of_nil in Hm].
    destruct (match_at r bh []) as [m'|] eqn:Hat; [|by apply elem_of_nil in Hm].
    apply list_elem_of_singleton in Hm as ->. by exists [], [].
  - assert (Hlater : forall skip',
      m ∈ finditer_from r (x :: bh) ah skip' ->
      exists pre rest, x :: ah = pre ++ rest /\
        match_at r (rev pre ++ bh) rest = Some m).
    { intros skip' (pre & rest & -> & Hat)%IH.
      exists (x :: pre), rest. split; [done|].
      simpl. by rewrite <- app_assoc. }
    destruct skip.
    + destruct (match_at r bh (x :: ah)) as [m'|] eqn:Hat; [|eauto].
      apply elem_of_cons in Hm as [->|Hm]; [|eauto].
      by exists [], (x :: ah).
    + destruct (match_at r bh (x :: ah)); eauto.
Qed.

Lemma head_rev_last (l : list N) : head (rev l) = last l.
Proof.
  destruct l as [|x l _] using rev_ind; [done|].
  by rewrite rev_app_distr, last_snoc.
Qed.

(** A match of [ORDER_RE] has no word character on either side. *)
Lemma match_at_ORDER_RE_bounded bh ah m :
  match_at ORDER_RE bh ah = Some m ->
  exists tok rest,
    ah = tok ++ rest /\ digits_6_14 tok /\ m = Match tok (Some tok) /\
    from_option is_word false (head bh) = false /\
    from_option is_word false (head rest) = false.
Proof.
  unfold match_at, ORDER_RE.
  destruct (run _ _ Some) as [c1|] eqn:Hrun; [|done].
  intros [= <-].
  change (run (Seq Boundary (Seq (Group DIGITS_6_14) Boundary)) (Cursor bh ah None) Some)
    with (if at_boundary bh ah
          then run (Group DIGITS_6_14) (Cursor bh ah None)
                 (fun c' => run Boundary c' Some)
          else None) in Hrun.
  destruct (at_boundary bh ah) eqn:Hleft; [|done].
  apply run_group_digits in Hrun as (tok & rest & Hah & Hd & Hk).
  simpl in Hah, Hk. subst ah.
  destruct (at_boundary (rev tok ++ bh) rest) eqn:Hright; [|done].
  inversion Hk; subst c1. simpl. rewrite span_app.
  exists tok, rest. split; [done|]. split; [done|]. split; [done|].
  destruct Hd as [Hall [Hlo _]].
  unfold at_boundary in Hleft, Hright. split.
  - destruct tok as [|d tok]; [simpl in Hlo; lia|].
    inversion Hall; subst. simpl in Hleft.
    rewrite (isdecimal_word d) in Hleft by done.
    by destruct (from_option is_word false (head bh)).
  - destruct tok as [|d tok _] using rev_ind; [simpl in Hlo; lia|].
    rewrite rev_app_distr in Hright. simpl in Hright.
    apply Forall_app in Hall as [_ Hd0]. inversion Hd0; subst.
    rewrite (isdecimal_word d) in Hright by done.
    by destruct (from_option is_word false (head rest)).
Qed.

End OrdersExact.

(** X3. [valid_order_numbers_from_text] returns, each once, exactly the
    runs of 6 to 14 digits that stand in the text with no word character
    before or after them. A run that touches a letter, an underscore or
    further digits is not returned, nor is any part of it. *)
Theorem valid_order_numbers_exact `{UCD} (text o : str) :
  NoDup (valid_order_numbers_from_text text) /\
  (o ∈ valid_order_numbers_from_text text <->
   exists pre post,
     text = pre ++ o ++ post /\ digits_6_14 o /\ word_bounded pre post).
Proof.
  split.
  { unfold valid_order_numbers_from_text.
    destruct text; [apply NoDup_nil_2|apply NoDup_elements]. }
  split.
  - unfold valid_order_numbers_from_text.
    destruct text as [|x text]; [by intros ?%elem_of_nil|].
    rewrite elem_of_elements, elem_of_list_to_set, list_elem_of_fmap.
    intros (m & -> & Hm).
    apply finditer_from_position in Hm as (pre & rest & Htext & Hat).
    apply match_at_ORDER_RE_bounded in Hat
      as (tok & post & -> & Hd & -> & Hleft & Hright).
    exists pre, post. split; [done|]. split; [done|].
    split; [|done]. rewrite app_nil_r, head_rev_last in Hleft. done.
  - intros (pre & post & -> & Hd & Hb).
    by apply valid_order_numbers_complete.
Qed.

Lemma valid_order_numbers_exact_witness :
  lit "1234567" ∈ @valid_order_numbers_from_text ascii_ucd (lit "ref_123456 1234567.") /\
  (lit "123456" ∉ @valid_order_numbers_from_text ascii_ucd (lit "ref_123456 1234567.")).
Proof.
  split.
  - apply (proj2 (@valid_order_numbers_exact ascii_ucd
                    (lit "ref_123456 1234567.") (lit "1234567"))).
    exists (lit "ref_123456 "), (lit "."). split; [reflexivity|].
    split; [|split; reflexivity].
    split; [repeat constructor|simpl; lia].
  - vm_compute. intros Hin. apply list_elem_of_singleton in Hin. discriminate Hin.
Defined.


(** ** The subject pattern *)

Lemma isspace_bound d : isspace d = true -> d < 0x3001.
Proof.
  unfold isspace, between.
  rewrite !orb_true_iff, !andb_true_iff, !N.leb_le, !N.eqb_eq. lia.
Qed.

(** No character is both a space and a decimal digit. *)
Lemma space_not_decimal d : isspace d = true -> isdecimal d = false.
Proof.
  intros Hs. pose proof (isspace_bound d Hs) as Hd.
  assert (Hboth : negb (isspace d && isdecimal d) = true).
  { apply (all_from_spec (fun c => negb (isspace c && isdecimal c))
             (N.to_nat 0x3001) 0); [by vm_compute|].
    rewrite N2Nat.id. lia. }
  rewrite Hs in Hboth. by destruct (isdecimal d).
Qed.

Lemma take_drop_app (n : nat) (l post : list N) :
  take n l ++ (drop n l ++ post) = l ++ post.
Proof.
  revert n. induction l as [|x l IH]; intros [|n]; simpl; try done.
  by rewrite IH.
Qed.

Section SubjectPattern.
Context `{UCD} `{HtmlParser}.

(** At the start of a subject that opens with the word, a hash sign and
    digits, the subject pattern matches and captures the first 14 digits
    at most. *)
Lemma match_at_SUBJECT_ORDER_RE_prefix w sp1 sp2 ds post :
  Forall2 (fun l c => ci l c = true) (lit "Order") w ->
  Forall (fun c => isspace c = true) sp1 ->
  Forall (fun c => isspace c = true) sp2 ->
  Forall (fun c => isdecimal c = true) ds -> (6 <= length ds)%nat ->
  from_option isdecimal false (head post) = false ->
  exists m,
    match_at SUBJECT_ORDER_RE [] (w ++ sp1 ++ 0x23 :: sp2 ++ ds ++ post) = Some m /\
    group m = take 14 ds.
Proof.
  intros Hw Hsp1 Hsp2 Hds Hlen Hpost.
  cbn [lit list_ascii_of_string map] in Hw.
  apply Forall2_cons_inv_l in Hw as (a1 & w1 & H1 & Hw & ->).
  apply Forall2_cons_inv_l in Hw as (a2 & w2 & H2 & Hw & ->).
  apply Forall2_cons_inv_l in Hw as (a3 & w3 & H3 & Hw & ->).
  apply Forall2_cons_inv_l in Hw as (a4 & w4 & H4 & Hw & ->).
  apply Forall2_cons_inv_l in Hw as (a5 & w5 & H5 & Hw & ->).
  apply Forall2_nil_inv_l in Hw as ->.
  set (bh := rev sp2 ++ 0x23 :: rev sp1 ++ rev [a1; a2; a3; a4; a5]).
  set (c1 := Cursor (rev (take 14 ds) ++ bh) (drop 14 ds ++ post)
               (Some (take 14 ds))).
  assert (Hrun : run SUBJECT_ORDER_RE
    (Cursor [] ([a1; a2; a3; a4; a5] ++ sp1 ++ 0x23 :: sp2 ++ ds ++ post) None) Some
    = Some c1).
  2: { eexists. unfold match_at. cbv zeta. rewrite Hrun. split; reflexivity. }
  unfold SUBJECT_ORDER_RE, DIGITS_6_14.
  cbn [ci_literal lit list_ascii_of_string map app run behind ahead group1].
  rewrite H1. cbn [behind ahead group1].
  rewrite H2. cbn [behind ahead group1].
  rewrite H3. cbn [behind ahead group1].
  rewrite H4. cbn [behind ahead group1].
  rewrite H5. cbn [behind ahead group1].
  apply rep_greedy; [done|by left|lia|done|].
  cbn [behind ahead group1]. rewrite N.eqb_refl.
  apply rep_greedy; [done| |lia|done|].
  { left. destruct ds as [|d ds]; [simpl in Hlen; lia|].
    inversion Hds; subst. simpl.
    destruct (isspace d) eqn:Hsd; [|done].
    apply space_not_decimal in Hsd. congruence. }
  cbn [behind ahead group1].
  replace (ds ++ post) with (take 14 ds ++ (drop 14 ds ++ post))
    by apply take_drop_app.
  apply rep_greedy.
  - by apply Forall_take.
  - destruct (decide (length ds <= 14)%nat) as [Hle|Hgt].
    + left. by rewrite drop_ge by lia.
    + right. rewrite length_take. f_equal. lia.
  - rewrite length_take. lia.
  - intros h [= <-]. rewrite length_take. lia.
  - cbn [behind ahead group1]. rewrite span_app.
    unfold c1, bh. by simpl.
Qed.

Lemma subject_orders_in (acc : gset (list N)) ms m :
  m ∈ ms -> group m ∈ foldl (fun acc m => {[ group m ]} ∪ acc) acc ms.
Proof.
  intros Hm. apply (foldl_adds _ _ m); [set_solver|done|set_solver].
Qed.

End SubjectPattern.

(** X4. A subject that opens with the word Order in any case, a hash
    sign with spaces around it or not, and six digits or more yields the
    first 14 of those digits as a candidate, whatever follows them: this
    pattern asks for no word boundary, so a longer number comes out cut
    to 14 digits. *)
Theorem subject_order_prefix `{UCD} `{HtmlParser}
    (w sp1 sp2 ds post html plain : str) :
  Forall2 (fun l c => ci l c = true) (lit "Order") w ->
  Forall (fun c => isspace c = true) sp1 ->
  Forall (fun c => isspace c = true) sp2 ->
  Forall (fun c => isdecimal c = true) ds -> (6 <= length ds)%nat ->
  from_option isdecimal false (head post) = false ->
  take 14 ds ∈ extract_orders (w ++ sp1 ++ 0x23 :: sp2 ++ ds ++ post) html plain.
Proof.
  intros Hw Hsp1 Hsp2 Hds Hlen Hpost.
  destruct (match_at_SUBJECT_ORDER_RE_prefix w sp1 sp2 ds post)
    as (m & Hat & Hg); try done.
  apply Forall2_cons_inv_l in Hw as (a & w' & _ & _ & ->).
  cbn [app] in Hat |- *.
  assert (Hin : group m ∈ foldl (fun acc m => {[ group m ]} ∪ acc) (∅ : gset (list N))
                  (finditer SUBJECT_ORDER_RE
                     (a :: w' ++ sp1 ++ 0x23 :: sp2 ++ ds ++ post))).
  { apply subject_orders_in. unfold finditer.
    rewrite finditer_from_cons, Hat. by left. }
  unfold extract_orders. rewrite elem_of_elements, <- Hg.
  destruct html, plain; rewrite ?elem_of_union; tauto.
Qed.

Lemma subject_order_prefix_witness :
  lit "12345678901234"
    ∈ @extract_orders ascii_ucd (parser_of (Text []))
        (lit "ORDER # 123456789012345678x") [] [].
Proof.
  apply (@subject_order_prefix ascii_ucd (parser_of (Text []))
           (lit "ORDER") (lit " ") (lit " ") (lit "123456789012345678") (lit "x")
           [] []).
  - repeat constructor.
  - repeat constructor.
  - repeat constructor.
  - repeat constructor.
  - simpl. lia.
  - reflexivity.
Defined.

(** ** Email candidates *)

Section EmailShape.
Context `{UCD}.

(** What a match of [EMAIL_REGEX] consumed, whatever follows in the
    pattern. *)
Lemma run_EMAIL_REGEX_inv bh ah k c :
  run EMAIL_REGEX (Cursor bh ah None) k = Some c ->
  exists l d t rest,
    ah = l ++ 0x40 :: d ++ 0x2E :: t ++ rest /\
    Forall (fun c => local_chr c = true) l /\ (1 <= length l)%nat /\
    Forall (fun c => domain_chr c = true) d /\ (1 <= length d)%nat /\
    Forall (fun c => ci_AZ c = true) t /\ (2 <= length t)%nat /\
    k (Cursor (rev t ++ 0x2E :: rev d ++ 0x40 :: rev l ++ bh) rest None) = Some c.
Proof.
  unfold EMAIL_REGEX. intros Hrun.
  rewrite run_seq in Hrun.
  apply run_rep_inv in Hrun as (l & r1 & Hl & Hall_l & Hlen_l & Hrun).
  cbv beta in Hrun. rewrite run_seq in Hrun.
  apply run_chr_inv in Hrun as (x & r2 & Hr1 & Hx & Hrun).
  cbv beta in Hrun. rewrite run_seq in Hrun.
  apply run_rep_inv in Hrun as (d & r3 & Hd & Hall_d & Hlen_d & Hrun).
  cbv beta in Hrun. rewrite run_seq in Hrun.
  apply run_chr_inv in Hrun as (y & r4 & Hr3 & Hy & Hrun).
  cbv beta in Hrun.
  apply run_rep_inv in Hrun as (t & r5 & Ht & Hall_t & Hlen_t & Hrun).
  apply N.eqb_eq in Hx, Hy.
  simpl in Hl, Hr1, Hd, Hr3, Ht, Hrun. subst.
  exists l, d, t, r5. auto 10.
Qed.

Lemma domain_chr_local c : domain_chr c = true -> local_chr c = true.
Proof.
  unfold domain_chr, local_chr.
  rewrite !orb_true_iff. intros [[?|?]|Hc]; [by auto|by auto|].
  right. simpl in *. rewrite !orb_true_iff in *. tauto.
Qed.

Lemma ci_AZ_domain c : ci_AZ c = true -> domain_chr c = true.
Proof. unfold domain_chr. by intros ->. Qed.

(** The pattern on a string of the right shape: the match is the whole
    string up to a character that cannot continue a domain. *)
Lemma run_EMAIL_REGEX_shape bh l d t post k c :
  Forall (fun c => local_chr c = true) l -> (1 <= length l)%nat ->
  Forall (fun c => domain_chr c = true) d -> (1 <= length d)%nat ->
  Forall (fun c => ci_AZ c = true) t -> (2 <= length t)%nat ->
  from_option domain_chr false (head post) = false ->
  k (Cursor (rev t ++ 0x2E :: rev d ++ 0x40 :: rev l ++ bh) post None) = Some c ->
  run EMAIL_REGEX (Cursor bh (l ++ 0x40 :: d ++ 0x2E :: t ++ post) None) k = Some c.
Proof.
  intros Hall_l Hlen_l Hall_d Hlen_d Hall_t Hlen_t Hpost Hk.
  unfold EMAIL_REGEX. cbn [run behind ahead group1].
  apply rep_greedy; [done|by left|done|done|].
  cbn [behind ahead group1]. rewrite N.eqb_refl.
  change (d ++ 0x2E :: t ++ post) with (d ++ (0x2E :: t) ++ post).
  apply rep_backtrack; [done|done|done| |].
  - cbn [behind ahead group1 app]. rewrite N.eqb_refl.
    apply rep_greedy; [done| |done|done|done].
    left. destruct post as [|y post]; [done|]. simpl in *.
    destruct (ci_AZ y) eqn:Hy; [|done].
    by rewrite (ci_AZ_domain y Hy) in Hpost.
  - intros j [Hj1 Hj2].
    destruct j as [|j]; [lia|]. simpl drop.
    cbn [behind ahead group1].
    destruct (drop j t ++ post) as [|x r] eqn:Hdrop; [done|].
    assert (Hx : (0x2E =? x) = false); [|by rewrite Hx].
    destruct (drop j t) as [|x' r'] eqn:Hdt; simpl in Hdrop.
    + subst post. simpl in Hpost. apply N.eqb_neq. intros <-. done.
    + injection Hdrop as Hx' _. subst x'. apply ci_AZ_not_dot.
      rewrite Forall_forall in Hall_t. apply Hall_t.
      apply (subseteq_drop j t). rewrite Hdt. by left.
Qed.

Lemma fullmatch_EMAIL_REGEX_shape l d t :
  Forall (fun c => local_chr c = true) l -> (1 <= length l)%nat ->
  Forall (fun c => domain_chr c = true) d -> (1 <= length d)%nat ->
  Forall (fun c => ci_AZ c = true) t -> (2 <= length t)%nat ->
  fullmatch EMAIL_REGEX (l ++ 0x40 :: d ++ 0x2E :: t) = true.
Proof.
  intros. unfold fullmatch. apply bool_decide_eq_true.
  rewrite <- (app_nil_r t).
  erewrite run_EMAIL_REGEX_shape; eauto.
Qed.

(** Every match of [EMAIL_REGEX] is a string the pattern matches in
    full, and it stands at the head of the text ahead. *)
Lemma match_at_EMAIL_REGEX_inv bh ah m :
  match_at EMAIL_REGEX bh ah = Some m ->
  fullmatch EMAIL_REGEX (group0 m) = true /\
  exists rest, ah = group0 m ++ rest.
Proof.
  unfold match_at.
  destruct (run _ _ Some) as [c1|] eqn:Hrun; [|done]. intros [= <-].
  apply run_EMAIL_REGEX_inv in Hrun
    as (l & d & t & rest & -> & ? & ? & ? & ? & ? & ? & [= <-]).
  simpl.
  assert (Hspan : span (Cursor bh (l ++ 0x40 :: d ++ 0x2E :: t ++ rest) None)
            (Cursor (rev t ++ 0x2E :: rev d ++ 0x40 :: rev l ++ bh) rest None)
          = l ++ 0x40 :: d ++ 0x2E :: t).
  { replace (l ++ 0x40 :: d ++ 0x2E :: t ++ rest)
      with ((l ++ 0x40 :: d ++ 0x2E :: t) ++ rest)
      by (rewrite <- !app_assoc; simpl; by rewrite <- !app_assoc).
    apply span_app. }
  rewrite Hspan. split; [by apply fullmatch_EMAIL_REGEX_shape|].
  exists rest. rewrite <- !app_assoc. simpl. by rewrite <- !app_assoc.
Qed.

Lemma search_from_match_at r bh ah m :
  search_from r bh ah = Some m -> exists bh' ah', match_at r bh' ah' = Some m.
Proof.
  revert bh. induction ah as [|x ah IH]; intros bh; simpl.
  - destruct (match_at r bh []) eqn:Hat; [|done]. intros [= <-]. eauto.
  - destruct (match_at r bh (x :: ah)) eqn:Hat; [intros [= <-]; eauto|].
    apply IH.
Qed.

End EmailShape.

Section EmailSound.
Context `{UCD} `{HtmlParser}.

Lemma add_email_sound (s : list N) (emails : gset (list N)) :
  (forall e, e ∈ emails -> lowered_address e) ->
  forall e, e ∈ add_email s emails -> lowered_address e.
Proof.
  intros Hacc e. unfold add_email.
  destruct (search EMAIL_REGEX s) as [m|] eqn:Hs; [|apply Hacc].
  rewrite elem_of_union, elem_of_singleton. intros [->|?]; [|by apply Hacc].
  apply search_from_match_at in Hs as (bh & ah & Hat).
  apply match_at_EMAIL_REGEX_inv in Hat as [Hfull _].
  by exists (group0 m).
Qed.

Lemma add_mailto_sound (href : list N) (emails : gset (list N)) :
  (forall e, e ∈ emails -> lowered_address e) ->
  forall e, e ∈ add_mailto href emails -> lowered_address e.
Proof.
  intros Hacc. unfold add_mailto.
  destruct (search MAILTO_RE href); [by apply add_email_sound|done].
Qed.

Lemma add_aux_attrs_sound (el : node) (emails : gset (list N)) :
  (forall e, e ∈ emails -> lowered_address e) ->
  forall e, e ∈ add_aux_attrs el emails -> lowered_address e.
Proof.
  unfold add_aux_attrs. generalize AUX_ATTRS. intros keys. revert emails.
  induction keys as [|key keys IH]; intros emails Hacc; simpl; [done|].
  apply IH. destruct (attr el key); [by apply add_email_sound|done].
Qed.

Lemma foldl_sound {A} (f : gset (list N) -> A -> gset (list N)) l emails :
  (forall acc a, (forall e, e ∈ acc -> lowered_address e) ->
     forall e, e ∈ f acc a -> lowered_address e) ->
  (forall e, e ∈ emails -> lowered_address e) ->
  forall e, e ∈ foldl f emails l -> lowered_address e.
Proof.
  intros Hf. revert emails.
  induction l as [|a l IH]; intros emails Hacc; simpl; [done|].
  apply IH. by apply Hf.
Qed.

Lemma extract_emails_from_html_sound html e :
  e ∈ extract_emails_from_html html -> lowered_address e.
Proof.
  unfold extract_emails_from_html.
  destruct html as [|x html]; [by intros ?%elem_of_nil|].
  rewrite elem_of_elements. revert e.
  apply foldl_sound.
  { intros acc t Hacc. by apply add_mailto_sound. }
  apply foldl_sound.
  { intros acc t Hacc. cbv zeta. destruct (has_cue (fst t)); [|done].
    by apply add_email_sound, add_aux_attrs_sound. }
  apply foldl_sound.
  { intros acc t Hacc. cbv zeta. destruct (has_cue (fst t)); [|done].
    by apply add_aux_attrs_sound, add_mailto_sound. }
  by intros e ?%not_elem_of_empty.
Qed.

Lemma extract_emails_from_text_sound text e :
  e ∈ extract_emails_from_text text -> lowered_address e.
Proof.
  unfold extract_emails_from_text.
  destruct text as [|x text]; [by intros ?%elem_of_nil|].
  rewrite elem_of_elements, elem_of_list_to_set, list_elem_of_fmap.
  intros (m & -> & Hm).
  apply finditer_from_match_at in Hm as (bh & ah & Hat).
  apply match_at_EMAIL_REGEX_inv in Hat as [Hfull _].
  by exists (group0 m).
Qed.

End EmailSound.

(** X5. Whatever the two email extractors return is the lowercased form
    of a piece of text that [EMAIL_REGEX] matches in full: a local part,
    an at sign, a domain, a dot and two letters or more. Both return
    each candidate once, and nothing for an empty input. *)
Theorem email_candidates_well_formed `{UCD} `{HtmlParser} (html text : str) :
  (forall e, e ∈ extract_emails_from_html html -> lowered_address e) /\
  (forall e, e ∈ extract_emails_from_text text -> lowered_address e) /\
  NoDup (extract_emails_from_html html) /\
  NoDup (extract_emails_from_text text) /\
  extract_emails_from_html [] = [] /\ extract_emails_from_text [] = [].
Proof.
  split; [apply extract_emails_from_html_sound|].
  split; [apply extract_emails_from_text_sound|].
  split; [|split; [|done]].
  - unfold extract_emails_from_html.
    destruct html; [apply NoDup_nil_2|apply NoDup_elements].
  - unfold extract_emails_from_text.
    destruct text; [apply NoDup_nil_2|apply NoDup_elements].
Qed.

Lemma email_candidates_well_formed_witness :
  lit "jane@example.com"
    ∈ @extract_emails_from_text ascii_ucd (lit "mail <Jane@Example.com>, thanks") /\
  @lowered_address ascii_ucd (lit "jane@example.com").
Proof.
  assert (Hin : lit "jane@example.com"
    ∈ @extract_emails_from_text ascii_ucd (lit "mail <Jane@Example.com>, thanks")).
  { vm_compute. left. }
  split; [exact Hin|].
  exact (proj1 (proj2 (@email_candidates_well_formed ascii_ucd (parser_of (Text []))
                         [] (lit "mail <Jane@Example.com>, thanks"))) _ Hin).
Defined.

(** ** What the HTML extractor does not read *)

Section HtmlQuiet.
Context `{UCD} `{HtmlParser}.

Lemma foldl_keeps {A} (f : gset (list N) -> A -> gset (list N)) l emails :
  (forall acc a, a ∈ l -> f acc a = acc) -> foldl f emails l = emails.
Proof.
  revert emails. induction l as [|a l IH]; intros emails Hf; simpl; [done|].
  rewrite Hf by by left. apply IH. intros acc b Hb. apply Hf. by right.
Qed.

End HtmlQuiet.

(** X6. The HTML extractor takes addresses only from tags: from the
    target of a [mailto:] link and, for a link or button whose text
    carries a cue, from its attributes and surroundings. A document in
    which no link or button carries a cue and no link target holds
    [mailto:] yields no candidate, whatever addresses and cues the text
    of its other tags shows; the candidates of the message are then
    those of the plain text. *)
Theorem html_without_mailto_or_cue `{UCD} `{HtmlParser} (html plain : str) :
  (forall t, t ∈ find_all_a_button (BeautifulSoup html) ->
     has_cue (fst t) = false) ->
  (forall t, t ∈ find_all_a_href (BeautifulSoup html) ->
     search MAILTO_RE (default [] (attr (fst t) (lit "href"))) = None) ->
  extract_emails_from_html html = [] /\
  fst (candidate_emails html plain) = list_to_set (extract_emails_from_text plain).
Proof.
  intros Hcue Hmailto.
  assert (Hnil : extract_emails_from_html html = []).
  { unfold extract_emails_from_html. destruct html as [|x html]; [done|].
    unfold mailto_fallback, cue_neighbourhood, cue_links.
    rewrite (foldl_keeps _ (find_all_a_href _)).
    2: { intros acc t Ht. unfold add_mailto. by rewrite (Hmailto t Ht). }
    rewrite (foldl_keeps _ (find_all_a_button _)).
    2: { intros acc t Ht. by rewrite Hcue. }
    rewrite (foldl_keeps _ (find_all_a_href _)).
    2: { intros acc t Ht. rewrite Hcue; [done|].
         unfold find_all_a_href in Ht. unfold find_all_a_button.
         apply list_elem_of_filter in Ht as [[Ha _] Hin].
         apply list_elem_of_filter. split; [by left|done]. }
    apply elements_empty. }
  split; [done|].
  unfold candidate_emails. rewrite Hnil. simpl.
  rewrite decide_True by done. simpl. by rewrite (left_id_L ∅ (∪)).
Qed.

(** A paragraph that carries a cue and shows an address, beside a link
    without a cue: the markup yields nothing and the plain text is
    read. *)
Lemma html_without_mailto_or_cue_witness :
  let par := Element (lit "p") []
               [Text (lit "contact buyer: jane@example.com")] in
  let doc := Element (lit "[document]") []
               [par;
                Element (lit "a") [(lit "href", lit "https://www.etsy.com/")]
                  [Text (lit "Open shop")]] in
  @has_cue ascii_ucd par = true /\
  @extract_emails_from_html ascii_ucd (parser_of doc) (lit "<p>") = [] /\
  fst (@candidate_emails ascii_ucd (parser_of doc) (lit "<p>")
         (lit "write to jane@example.com"))
    = {[ lit "jane@example.com" ]}.
Proof.
  intros par doc. split; [reflexivity|].
  destruct (@html_without_mailto_or_cue ascii_ucd (parser_of doc) (lit "<p>")
              (lit "write to jane@example.com")) as [Hnil Hplain].
  - intros t Ht. vm_compute in Ht.
    apply list_elem_of_singleton in Ht. subst t. reflexivity.
  - intros t Ht. vm_compute in Ht.
    apply list_elem_of_singleton in Ht. subst t. reflexivity.
  - split; [exact Hnil|]. rewrite Hplain. vm_compute. reflexivity.
Defined.

(** ** Addresses in plain text *)

Section TextComplete.
Context `{UCD}.

Lemma local_chr_address c : local_chr c = true -> address_chr c = true.
Proof. unfold address_chr. by intros ->. Qed.

Lemma email_chars_address addr :
  fullmatch EMAIL_REGEX addr = true ->
  Forall (fun c => address_chr c = true) addr.
Proof.
  intros (l & d & t & -> & Hl & _ & Hd & _ & Ht & _)%fullmatch_EMAIL_REGEX_inv.
  apply Forall_app. split.
  { eapply Forall_impl; [exact Hl|]. apply local_chr_address. }
  constructor; [done|]. apply Forall_app. split.
  { eapply Forall_impl; [exact Hd|]. intros c Hc.
    by apply local_chr_address, domain_chr_local. }
  constructor; [done|].
  eapply Forall_impl; [exact Ht|]. intros c Hc.
  by apply local_chr_address, domain_chr_local, ci_AZ_domain.
Qed.

(** A character no address can hold stops every match before it. *)
Lemma match_at_EMAIL_REGEX_prefix bh l z rest m :
  address_chr z = false ->
  match_at EMAIL_REGEX bh (l ++ z :: rest) = Some m ->
  (length (group0 m) <= length l)%nat.
Proof.
  intros Hz Hat.
  apply match_at_EMAIL_REGEX_inv in Hat as [Hfull [rest' Heq]].
  apply email_chars_address in Hfull.
  destruct (decide (length (group0 m) <= length l)%nat) as [|Hgt]; [done|].
  exfalso.
  assert (Hin : group0 m !! length l = Some z).
  { assert (Hl : (l ++ z :: rest) !! length l = Some z)
      by (rewrite lookup_app_r, Nat.sub_diag by lia; done).
    rewrite Heq, lookup_app_l in Hl by lia. done. }
  rewrite Forall_lookup in Hfull. specialize (Hfull _ _ Hin). simpl in Hfull.
  congruence.
Qed.

Lemma finditer_EMAIL_REGEX_resume pre z rest bh skip m :
  address_chr z = false ->
  (skip <= length pre)%nat ->
  m ∈ finditer_from EMAIL_REGEX (z :: rev pre ++ bh) rest O ->
  m ∈ finditer_from EMAIL_REGEX bh (pre ++ z :: rest) skip.
Proof.
  intros Hz. revert bh skip.
  induction pre as [|x pre IH]; intros bh skip Hskip Hm.
  - simpl in Hskip. assert (skip = O) as -> by lia.
    simpl app. rewrite finditer_from_cons.
    destruct (match_at EMAIL_REGEX bh (z :: rest)) as [m'|] eqn:Hat; [|done].
    apply (match_at_EMAIL_REGEX_prefix bh [] z rest) in Hat; [|done].
    simpl in Hat. right. replace (length (group0 m')) with O by lia. done.
  - simpl rev in Hm. rewrite <- app_assoc in Hm. simpl in Hm.
    change ((x :: pre) ++ z :: rest) with (x :: (pre ++ z :: rest)).
    rewrite finditer_from_cons. simpl in Hskip.
    destruct skip as [|n].
    + destruct (match_at EMAIL_REGEX bh (x :: pre ++ z :: rest)) as [m'|] eqn:Hat.
      * right. apply IH; [|done].
        apply (match_at_EMAIL_REGEX_prefix bh (x :: pre) z rest) in Hat; [|done].
        simpl in Hat. lia.
      * apply IH; [simpl; lia|done].
    + destruct (match_at EMAIL_REGEX bh (x :: pre ++ z :: rest));
        apply IH; simpl; auto with lia.
Qed.

Lemma match_at_EMAIL_REGEX_here bh addr post :
  fullmatch EMAIL_REGEX addr = true ->
  from_option domain_chr false (head post) = false ->
  match_at EMAIL_REGEX bh (addr ++ post) = Some (Match addr None).
Proof.
  intros (l & d & t & -> & ? & ? & ? & ? & ? & ?)%fullmatch_EMAIL_REGEX_inv Hpost.
  unfold match_at.
  replace ((l ++ 0x40 :: d ++ 0x2E :: t) ++ post)
    with (l ++ 0x40 :: d ++ 0x2E :: t ++ post)
    by (rewrite <- !app_assoc; simpl; by rewrite <- !app_assoc).
  erewrite run_EMAIL_REGEX_shape; eauto.
  simpl. f_equal. f_equal.
  replace (l ++ 0x40 :: d ++ 0x2E :: t ++ post)
    with ((l ++ 0x40 :: d ++ 0x2E :: t) ++ post)
    by (rewrite <- !app_assoc; simpl; by rewrite <- !app_assoc).
  apply span_app.
Qed.

Lemma finditer_EMAIL_REGEX_token pre addr post :
  fullmatch EMAIL_REGEX addr = true ->
  from_option address_chr false (last pre) = false ->
  from_option domain_chr false (head post) = false ->
  Match addr None ∈ finditer EMAIL_REGEX (pre ++ addr ++ post).
Proof.
  intros Haddr Hpre Hpost. unfold finditer.
  assert (Hhere : forall bh,
    Match addr None ∈ finditer_from EMAIL_REGEX bh (addr ++ post) O).
  { intros bh.
    pose proof (match_at_EMAIL_REGEX_here bh addr post Haddr Hpost) as Hat.
    destruct (email_no_quote addr Haddr) as [_ Hlen].
    destruct addr as [|a addr]; [simpl in Hlen; lia|].
    change ((a :: addr) ++ post) with (a :: (addr ++ post)) in *.
    rewrite finditer_from_cons, Hat. by left. }
  destruct pre as [|z pre _] using rev_ind.
  - apply Hhere.
  - rewrite last_snoc in Hpre. simpl in Hpre.
    rewrite <- app_assoc. simpl.
    apply finditer_EMAIL_REGEX_resume; [done|lia|apply Hhere].
Qed.

End TextComplete.

(** X7. The plain-text extractor finds every address that stands apart
    in the text: when the character before it is none an address can
    hold and the character after it is none a domain can hold, the
    lowercased address is among the candidates. *)
Theorem plain_text_address_found `{UCD} (pre addr post : str) :
  fullmatch EMAIL_REGEX addr = true ->
  from_option address_chr false (last pre) = false ->
  from_option domain_chr false (head post) = false ->
  str_lower addr ∈ extract_emails_from_text (pre ++ addr ++ post).
Proof.
  intros Haddr Hpre Hpost. unfold extract_emails_from_text.
  destruct (pre ++ addr ++ post) as [|x text] eqn:Htext.
  - destruct (email_no_quote addr Haddr) as [_ Hlen].
    apply (f_equal length) in Htext. rewrite !length_app in Htext.
    simpl in Htext. lia.
  - rewrite <- Htext.
    rewrite elem_of_elements, elem_of_list_to_set, list_elem_of_fmap.
    exists (Match addr None). split; [done|].
    by apply finditer_EMAIL_REGEX_token.
Qed.

Lemma plain_text_address_found_witness :
  lit "jane@example.com"
    ∈ @extract_emails_from_text ascii_ucd (lit "Buyer: <Jane@Example.com>, thanks").
Proof.
  apply (@plain_text_address_found ascii_ucd (lit "Buyer: <")
           (lit "Jane@Example.com") (lit ">, thanks"));
    reflexivity.
Defined.

(** ** The address behind a [mailto:] *)

Section MailtoTarget.
Context `{UCD} `{HtmlParser}.








End MailtoTarget.




(** ** How messages and runs end *)

Lemma payload_ind_all (P : payload -> Prop) :
  (forall m d, P (Payload m d None)) ->
  (forall m d l, Forall P l -> P (Payload m d (Some l))) ->
  forall p, P p.
Proof.
  intros Hleaf Hnode. fix IH 1. intros [m d [l|]]; [|apply Hleaf].
  apply Hnode. revert l. fix IHl 1. intros [|q l]; constructor.
  - apply IH.
  - apply IHl.
Qed.

Lemma encode_utf8_raises s e :
  Codec.encode_utf8 s = Raise e -> e = UnicodeEncodeError.
Proof.
  induction s as [|c s IH]; simpl; [done|].
  unfold Codec.encode_char.
  repeat case_match; simpl; try (intros [= <-]; done).
  all: destruct (Codec.encode_utf8 s); simpl; try done; intros [= <-]; by apply IH.
Qed.

Lemma decode_part_data_raises data e :
  decode_part_data data = Raise e -> is_Exception e = true.
Proof.
  unfold decode_part_data.
  destruct (Codec.encode_utf8 data) as [raw|e1] eqn:Hraw; simpl.
  - unfold Codec.urlsafe_b64decode, Codec.a2b_base64.
    destruct (Codec.a2b_loop _ _ _ _ _) as [bs|e2] eqn:Hloop; simpl; [done|].
    intros [= <-].
    by destruct (a2b_loop_raises _ _ _ _ _ _ Hloop) as [reason ->].
  - intros [= <-]. by rewrite (encode_utf8_raises _ _ Hraw).
Qed.

Lemma yield_own_raises p e :
  yield_own p = Raise e -> is_Exception e = true.
Proof.
  unfold yield_own. destruct (data_of p) as [[|c d]|]; try done.
  destruct (decode_part_data (c :: d)) eqn:Hdec; simpl; [done|].
  intros [= <-]. by apply decode_part_data_raises in Hdec.
Qed.

(** The flattener raises nothing but what a decoding raises. *)
Lemma iter_payload_parts_raises p e :
  iter_payload_parts p = Raise e -> is_Exception e = true.
Proof.
  revert e. induction p as [m d|m d l IH] using payload_ind_all; intros e.
  - apply yield_own_raises.
  - simpl. induction IH as [|q l Hq _ IHl]; [done|].
    destruct (yield_own q) as [own|e1] eqn:Hown; simpl;
      [|intros [= <-]; by apply yield_own_raises in Hown].
    destruct (iter_payload_parts q) as [sub|e2] eqn:Hsub; simpl;
      [|intros [= <-]; by apply Hq].
    match goal with
    | |- context [rbind ?r _] => destruct r as [rest|e3] eqn:Hrest
    end; simpl; [done|].
    intros [= <-]. by apply IHl.
Qed.

Section Endings.
Context `{UCD} `{HtmlParser}.
Variable cfg : settings.

Lemma analyse_raises msg e :
  analyse cfg msg = Raise e -> is_Exception e = true.
Proof.
  unfold analyse, gather.
  destruct (iter_payload_parts (msg_payload msg)) as [parts|e1] eqn:Hparts; simpl.
  - destruct (chunks parts). by destruct (candidate_emails _ _).
  - intros [= <-]. by apply iter_payload_parts_raises in Hparts.
Qed.

Lemma record_pair_returns msg_id f o e s :
  fst (record_pair msg_id f o e s) = Returns tt.
Proof.
  by destruct (record_pair_cases msg_id f o e s) as [-> | [_ ->]].
Qed.

Lemma for_each_returns {A} (l : list A) body s :
  (forall a s', a ∈ l -> fst (body a s') = Returns tt) ->
  fst (for_each l body s) = Returns tt.
Proof.
  revert s. induction l as [|a l IH]; intros s Hbody; simpl; [done|].
  unfold bind. specialize (Hbody a s (list_elem_of_here _ _)) as Ha.
  destruct (body a s) as [out s']. simpl in Ha. subst out.
  apply IH. intros b s'' Hb. apply Hbody. by right.
Qed.

(** The body of the loop in full, by what fetching and analysing the
    message give. *)
Lemma process_message_cases svc msg_id s :
  match (msg <-r get_message_full svc msg_id ;; analyse cfg msg) with
  | Ok f =>
      fst (process_message cfg svc msg_id s) = Returns tt
  | Raise e =>
      if is_Exception e
      then exists line, process_message cfg svc msg_id s = print line s
      else process_message cfg svc msg_id s = (Raises e, s)
  end.
Proof.
  unfold process_message, try_except, bind at 1.
  destruct (msg <-r get_message_full svc msg_id;; analyse cfg msg) as [f|e]; simpl.
  - unfold bind.
    match goal with
    | |- context [for_each ?l ?b s] =>
        pose proof (for_each_returns l b s) as Hloop;
        destruct (for_each l b s) as [out s1]
    end.
    simpl in Hloop. rewrite Hloop.
    + unfold count_processed. by destruct (_ =? _)%Z.
    + intros o s' _. apply for_each_returns. intros e s'' _.
      apply record_pair_returns.
  - destruct e; simpl; eauto.
Qed.

Lemma process_message_returns svc msg_id s :
  (forall code, messages_get svc msg_id <> Raise (SystemExit code)) ->
  fst (process_message cfg svc msg_id s) = Returns tt.
Proof.
  intros Hno. pose proof (process_message_cases svc msg_id s) as Hcases.
  destruct (msg <-r get_message_full svc msg_id;; analyse cfg msg) as [f|e] eqn:Hres;
    [done|].
  assert (He : is_Exception e = true).
  { unfold get_message_full in Hres.
    destruct (messages_get svc msg_id) as [msg|e1] eqn:Hget; simpl in Hres.
    - by apply analyse_raises in Hres.
    - injection Hres as <-. destruct e1; try done. by destruct (Hno code). }
  rewrite He in Hcases. by destruct Hcases as [line ->].
Qed.

End Endings.

(** X8. A message that cannot be fetched or analysed does not end the
    run: whatever exception other than [SystemExit] the fetch or the
    analysis raises, the body of the loop ends normally, prints one
    warning and leaves rows, seen pairs, files and the counter of
    processed messages as they were. *)
Theorem failed_message_skipped `{UCD} `{HtmlParser}
    (cfg : settings) (svc : service) (msg_id : str) (e : exn) (s : state) :
  (msg <-r get_message_full svc msg_id ;; analyse cfg msg) = Raise e ->
  is_Exception e = true ->
  exists line,
    process_message cfg svc msg_id s
    = (Returns tt,
       State (line :: stdout s) (files s) (rows s) (seen_pairs s) (processed s)).
Proof.
  intros Hres He.
  pose proof (process_message_cases cfg svc msg_id s) as Hcases.
  rewrite Hres, He in Hcases. destruct Hcases as [line ->]. by exists line.
Qed.

Lemma failed_message_skipped_witness :
  let svc := Service (fun _ _ _ => Raise (HttpError (lit "503")))
               (fun _ => Raise (HttpError (lit "404"))) in
  exists line,
    @process_message ascii_ucd (parser_of example_doc) default_settings svc
      (lit "m1") start
    = (Returns tt, State [line] [] [] ∅ 0%Z).
Proof.
  intros svc.
  exact (@failed_message_skipped ascii_ucd (parser_of example_doc)
           default_settings svc (lit "m1") (HttpError (lit "404")) start
           eq_refl eq_refl).
Defined.

Section Exits.
Context `{UCD} `{HtmlParser}.
Variable cfg : settings.

Lemma for_yielded_cases svc gen s :
  (forall msg_id code, messages_get svc msg_id <> Raise (SystemExit code)) ->
  fst (for_yielded gen (process_message cfg svc) s)
  = match snd gen with
    | GenDone => Returns tt
    | GenRaise e => Raises e
    | GenPending => Unfinished
    end.
Proof.
  intros Hno. unfold for_yielded, bind.
  pose proof (for_each_returns (fst gen) (process_message cfg svc) s) as Hloop.
  destruct (for_each (fst gen) (process_message cfg svc) s) as [out s1].
  simpl in Hloop. rewrite Hloop.
  - by destruct (snd gen).
  - intros msg_id s' _. apply process_message_returns. apply Hno.
Qed.

(** The outcome of [main] once the service is there and the first
    listing call has answered. *)
Lemma main_outcome svc fuel s first_list :
  messages_list svc BASE_QUERY None 1%Z = Ok first_list ->
  (forall msg_id code, messages_get svc msg_id <> Raise (SystemExit code)) ->
  fst (main cfg (Ok svc) fuel s)
  = match snd (search_message_ids cfg svc BASE_QUERY fuel) with
    | GenDone => Returns tt
    | GenRaise (HttpError _) => Raises (SystemExit 2%Z)
    | GenRaise e => Raises e
    | GenPending => Unfinished
    end.
Proof.
  intros Hfirst Hno. unfold main.
  unfold bind at 1. simpl.
  unfold bind at 1. simpl.
  unfold bind at 1. rewrite Hfirst. simpl.
  unfold bind at 1.
  destruct (resultSizeEstimate first_list); simpl.
  all: unfold bind at 1; simpl.
  all: unfold bind at 1; unfold try_except.
  all: match goal with
       | |- context [for_yielded ?g ?b ?s1] =>
           pose proof (for_yielded_cases svc g s1 Hno) as Hloop;
           destruct (for_yielded g b s1) as [out s2]
       end.
  all: simpl in Hloop; subst out.
  all: destruct (snd (search_message_ids cfg svc BASE_QUERY fuel)) as [|e|];
         try done.
  all: by destruct e.
Qed.

End Exits.

(** X9. How a run ends. When the handshake fails, [main] exits with
    status 1 and leaves rows and files alone. An error of the first
    listing call, the one that asks for the estimate, is not handled: it
    leaves [main] as it was raised, not as an exit status. After that,
    if no fetch raises [SystemExit], [main] exits with status 2 when the
    listing raises [HttpError] while paging and returns normally when
    the listing comes to its end. *)
Theorem main_exit_status `{UCD} `{HtmlParser}
    (cfg : settings) (svc : service) (fuel : nat) (s : state) :
  (forall e, is_Exception e = true ->
     fst (main cfg (Raise e) fuel s) = Raises (SystemExit 1%Z) /\
     rows (snd (main cfg (Raise e) fuel s)) = rows s /\
     files (snd (main cfg (Raise e) fuel s)) = files s) /\
  (forall e, messages_list svc BASE_QUERY None 1%Z = Raise e ->
     fst (main cfg (Ok svc) fuel s) = Raises e) /\
  (forall first_list,
     messages_list svc BASE_QUERY None 1%Z = Ok first_list ->
     (forall msg_id code, messages_get svc msg_id <> Raise (SystemExit code)) ->
     (forall reason,
        snd (search_message_ids cfg svc BASE_QUERY fuel) = GenRaise (HttpError reason) ->
        fst (main cfg (Ok svc) fuel s) = Raises (SystemExit 2%Z)) /\
     (snd (search_message_ids cfg svc BASE_QUERY fuel) = GenDone ->
      fst (main cfg (Ok svc) fuel s) = Returns tt)).
Proof.
  split; [|split].
  - intros e He. unfold main, bind, try_except. simpl. by rewrite He.
  - intros e Hfirst. unfold main.
    unfold bind at 1. simpl. unfold bind at 1. simpl.
    unfold bind at 1. by rewrite Hfirst.
  - intros first_list Hfirst Hno.
    pose proof (main_outcome cfg svc fuel s first_list Hfirst Hno) as Hout.
    split.
    + intros reason Hgen. by rewrite Hgen in Hout.
    + intros Hgen. by rewrite Hgen in Hout.
Qed.

Lemma main_exit_status_witness :
  let down := Service (fun _ _ _ => Raise (HttpError (lit "503")))
                (fun _ => Ok example_message) in
  let flaky := Service (fun _ tok limit =>
                          if (limit =? 1)%Z then Ok (Listing None None None)
                          else Raise (HttpError (lit "503")))
                 (fun _ => Ok example_message) in
  fst (@main ascii_ucd (parser_of example_doc) default_settings
         (Raise (AuthError (lit "no token"))) 1 start) = Raises (SystemExit 1%Z) /\
  fst (@main ascii_ucd (parser_of example_doc) default_settings (Ok down) 1 start)
    = Raises (HttpError (lit "503")) /\
  fst (@main ascii_ucd (parser_of example_doc) default_settings (Ok flaky) 1 start)
    = Raises (SystemExit 2%Z) /\
  fst (@main ascii_ucd (parser_of example_doc) default_settings
         (Ok example_service) 1 start) = Returns tt.
Proof.
  intros down flaky.
  split; [|split; [|split]].
  - apply (proj1 (@main_exit_status ascii_ucd (parser_of example_doc)
                    default_settings down 1 start)).
    reflexivity.
  - apply (proj1 (proj2 (@main_exit_status ascii_ucd (parser_of example_doc)
                           default_settings down 1 start))).
    reflexivity.
  - refine (proj1 (proj2 (proj2 (@main_exit_status ascii_ucd (parser_of example_doc)
                           default_settings flaky 1 start))
             (Listing None None None) eq_refl _) (lit "503") eq_refl).
    intros msg_id code. discriminate.
  - refine (proj2 (proj2 (proj2 (@main_exit_status ascii_ucd (parser_of example_doc)
                           default_settings example_service 1 start))
             _ eq_refl _) eq_refl).
    intros msg_id code. discriminate.
Defined.

(** ** Where rows come from *)

Section Provenance.
Context `{UCD} `{HtmlParser}.
Variable cfg : settings.

Lemma preserves_bind_const {A B : Type}
    (J : list (list N * list N) -> list row -> gset (list N * list N) -> Prop)
    (m : M A) (k : A -> M B) a0 :
  (forall s, m s = (Returns a0, s)) -> preserves J (k a0) ->
  preserves J (bind m k).
Proof.
  intros Hm Hk s Hs. unfold bind. rewrite Hm. by apply Hk.
Qed.

(** As [preserves_main], for a service that is there and with the ids
    the listing yields. *)
Lemma preserves_main_listed
    (J : list (list N * list N) -> list row -> gset (list N * list N) -> Prop)
    svc fuel :
  (forall fs rs sp, J fs rs sp -> J fs [] ∅) ->
  (forall msg_id msg f o e,
     msg_id ∈ fst (search_message_ids cfg svc BASE_QUERY fuel) ->
     get_message_full svc msg_id = Ok msg -> analyse cfg msg = Ok f ->
     o ∈ f_orders f -> e ∈ f_emails f ->
     preserves J (record_pair msg_id f o e)) ->
  preserves J (main cfg (Ok svc) fuel).
Proof.
  intros Hinit Hrec. unfold main.
  apply (preserves_bind_const J _ _ svc); [done|].
  apply preserves_bind; [apply preserves_print|intros _].
  apply preserves_bind; [apply preserves_lift|intros first_list].
  apply preserves_bind.
  { destruct (resultSizeEstimate first_list);
      [apply preserves_print|apply preserves_ret]. }
  intros _.
  apply preserves_bind; [intros s Hs; simpl; eapply Hinit, Hs|intros _].
  apply preserves_bind; [|intros _; apply preserves_print].
  apply preserves_try_except.
  - unfold for_yielded. apply preserves_bind.
    + apply preserves_for_each. intros msg_id Hid.
      apply preserves_process_message.
      intros msg f o e. by apply Hrec.
    + intros _. destruct (snd _);
        [apply preserves_ret|apply preserves_raise|apply preserves_unfinished].
  - intros e h Hh. destruct e; inversion Hh.
    apply preserves_bind; [apply preserves_print|intros _].
    apply preserves_after_exit.
Qed.

Lemma main_no_service e fuel s :
  rows (snd (main cfg (Raise e) fuel s)) = rows s.
Proof.
  unfold main, bind, try_except. simpl. by destruct (is_Exception e).
Qed.

Lemma gather_orders msg g o :
  gather msg = Ok g -> o ∈ f_orders g -> digits_6_14 o.
Proof.
  unfold gather.
  destruct (iter_payload_parts (msg_payload msg)) as [parts|]; [|done]. simpl.
  destruct (chunks parts) as [html_chunks text_chunks].
  destruct (candidate_emails _ _) as [emails srcs].
  intros [= <-]. simpl. rewrite elem_of_list_to_set.
  apply extract_orders_sound.
Qed.

Lemma candidate_emails_sound html plain e :
  e ∈ fst (candidate_emails html plain) -> lowered_address e.
Proof.
  unfold candidate_emails. destruct (decide _); simpl.
  - rewrite elem_of_union, !elem_of_list_to_set.
    intros [?|?];
      [by eapply extract_emails_from_html_sound
      |by eapply extract_emails_from_text_sound].
  - rewrite elem_of_list_to_set. apply extract_emails_from_html_sound.
Qed.

Lemma gather_emails msg g e :
  gather msg = Ok g -> e ∈ f_emails g -> lowered_address e.
Proof.
  unfold gather.
  destruct (iter_payload_parts (msg_payload msg)) as [parts|]; [|done]. simpl.
  destruct (chunks parts) as [html_chunks text_chunks].
  destruct (candidate_emails _ _) as [emails srcs] eqn:Hcand.
  intros [= <-]. simpl. intros He.
  apply (candidate_emails_sound (join [0x0A] html_chunks) (join [0x0A] text_chunks)).
  by rewrite Hcand.
Qed.

(** What [main] keeps of a message: orders of 6 to 14 digits, and
    addresses that passed the filter. *)
Lemma analyse_findings msg f :
  analyse cfg msg = Ok f ->
  (forall o, o ∈ f_orders f -> digits_6_14 o) /\
  (forall e, e ∈ f_emails f ->
     lowered_address e /\ e <> [] /\
     (EXCLUDE_ETSY_DOMAIN cfg = true -> endswith e ETSY_SUFFIX = false)).
Proof.
  unfold analyse. destruct (gather msg) as [g|] eqn:Hg; [|done].
  simpl. intros [= <-]. simpl. split.
  - intros o [_ Ho]%elem_of_filter. by eapply gather_orders.
  - intros e He. apply elem_of_list_to_set in He.
    apply filter_buyer_emails_spec in He as (Hin & Hne & Hoff).
    apply elem_of_elements in Hin. split; [by eapply gather_emails|done].
Qed.

End Provenance.

(** X10. Every row of a run comes from a message the listing yielded:
    the service was there, the message was fetched and analysed, and the
    row carries its id, its subject and date, one of its orders and one
    of its emails. *)
Theorem rows_come_from_messages `{UCD} `{HtmlParser}
    (cfg : settings) (gs : result service) (fuel : nat) (r : row) :
  r ∈ rows (snd (main cfg gs fuel start)) ->
  exists svc msg f,
    gs = Ok svc /\
    message_id r ∈ fst (search_message_ids cfg svc BASE_QUERY fuel) /\
    get_message_full svc (message_id r) = Ok msg /\
    analyse cfg msg = Ok f /\
    order_number r ∈ f_orders f /\ buyer_email r ∈ f_emails f /\
    subject r = f_subject f /\ date r = f_date f.
Proof.
  destruct gs as [svc|e].
  2: { rewrite main_no_service. by intros ?%elem_of_nil. }
  revert r.
  apply (preserves_main_listed cfg
           (fun _ rs _ => forall r, r ∈ rs ->
              exists svc' msg f,
                Ok svc = Ok svc' /\
                message_id r ∈ fst (search_message_ids cfg svc' BASE_QUERY fuel) /\
                get_message_full svc' (message_id r) = Ok msg /\
                analyse cfg msg = Ok f /\
                order_number r ∈ f_orders f /\ buyer_email r ∈ f_emails f /\
                subject r = f_subject f /\ date r = f_date f) svc fuel).
  - by intros fs rs sp _ r ?%elem_of_nil.
  - intros msg_id msg f o e Hid Hmsg Hf Ho He s Hs.
    destruct (record_pair_cases msg_id f o e s) as [-> | [_ ->]]; [done|].
    simpl. intros r [Hr | ->%list_elem_of_singleton]%elem_of_app; [by apply Hs|].
    exists svc, msg, f. simpl. auto 10.
  - by intros r ?%elem_of_nil.
Qed.

Lemma rows_come_from_messages_witness :
  let r := Row (lit "m1") [] (lit "Your Etsy order [Order #12345678] has shipped")
             (lit "12345678") (lit "jane@example.com") in
  r ∈ rows (snd (@main ascii_ucd (parser_of example_doc) default_settings
                   (Ok example_service) 1 start)) /\
  exists svc msg f,
    Ok example_service = Ok svc /\
    lit "m1" ∈ fst (search_message_ids default_settings svc BASE_QUERY 1) /\
    get_message_full svc (lit "m1") = Ok msg /\
    @analyse ascii_ucd (parser_of example_doc) default_settings msg = Ok f /\
    lit "12345678" ∈ f_orders f /\ lit "jane@example.com" ∈ f_emails f /\
    lit "Your Etsy order [Order #12345678] has shipped" = f_subject f /\
    [] = f_date f.
Proof.
  intros r.
  assert (Hin : r ∈ rows (snd (@main ascii_ucd (parser_of example_doc)
                   default_settings (Ok example_service) 1 start))).
  { vm_compute. left. }
  split; [exact Hin|].
  exact (@rows_come_from_messages ascii_ucd (parser_of example_doc)
           default_settings (Ok example_service) 1 r Hin).
Defined.

(** X11. Every row of a run is fit to be written: its order number is 6
    to 14 digits, its buyer email is not empty and is the lowercased
    form of a string that [EMAIL_REGEX] matches in full. *)
Theorem rows_well_formed `{UCD} `{HtmlParser}
    (cfg : settings) (gs : result service) (fuel : nat) (r : row) :
  r ∈ rows (snd (main cfg gs fuel start)) ->
  digits_6_14 (order_number r) /\
  buyer_email r <> [] /\ lowered_address (buyer_email r).
Proof.
  revert r.
  apply (preserves_main
           (fun _ rs _ => forall r, r ∈ rs ->
              digits_6_14 (order_number r) /\
              buyer_email r <> [] /\ lowered_address (buyer_email r))
           cfg gs fuel).
  - by intros fs rs sp _ r ?%elem_of_nil.
  - intros svc msg_id msg f o e Hmsg Hf Ho He s Hs.
    destruct (analyse_findings cfg msg f Hf) as [Hords Hems].
    destruct (Hems e He) as (Hlow & Hne & _).
    destruct (record_pair_cases msg_id f o e s) as [-> | [_ ->]]; [done|].
    simpl. intros r [Hr | ->%list_elem_of_singleton]%elem_of_app; [by apply Hs|].
    simpl. auto.
  - by intros r ?%elem_of_nil.
Qed.

Lemma rows_well_formed_witness :
  let r := Row (lit "m1") [] (lit "Your Etsy order [Order #12345678] has shipped")
             (lit "12345678") (lit "jane@example.com") in
  r ∈ rows (snd (@main ascii_ucd (parser_of example_doc) default_settings
                   (Ok example_service) 1 start)) /\
  digits_6_14 (lit "12345678") /\
  @lowered_address ascii_ucd (lit "jane@example.com").
Proof.
  intros r.
  assert (Hin : r ∈ rows (snd (@main ascii_ucd (parser_of example_doc)
                   default_settings (Ok example_service) 1 start))).
  { vm_compute. left. }
  destruct (@rows_well_formed ascii_ucd (parser_of example_doc)
              default_settings (Ok example_service) 1 r Hin) as (Hd & _ & Hl).
  split; [exact Hin|]. split; [exact Hd|exact Hl].
Defined.

(** ** Every combination is recorded *)

Section CrossJoin.
Context `{UCD} `{HtmlParser}.
Variable cfg : settings.

Lemma record_pair_seen_have_rows msg_id f o e :
  preserves seen_have_rows (record_pair msg_id f o e).
Proof.
  intros s Hs.
  destruct (record_pair_cases msg_id f o e s) as [-> | [_ ->]]; [done|].
  simpl. intros p [->%elem_of_singleton|Hp]%elem_of_union; rewrite fmap_app.
  - apply elem_of_app. right. by left.
  - apply elem_of_app. left. by apply Hs.
Qed.

Lemma record_pair_keeps_pair p msg_id f o e :
  preserves (fun _ rs _ => p ∈ pair_of <$> rs) (record_pair msg_id f o e).
Proof.
  intros s Hs.
  destruct (record_pair_cases msg_id f o e s) as [-> | [_ ->]]; [done|].
  simpl. rewrite fmap_app. apply elem_of_app. by left.
Qed.

Lemma record_pair_records msg_id f o e s :
  o <> [] -> e <> [] ->
  seen_have_rows (files s) (rows s) (seen_pairs s) ->
  (o, e) ∈ pair_of <$> rows (snd (record_pair msg_id f o e s)).
Proof.
  intros Ho He Hs.
  destruct (decide ((o, e) ∈ seen_pairs s)) as [Hin|Hin].
  - rewrite record_pair_seen by done. by apply Hs.
  - rewrite record_pair_fresh by done. simpl. rewrite fmap_app.
    apply elem_of_app. right. by left.
Qed.

(** A loop whose rounds keep [J] and keep what a round has reached
    reaches it for every element. *)
Lemma for_each_reaches {A : Type}
    (J : list (list N * list N) -> list row -> gset (list N * list N) -> Prop)
    (Q : A -> state -> Prop) (l : list A) body s s' :
  (forall a, a ∈ l -> preserves J (body a)) ->
  (forall a s1 s2, a ∈ l -> J (files s1) (rows s1) (seen_pairs s1) ->
     body a s1 = (Returns tt, s2) -> Q a s2) ->
  (forall a b s1, a ∈ l -> b ∈ l -> Q a s1 -> Q a (snd (body b s1))) ->
  J (files s) (rows s) (seen_pairs s) ->
  for_each l body s = (Returns tt, s') ->
  forall a, a ∈ l -> Q a s'.
Proof.
  intros HJ Hreach Hkeep. revert s.
  induction l as [|a0 l IH]; intros s Hs Hrun a Ha; [by apply elem_of_nil in Ha|].
  simpl in Hrun. unfold bind in Hrun.
  destruct (body a0 s) as [[[]|e|] s1] eqn:Hbody; try done.
  assert (Hs1 : J (files s1) (rows s1) (seen_pairs s1)).
  { pose proof (HJ a0 (list_elem_of_here _ _) s Hs) as HJ1.
    by rewrite Hbody in HJ1. }
  assert (Hstay : forall l' s2 s3, l' ⊆ a0 :: l ->
            forall b, b ∈ a0 :: l -> Q b s2 ->
            for_each l' body s2 = (Returns tt, s3) -> Q b s3).
  { clear -Hkeep. induction l' as [|c l' IHl]; intros s2 s3 Hsub b Hb Hq Hrun.
    - by injection Hrun as <-.
    - simpl in Hrun. unfold bind in Hrun.
      destruct (body c s2) as [[[]|e|] s4] eqn:Hc; try done.
      apply (IHl s4 s3); [intros x Hx; apply Hsub; by right|done| |done].
      pose proof (Hkeep b c s2 Hb (Hsub c (list_elem_of_here _ _)) Hq) as Hq'.
      by rewrite Hc in Hq'. }
  apply elem_of_cons in Ha as [->|Ha].
  - apply (Hstay l s1 s'); [intros x Hx; by right|by left| |done].
    by apply (Hreach a0 s s1); [left| |].
  - apply (IH) with (s := s1); try done.
    + intros b Hb. apply HJ. by right.
    + intros b s2 s3 Hb. apply Hreach. by right.
    + intros b c s2 Hb Hc. apply Hkeep; by right.
Qed.

Lemma process_message_seen_have_rows svc msg_id :
  preserves seen_have_rows (process_message cfg svc msg_id).
Proof.
  apply preserves_process_message. intros. apply record_pair_seen_have_rows.
Qed.

Lemma process_message_keeps_pair p svc msg_id :
  preserves (fun _ rs _ => p ∈ pair_of <$> rs) (process_message cfg svc msg_id).
Proof.
  apply preserves_process_message. intros. apply record_pair_keeps_pair.
Qed.

(** After the body of the loop has run on a message, every combination
    of its orders and emails has a row. *)
Lemma process_message_records svc msg_id msg f s o e :
  get_message_full svc msg_id = Ok msg -> analyse cfg msg = Ok f ->
  seen_have_rows (files s) (rows s) (seen_pairs s) ->
  o ∈ f_orders f -> e ∈ f_emails f ->
  (o, e) ∈ pair_of <$> rows (snd (process_message cfg svc msg_id s)).
Proof.
  intros Hmsg Hf Hs Ho He.
  destruct (analyse_findings cfg msg f Hf) as [Hords Hems].
  assert (Hone : o <> []).
  { destruct (Hords o Ho) as [_ [Hlo _]]. intros ->. simpl in Hlo. lia. }
  destruct (Hems e He) as (_ & Hene & _).
  unfold process_message, try_except, bind at 1.
  rewrite Hmsg. simpl. rewrite Hf. simpl. unfold bind.
  destruct (for_each (elements (f_orders f)) _ s) as [out s1] eqn:Hloop.
  assert (Hout : out = Returns tt).
  { pose proof (for_each_returns (elements (f_orders f))
      (fun o => for_each (elements (f_emails f)) (fun e => record_pair msg_id f o e)) s)
      as Hr.
    rewrite Hloop in Hr. apply Hr. intros o' s' _.
    apply for_each_returns. intros e' s'' _. apply record_pair_returns. }
  subst out.
  assert (Hall : forall o', o' ∈ elements (f_orders f) ->
            forall e', e' ∈ f_emails f -> o' <> [] ->
            (o', e') ∈ pair_of <$> rows s1).
  { apply (for_each_reaches seen_have_rows
             (fun o' s' => forall e', e' ∈ f_emails f -> o' <> [] ->
                (o', e') ∈ pair_of <$> rows s')
             (elements (f_orders f))
             (fun o0 => for_each (elements (f_emails f))
                          (fun e0 => record_pair msg_id f o0 e0)) s s1);
      [| | |done|done].
    - intros o' _. apply preserves_for_each. intros e' _.
      apply record_pair_seen_have_rows.
    - intros o' s2 s3 _ Hs2 Hrun e' He' Ho'.
      assert (Hinner : forall e'', e'' ∈ elements (f_emails f) ->
                e'' <> [] -> (o', e'') ∈ pair_of <$> rows s3).
      { apply (for_each_reaches seen_have_rows
                 (fun e'' s' => e'' <> [] -> (o', e'') ∈ pair_of <$> rows s')
                 (elements (f_emails f))
                 (fun e0 => record_pair msg_id f o' e0) s2 s3);
          [| | |done|done].
        + intros e'' _. apply record_pair_seen_have_rows.
        + intros e'' s4 s5 _ Hs4 Hrec He''.
          pose proof (record_pair_records msg_id f o' e'' s4 Ho' He'' Hs4) as Hrows.
          by rewrite Hrec in Hrows.
        + intros a b s4 _ _ Hq Ha.
          by apply (record_pair_keeps_pair (o', a) msg_id f o' b s4), Hq. }
      apply Hinner; [by apply elem_of_elements|].
      by destruct (Hems e' He') as (_ & ? & _).
    - intros a b s2 _ _ Hq e' He' Ha.
      apply (preserves_for_each (fun _ rs _ => (a, e') ∈ pair_of <$> rs)
               (elements (f_emails f)) (fun e0 => record_pair msg_id f b e0)).
      + intros e0 _. apply record_pair_keeps_pair.
      + by apply Hq. }
  assert (Hin : (o, e) ∈ pair_of <$> rows s1).
  { apply Hall; [by apply elem_of_elements|done|done]. }
  unfold count_processed. by destruct (_ =? _)%Z.
Qed.

Lemma bind_returns_inv {A B : Type} (m : M A) (k : A -> M B) s b s' :
  bind m k s = (Returns b, s') ->
  exists a s1, m s = (Returns a, s1) /\ k a s1 = (Returns b, s').
Proof.
  unfold bind. destruct (m s) as [[a|e|] s1]; [eauto|done|done].
Qed.

Lemma print_rows line s out s' :
  print line s = (out, s') -> rows s' = rows s /\ seen_pairs s' = seen_pairs s.
Proof. by intros [= _ <-]. Qed.

(** A run of [main] that returns has gone through the whole loop. *)
Lemma main_returns_loop svc fuel s :
  fst (main cfg (Ok svc) fuel s) = Returns tt ->
  exists s1 s2,
    rows s1 = [] /\ seen_pairs s1 = ∅ /\
    for_each (fst (search_message_ids cfg svc BASE_QUERY fuel))
      (process_message cfg svc) s1 = (Returns tt, s2) /\
    rows (snd (main cfg (Ok svc) fuel s)) = rows s2.
Proof.
  destruct (main cfg (Ok svc) fuel s) as [out s'] eqn:Hmain.
  simpl. intros ->. unfold main in Hmain.
  apply bind_returns_inv in Hmain as (svc' & sa & Hsvc & Hmain).
  injection Hsvc as <- <-.
  apply bind_returns_inv in Hmain as ([] & sb & _ & Hmain).
  apply bind_returns_inv in Hmain as (first_list & sc & _ & Hmain).
  apply bind_returns_inv in Hmain as ([] & sd & _ & Hmain).
  apply bind_returns_inv in Hmain as ([] & s1 & Hinit & Hmain).
  apply bind_returns_inv in Hmain as ([] & s3 & Hloop & Hprint).
  apply print_rows in Hprint as [Hrows _].
  injection Hinit as <-.
  unfold try_except in Hloop.
  match type of Hloop with
  | context [for_yielded ?g ?b ?s1] =>
      destruct (for_yielded g b s1) as [[[]|e|] s4] eqn:Hyield
  end.
  - injection Hloop as ->.
    unfold for_yielded in Hyield.
    apply bind_returns_inv in Hyield as ([] & s2 & Hfor & Hend).
    destruct (snd (search_message_ids cfg svc BASE_QUERY fuel)); try done.
    injection Hend as ->.
    eexists _, s3. split; [|split; [|split; [exact Hfor|done]]]; done.
  - destruct e; done.
  - done.
Qed.

End CrossJoin.

(** X12. A run that returns has recorded every message in full: for
    every id the listing yielded whose message was fetched and analysed,
    each combination of one of its orders with one of its emails is the
    pair of some row. *)
Theorem every_combination_recorded `{UCD} `{HtmlParser}
    (cfg : settings) (svc : service) (fuel : nat) (s : state)
    (msg_id : str) (msg : message) (f : findings) (o e : str) :
  fst (main cfg (Ok svc) fuel s) = Returns tt ->
  msg_id ∈ fst (search_message_ids cfg svc BASE_QUERY fuel) ->
  get_message_full svc msg_id = Ok msg ->
  analyse cfg msg = Ok f ->
  o ∈ f_orders f -> e ∈ f_emails f ->
  (o, e) ∈ pair_of <$> rows (snd (main cfg (Ok svc) fuel s)).
Proof.
  intros Hret Hid Hmsg Hf Ho He.
  destruct (main_returns_loop cfg svc fuel s Hret)
    as (s1 & s2 & Hrows & Hseen & Hloop & ->).
  assert (Hall : forall id,
            id ∈ fst (search_message_ids cfg svc BASE_QUERY fuel) ->
            forall msg' f' o' e',
              get_message_full svc id = Ok msg' -> analyse cfg msg' = Ok f' ->
              o' ∈ f_orders f' -> e' ∈ f_emails f' ->
              (o', e') ∈ pair_of <$> rows s2).
  { apply (for_each_reaches seen_have_rows
             (fun id s' => forall msg' f' o' e',
                get_message_full svc id = Ok msg' -> analyse cfg msg' = Ok f' ->
                o' ∈ f_orders f' -> e' ∈ f_emails f' ->
                (o', e') ∈ pair_of <$> rows s')
             _ (process_message cfg svc) s1 s2); [| | | |done].
    - intros id _. apply process_message_seen_have_rows.
    - intros id s3 s4 _ Hs3 Hrun msg' f' o' e' Hmsg' Hf' Ho' He'.
      pose proof (process_message_records cfg svc id msg' f' s3 o' e'
                    Hmsg' Hf' Hs3 Ho' He') as Hin.
      by rewrite Hrun in Hin.
    - intros a b s3 _ _ Hq msg' f' o' e' Hmsg' Hf' Ho' He'.
      apply (process_message_keeps_pair cfg (o', e') svc b s3). by eapply Hq.
    - intros p. rewrite Hseen. by intros ?%not_elem_of_empty. }
  by apply (Hall msg_id Hid msg f).
Qed.

Lemma every_combination_recorded_witness :
  (lit "12345678", lit "jane@example.com")
    ∈ pair_of <$> rows (snd (@main ascii_ucd (parser_of example_doc)
                               default_settings (Ok example_service) 1 start)).
Proof.
  refine (@every_combination_recorded ascii_ucd (parser_of example_doc)
            default_settings example_service 1 start (lit "m2") example_message
            (Findings (lit "Your Etsy order [Order #12345678] has shipped") []
               {[ lit "12345678" ]} {[ lit "jane@example.com" ]} [FromHtml])
            (lit "12345678") (lit "jane@example.com") _ _ _ _ _ _).
  - reflexivity.
  - vm_compute. right. left.
  - reflexivity.
  - vm_compute. reflexivity.
  - cbn [f_orders]. apply elem_of_singleton_2. reflexivity.
  - cbn [f_emails]. apply elem_of_singleton_2. reflexivity.
Defined.

(** ** The first occurrence of a pair *)

Section FirstOccurrence.
Context `{UCD} `{HtmlParser}.
Variable cfg : settings.

(** A loop, seen from the elements it has gone through: what holds at
    the start of nothing done, and goes from one element to the next
    however the body ends, holds at the end of the part gone through,
    which is the whole list when the loop returns. *)
Lemma for_each_done {A : Type} (I : list A -> state -> Prop)
    (l : list A) (body : A -> M unit) (s : state) :
  I [] s ->
  (forall done a rest s1,
     l = done ++ a :: rest -> I done s1 -> I (done ++ [a]) (snd (body a s1))) ->
  exists done rest,
    l = done ++ rest /\ I done (snd (for_each l body s)) /\
    (fst (for_each l body s) = Returns tt -> rest = []).
Proof.
  revert I s. induction l as [|a l IH]; intros I s Hstart Hstep.
  - by exists [], [].
  - pose proof (Hstep [] a l s eq_refl Hstart) as Hone. cbn [app] in Hone.
    cbn [for_each]. unfold bind.
    destruct (body a s) as [[[]|e|] s1] eqn:Hbody; cbn [snd] in Hone.
    + destruct (IH (fun done => I (a :: done)) s1 Hone)
        as (done & rest & -> & Hd).
      { intros done b rest s2 -> Hd. by apply (Hstep (a :: done) b rest). }
      by exists (a :: done), rest.
    + by exists [a], l.
    + by exists [a], l.
Qed.

(** What the body of the loop adds for a message: rows of that message,
    for pairs that stand in it and were not seen before. *)
Lemma process_message_new svc msg_id s :
  exists new,
    rows (snd (process_message cfg svc msg_id s)) = rows s ++ new /\
    forall r, r ∈ new ->
      message_id r = msg_id /\ occurs cfg svc msg_id (pair_of r) /\
      pair_of r ∉ seen_pairs s.
Proof.
  pose (J := fun (_ : list (str * str)) (rs : list row) (sp : gset (str * str)) =>
    seen_pairs s ⊆ sp /\
    exists new, rs = rows s ++ new /\
      forall r, r ∈ new ->
        message_id r = msg_id /\ occurs cfg svc msg_id (pair_of r) /\
        pair_of r ∉ seen_pairs s).
  assert (HJ : preserves J (process_message cfg svc msg_id)).
  { apply preserves_process_message. intros msg f o e Hmsg Hf Ho He s1.
    intros [Hsub (new & Hrows & Hnew)].
    destruct (record_pair_cases msg_id f o e s1) as [-> | [Hfresh ->]];
      [by split; [|exists new]|].
    cbn [snd files rows seen_pairs]. split; [intros p Hp; apply elem_of_union_r; by apply Hsub|].
    exists (new ++ [Row msg_id (f_date f) (f_subject f) o e]).
    split; [by rewrite Hrows, app_assoc|].
    intros r [Hr| ->%list_elem_of_singleton]%elem_of_app; [by apply Hnew|].
    split; [done|]. split; [by exists msg, f|].
    intros Hin. apply Hfresh. by apply Hsub. }
  destruct (HJ s) as [_ Hnew]; [|done].
  split; [done|]. exists []. split; [by rewrite app_nil_r|].
  by intros r ?%elem_of_nil.
Qed.

Lemma process_message_first_recorded svc done msg_id s :
  first_recorded cfg svc done s ->
  first_recorded cfg svc (done ++ [msg_id]) (snd (process_message cfg svc msg_id s)).
Proof.
  intros (Hdist & Hseen & Hall & Hfirst).
  destruct (process_message_new svc msg_id s) as (new & Hrows & Hnew).
  split; [|split; [|split]].
  - apply (preserves_process_message distinct_pairs cfg svc msg_id); [|done].
    intros msg f o e _ _ _ _. apply record_pair_distinct.
  - by apply process_message_seen_have_rows.
  - intros id p [Hid| ->%list_elem_of_singleton]%elem_of_app Hocc.
    + rewrite Hrows, fmap_app. apply elem_of_app. left. by apply (Hall id).
    + destruct Hocc as (msg & f & Hmsg & Hf & Ho & He). destruct p as [o e].
      by apply (process_message_records cfg svc msg_id msg f).
  - intros r. rewrite Hrows. intros [Hr|Hr]%elem_of_app.
    + destruct (Hfirst r Hr) as (l1 & l2 & -> & Hocc & Hno).
      exists l1, (l2 ++ [msg_id]). split; [|done].
      by rewrite <- app_assoc.
    + destruct (Hnew r Hr) as (-> & Hocc & Hfresh).
      exists done, []. split; [done|]. split; [done|].
      intros id Hid Hocc'. apply Hfresh.
      pose proof (Hall id (pair_of r) Hid Hocc') as Hin.
      apply list_elem_of_fmap in Hin as (r' & -> & Hr').
      by apply Hdist.
Qed.

(** The rows of a run are those of its loop, started on an empty table,
    or there are none. *)
Lemma main_rows_loop gs fuel :
  rows (snd (main cfg gs fuel start)) = [] \/
  exists svc s1,
    gs = Ok svc /\ rows s1 = [] /\ seen_pairs s1 = ∅ /\
    rows (snd (main cfg gs fuel start))
    = rows (snd (for_each (fst (search_message_ids cfg svc BASE_QUERY fuel))
                   (process_message cfg svc) s1)).
Proof.
  destruct gs as [svc|e]; [|left; apply main_no_service].
  destruct (main cfg (Ok svc) fuel start) as [out sf] eqn:Hmain.
  cbn [snd]. unfold main in Hmain.
  unfold bind at 1 in Hmain. unfold try_except at 1 in Hmain.
  cbn [lift ret] in Hmain.
  unfold bind at 1 in Hmain. cbn [print] in Hmain.
  unfold bind at 1 in Hmain.
  destruct (messages_list svc BASE_QUERY None 1%Z) as [first_list|e];
    cbn [lift ret raise] in Hmain; [|injection Hmain as _ <-; by left].
  unfold bind at 1 in Hmain.
  match type of Hmain with
  | context [match ?m ?s with _ => _ end] =>
      destruct (m s) as [[[]|e|] sd] eqn:Hest
  end.
  2,3: destruct (resultSizeEstimate first_list); simpl in Hest; done.
  unfold bind at 1 in Hmain. cbn beta iota in Hmain.
  right. exists svc, (State (stdout sd) (files sd) [] ∅ 0%Z).
  split; [done|]. split; [done|]. split; [done|].
  unfold bind at 1 in Hmain. unfold try_except, for_yielded in Hmain.
  unfold bind at 1 in Hmain.
  match type of Hmain with
  | context [for_each ?l ?b ?s] => destruct (for_each l b s) as [[[]|e|] s2]
  end; cbn [snd].
  - destruct (snd (search_message_ids cfg svc BASE_QUERY fuel)) as [|e|];
      cbn [ret raise unfinished] in Hmain.
    + by injection Hmain as _ <-.
    + destruct e; cbn in Hmain; by injection Hmain as _ <-.
    + by injection Hmain as _ <-.
  - destruct e; cbn in Hmain; by injection Hmain as _ <-.
  - by injection Hmain as _ <-.
Qed.

End FirstOccurrence.

(** C4. Over any run each (order_number, buyer_email) pair is accepted
    at most once, and it is its first occurrence that is recorded. The
    rows of a run never hold the same pair twice. Every row belongs to
    the first message of the listing in which its pair stands: the pair
    stands in the message whose id the row carries and in none of the
    messages listed before it. When the run returns, every pair that
    stands in a listed message has its row. In the loop, a pair met
    again leaves the state as it is, and a pair met for the first time
    adds one row and is remembered. *)
Theorem pairs_accepted_once `{UCD} `{HtmlParser}
    (cfg : settings) (gs : result service) (fuel : nat) :
  NoDup (pair_of <$> rows (snd (main cfg gs fuel start))) /\
  (forall r, r ∈ rows (snd (main cfg gs fuel start)) ->
     exists svc l1 l2,
       gs = Ok svc /\
       fst (search_message_ids cfg svc BASE_QUERY fuel)
       = l1 ++ message_id r :: l2 /\
       occurs cfg svc (message_id r) (pair_of r) /\
       forall id, id ∈ l1 -> ~ occurs cfg svc id (pair_of r)) /\
  (forall svc id p,
     gs = Ok svc -> fst (main cfg gs fuel start) = Returns tt ->
     id ∈ fst (search_message_ids cfg svc BASE_QUERY fuel) ->
     occurs cfg svc id p ->
     p ∈ pair_of <$> rows (snd (main cfg gs fuel start))) /\
  (forall msg_id f o e s,
     (o, e) ∈ seen_pairs s -> record_pair msg_id f o e s = (Returns tt, s)) /\
  (forall msg_id f o e s,
     o <> [] -> e <> [] -> (o, e) ∉ seen_pairs s ->
     rows (snd (record_pair msg_id f o e s))
       = rows s ++ [Row msg_id (f_date f) (f_subject f) o e] /\
     (o, e) ∈ seen_pairs (snd (record_pair msg_id f o e s))).
Proof.
  assert (Hempty : forall svc s1, rows s1 = [] -> seen_pairs s1 = ∅ ->
            first_recorded cfg svc [] s1).
  { intros svc s1 Hrows Hseen. unfold first_recorded, distinct_pairs, seen_have_rows.
    rewrite Hrows, Hseen. split; [split; [apply NoDup_nil_2|]|split; [|split]].
    - by intros r ?%elem_of_nil.
    - by intros p ?%not_elem_of_empty.
    - by intros id p ?%elem_of_nil.
    - by intros r ?%elem_of_nil. }
  split; [|split; [|split; [|split]]].
  - apply (preserves_main distinct_pairs cfg gs fuel).
    + intros fs rs sp _. split; [apply NoDup_nil_2|by intros r ?%elem_of_nil].
    + intros svc msg_id msg f o e _ _ _ _. apply record_pair_distinct.
    + split; [apply NoDup_nil_2|by intros r ?%elem_of_nil].
  - intros r Hr.
    destruct (main_rows_loop cfg gs fuel)
      as [Hnone|(svc & s1 & -> & Hrows & Hseen & Heq)].
    { rewrite Hnone in Hr. by apply elem_of_nil in Hr. }
    rewrite Heq in Hr.
    destruct (for_each_done (first_recorded cfg svc)
                (fst (search_message_ids cfg svc BASE_QUERY fuel))
                (process_message cfg svc) s1)
      as (done & rest & Hids & (_ & _ & _ & Hfirst) & _).
    { by apply Hempty. }
    { intros done a rest s2 _. apply process_message_first_recorded. }
    destruct (Hfirst r Hr) as (l1 & l2 & -> & Hocc & Hno).
    exists svc, l1, (l2 ++ rest). split; [done|].
    split; [by rewrite Hids, <- app_assoc|]. done.
  - intros svc id p -> Hret Hid Hocc.
    destruct (main_returns_loop cfg svc fuel start Hret)
      as (s1 & s2 & Hrows & Hseen & Hloop & ->).
    destruct (for_each_done (first_recorded cfg svc)
                (fst (search_message_ids cfg svc BASE_QUERY fuel))
                (process_message cfg svc) s1)
      as (done & rest & Hids & (_ & _ & Hall & _) & Hrest).
    { by apply Hempty. }
    { intros done a rest s3 _. apply process_message_first_recorded. }
    rewrite Hloop in Hall, Hrest. cbn [fst snd] in Hall, Hrest.
    rewrite (Hrest eq_refl), app_nil_r in Hids. subst done.
    by apply (Hall id).
  - intros. by apply record_pair_seen.
  - intros msg_id f o e s Ho He Hfresh.
    rewrite (record_pair_fresh msg_id f o e s Ho He Hfresh). simpl.
    split; [done|]. apply elem_of_union_l. by apply elem_of_singleton.
Qed.

(** The example mailbox lists the same message under two ids: the pair
    has one row, and it carries the first id. *)
Lemma pairs_accepted_once_witness :
  let run := @main ascii_ucd (parser_of example_doc) default_settings
               (Ok example_service) 1 start in
  let r := Row (lit "m1") [] (lit "Your Etsy order [Order #12345678] has shipped")
             (lit "12345678") (lit "jane@example.com") in
  NoDup (pair_of <$> rows (snd run)) /\
  rows (snd run) = [r] /\
  (exists svc l1 l2,
     Ok example_service = Ok svc /\
     fst (search_message_ids default_settings svc BASE_QUERY 1)
     = l1 ++ message_id r :: l2 /\
     @occurs ascii_ucd (parser_of example_doc) default_settings svc
       (message_id r) (pair_of r) /\
     forall id, id ∈ l1 ->
       ~ @occurs ascii_ucd (parser_of example_doc) default_settings svc id
           (pair_of r)) /\
  (lit "12345678", lit "jane@example.com") ∈ pair_of <$> rows (snd run).
Proof.
  intros run r.
  destruct (@pairs_accepted_once ascii_ucd (parser_of example_doc)
              default_settings (Ok example_service) 1)
    as (Hnd & Hfirst & Hall & _ & _).
  assert (Hrows : rows (snd run) = [r]) by (vm_compute; reflexivity).
  split; [exact Hnd|]. split; [exact Hrows|]. split.
  - apply Hfirst. fold run. rewrite Hrows. left.
  - apply (Hall example_service (lit "m2")
             (lit "12345678", lit "jane@example.com")).
    + reflexivity.
    + vm_compute. reflexivity.
    + vm_compute. right. left.
    + exists example_message,
        (Findings (lit "Your Etsy order [Order #12345678] has shipped") []
           {[ lit "12345678" ]} {[ lit "jane@example.com" ]} [FromHtml]).
      split; [reflexivity|]. split; [vm_compute; reflexivity|].
      split; [cbn [fst f_orders]|cbn [snd f_emails]];
        apply elem_of_singleton_2; reflexivity.
Defined.

(** ** The listing, page by page *)

Section Listing.
Variable cfg : settings.

Lemma page_ids_take (n : Z) ms seen :
  MAX_MESSAGES cfg = Some n -> (0 <= seen < n)%Z ->
  (n - seen <= Z.of_nat (length ms))%Z ->
  page_ids cfg ms seen = (take (Z.to_nat (n - seen)) ms, n, true).
Proof.
  intros Hcap. revert seen.
  induction ms as [|m ms IH]; intros seen Hseen Hlen; simpl in *; [lia|].
  unfold cap_reached. rewrite Hcap.
  destruct (Z.eq_dec n (seen + 1)%Z) as [->|Hne].
  - rewrite Z.leb_refl, andb_true_r.
    replace (negb (seen + 1 =? 0)%Z) with true
      by (symmetry; apply negb_true_iff, Z.eqb_neq; lia).
    replace (seen + 1 - seen)%Z with 1%Z by lia. done.
  - replace (n <=? seen + 1)%Z with false by (symmetry; apply Z.leb_gt; lia).
    rewrite andb_false_r.
    rewrite (IH (seen + 1)%Z) by lia.
    replace (Z.to_nat (n - seen)) with (S (Z.to_nat (n - (seen + 1)))) by lia.
    done.
Qed.

Lemma page_ids_below ms seen :
  (forall k, (seen < k <= seen + Z.of_nat (length ms))%Z ->
     cap_reached cfg k = false) ->
  page_ids cfg ms seen = (ms, (seen + Z.of_nat (length ms))%Z, false).
Proof.
  revert seen. induction ms as [|m ms IH]; intros seen Hcap; simpl in *.
  - f_equal. f_equal. lia.
  - rewrite Hcap by lia. rewrite IH by (intros k Hk; apply Hcap; lia).
    f_equal. f_equal. lia.
Qed.

End Listing.

(** X13. The listing under a cap, on its first page. A positive cap N
    that the page can fill yields the first N ids of the page and asks
    for no further page. A negative cap yields one id and stops. When
    the page stays under the cap, or the cap is 0 or absent, the whole
    page is yielded: the listing then ends if the page has no token, and
    if the next request fails the ids of the page have been yielded
    before the error is raised. *)
Theorem listing_first_page (cfg : settings) (svc : service) (query : str)
    (fuel : nat) (resp : listing) (ids : list str) :
  messages_list svc query None 500%Z = Ok resp ->
  messages resp = Some ids ->
  (forall n, MAX_MESSAGES cfg = Some n ->
     (0 < n <= Z.of_nat (length ids))%Z ->
     search_message_ids cfg svc query (S fuel) = (take (Z.to_nat n) ids, GenDone)) /\
  (forall n, MAX_MESSAGES cfg = Some n -> (n < 0)%Z -> ids <> [] ->
     search_message_ids cfg svc query (S fuel) = (take 1 ids, GenDone)) /\
  ((forall k, (0 < k <= Z.of_nat (length ids))%Z -> cap_reached cfg k = false) ->
   (nextPageToken resp = None \/ nextPageToken resp = Some [] ->
    search_message_ids cfg svc query (S fuel) = (ids, GenDone)) /\
   (forall c tok e,
      nextPageToken resp = Some (c :: tok) ->
      messages_list svc query (Some (c :: tok)) 500%Z = Raise e ->
      search_message_ids cfg svc query (S (S fuel)) = (ids, GenRaise e))).
Proof.
  intros Hresp Hids. unfold search_message_ids.
  split; [|split].
  - intros n Hcap Hn. simpl. rewrite Hresp, Hids. simpl.
    rewrite (page_ids_take cfg n) by (try done; lia).
    by rewrite Z.sub_0_r.
  - intros n Hcap Hn Hne. simpl. rewrite Hresp, Hids. simpl.
    destruct ids as [|m ids]; [done|]. simpl.
    unfold cap_reached. rewrite Hcap.
    replace (negb (n =? 0)%Z) with true
      by (symmetry; apply negb_true_iff, Z.eqb_neq; lia).
    replace (n <=? 0 + 1)%Z with true by (symmetry; apply Z.leb_le; lia).
    done.
  - intros Hunder. split.
    + intros Htok. simpl. rewrite Hresp, Hids. simpl.
      rewrite page_ids_below by done.
      by destruct Htok as [-> | ->].
    + intros c tok e Htok Hnext.
      cbn [search_pages]. rewrite Hresp, Hids. cbn [default].
      rewrite page_ids_below by done.
      rewrite Htok, Hnext. by rewrite app_nil_r.
Qed.

Lemma listing_first_page_witness :
  let ids := [lit "m1"; lit "m2"; lit "m3"] in
  let svc := Service (fun _ tok _ =>
                        match tok with
                        | None => Ok (Listing (Some ids) (Some (lit "p2")) None)
                        | Some _ => Raise (HttpError (lit "503"))
                        end)
               (fun _ => Ok example_message) in
  search_message_ids (Settings (Some 2%Z) true []) svc [] 1
    = ([lit "m1"; lit "m2"], GenDone) /\
  search_message_ids (Settings (Some (-5)%Z) true []) svc [] 1
    = ([lit "m1"], GenDone) /\
  search_message_ids (Settings None true []) svc [] 2
    = (ids, GenRaise (HttpError (lit "503"))).
Proof.
  intros ids svc.
  split; [|split].
  - apply (proj1 (listing_first_page (Settings (Some 2%Z) true []) svc [] 0
                    (Listing (Some ids) (Some (lit "p2")) None) ids
                    eq_refl eq_refl) 2%Z eq_refl).
    simpl. lia.
  - apply (proj1 (proj2 (listing_first_page (Settings (Some (-5)%Z) true []) svc [] 0
                    (Listing (Some ids) (Some (lit "p2")) None) ids
                    eq_refl eq_refl)) (-5)%Z eq_refl); [lia|discriminate].
  - refine (proj2 (proj2 (proj2 (listing_first_page (Settings None true []) svc [] 0
                    (Listing (Some ids) (Some (lit "p2")) None) ids
                    eq_refl eq_refl)) _) _ _ (HttpError (lit "503")) eq_refl eq_refl).
    intros k _. reflexivity.
Defined.

(** ** The flattener, node by node *)

Section Flattener.


Lemma yield_own_cases p :
  yield_own p = Ok [] \/
  (exists x, yield_own p = Ok [x]) \/ (exists e, yield_own p = Raise e).
Proof.
  unfold yield_own. destruct (data_of p) as [[|c d]|]; auto.
  destruct (decode_part_data (c :: d)); simpl; eauto.
Qed.

Lemma yield_own_elem p own x :
  yield_own p = Ok own -> (x ∈ own <-> yield_own p = Ok [x]).
Proof.
  intros Hown. rewrite Hown.
  destruct (yield_own_cases p) as [Hn | [[y Hy] | [e He]]];
    rewrite Hown in *; simplify_eq.
  - split; [by intros ?%elem_of_nil|done].
  - split; [by intros ->%list_elem_of_singleton|].
    intros [= ->]. by left.
Qed.

Lemma nodes_below_parts m d q l :
  nodes_below (Payload m d (Some (q :: l)))
  = q :: nodes_below q ++ nodes_below (Payload m d (Some l)).
Proof. reflexivity. Qed.

Lemma sources_below q x :
  x ∈ sources q -> x = q \/ x ∈ nodes_below q.
Proof.
  destruct q as [m d [l|]]; simpl; [by right|].
  intros ->%list_elem_of_singleton. by left.
Qed.

Lemma iter_payload_parts_sources p pairs x :
  iter_payload_parts p = Ok pairs ->
  (x ∈ pairs <-> exists q, q ∈ sources p /\ yield_own q = Ok [x]).
Proof.
  revert pairs. induction p as [m d|m d l IH] using payload_ind_all; intros pairs.
  - simpl. intros Hown. rewrite (yield_own_elem _ _ x Hown). split.
    + intros Hx. eexists. split; [by left|done].
    + by intros (q & ->%list_elem_of_singleton & Hq).
  - change (iter_payload_parts (Payload m d (Some l))) with (iter_parts l).
    change (sources (Payload m d (Some l))) with (nodes_of l).
    revert pairs. induction IH as [|q l Hq _ IHl]; intros pairs.
    + intros [= <-]. split; [by intros ?%elem_of_nil|].
      by intros (q & ?%elem_of_nil & _).
    + change (iter_parts (q :: l))
        with (own <-r yield_own q ;; sub <-r iter_payload_parts q ;;
              rest <-r iter_parts l ;; Ok (own ++ sub ++ rest)).
      change (nodes_of (q :: l)) with (q :: nodes_below q ++ nodes_of l).
      destruct (yield_own q) as [own|] eqn:Hown; [|done]. simpl.
      destruct (iter_payload_parts q) as [sub|] eqn:Hsub; [|done]. simpl.
      destruct (iter_parts l) as [rest|] eqn:Hrest; [|done]. simpl.
      intros [= <-]. rewrite !elem_of_app.
      rewrite (yield_own_elem q own x Hown), (Hq sub eq_refl), (IHl rest eq_refl).
      split.
      * intros [Hx | [(q' & Hq' & Hx) | (q' & Hq' & Hx)]].
        -- exists q. split; [by left|done].
        -- exists q'. split; [|done].
           apply sources_below in Hq' as [->|Hq']; [by left|].
           right. apply elem_of_app. by left.
        -- exists q'. split; [|done]. right. apply elem_of_app. by right.
      * intros (q' & [->|[Hq'|Hq']%elem_of_app]%elem_of_cons & Hx).
        -- by left.
        -- right. left. exists q'. split; [|done].
           destruct q as [mq dq [lq|]]; [done|by apply elem_of_nil in Hq'].
        -- right. right. by exists q'.
Qed.

End Flattener.

(** X14. What the flattener yields, when it yields. A pair is yielded
    exactly when it is the decoded body of one of the nodes the
    flattener reads: the payload itself when it has no parts, every node
    below it when it has. The body of a payload that has parts is not
    among them: with an empty list of parts nothing is yielded, whatever
    body the payload carries. *)
Theorem flattener_sources (p : payload) (pairs : list (str * str)) (x : str * str) :
  iter_payload_parts p = Ok pairs ->
  (x ∈ pairs <-> exists q, q ∈ sources p /\ yield_own q = Ok [x]) /\
  (forall mime data, iter_payload_parts (Payload mime data (Some [])) = Ok []).
Proof.
  intros Hp. split; [by apply iter_payload_parts_sources|done].
Qed.

Lemma flattener_sources_witness :
  let leaf := Payload (Some (lit "text/plain")) (Some (lit "QUJD")) None in
  let inner := Payload (Some (lit "multipart/alternative")) (Some (lit "PGE-"))
                 (Some [leaf]) in
  let root := Payload (Some (lit "multipart/mixed")) (Some (lit "PGE-"))
                (Some [inner]) in
  iter_payload_parts root
    = Ok [(lit "multipart/alternative", lit "<a>");
          (lit "text/plain", lit "ABC"); (lit "text/plain", lit "ABC")] /\
  (lit "text/plain", lit "ABC") ∈
    [(lit "multipart/alternative", lit "<a>");
     (lit "text/plain", lit "ABC"); (lit "text/plain", lit "ABC")].
Proof.
  intros leaf inner root.
  assert (Hroot : iter_payload_parts root
    = Ok [(lit "multipart/alternative", lit "<a>");
          (lit "text/plain", lit "ABC"); (lit "text/plain", lit "ABC")])
    by reflexivity.
  split; [exact Hroot|].
  apply (proj1 (flattener_sources root _ (lit "text/plain", lit "ABC") Hroot)).
  exists leaf. split; [|reflexivity].
  right. left.
Defined.

(** ** Base64 groups and padding *)

Section Groups.
Import Codec.

Lemma a2b_loop_groups l :
  Forall (fun b => b <> BASE64_PAD /\ is_Some (b64_value b)) l ->
  forall quad_pos leftchar out, (quad_pos < 4)%nat ->
  (((quad_pos + length l) mod 4 = 0)%nat ->
   exists bs, a2b_loop l quad_pos leftchar 0 out = Ok bs /\
     (4 * length bs + 4 * pred quad_pos
      = 4 * length out + 3 * (quad_pos + length l))%nat) /\
  (((quad_pos + length l) mod 4 = 2)%nat ->
   exists bs,
     (forall junk,
        a2b_loop (l ++ BASE64_PAD :: BASE64_PAD :: junk) quad_pos leftchar 0 out
        = Ok bs) /\
     (4 * length bs + 4 * pred quad_pos + 2
      = 4 * length out + 3 * (quad_pos + length l))%nat) /\
  (((quad_pos + length l) mod 4 = 3)%nat ->
   exists bs,
     (forall junk,
        a2b_loop (l ++ BASE64_PAD :: junk) quad_pos leftchar 0 out = Ok bs) /\
     (4 * length bs + 4 * pred quad_pos + 1
      = 4 * length out + 3 * (quad_pos + length l))%nat).
Proof.
  induction 1 as [|b l [Hpad [v Hv]] _ IH]; intros quad_pos leftchar out Hq.
  - destruct quad_pos as [|[|[|[|?]]]]; [| | | |lia]; cbn [length app];
      (split; [|split]); intros Hm; try (exfalso; by vm_compute in Hm).
    + exists (rev out). split; [done|]. rewrite length_rev. lia.
    + exists (rev out). split; [done|]. rewrite length_rev. lia.
    + exists (rev out). split; [done|]. rewrite length_rev. lia.
  - apply N.eqb_neq in Hpad.
    assert (Hstep : forall rest,
      a2b_loop (b :: rest) quad_pos leftchar 0 out
      = match quad_pos with
        | O => a2b_loop rest 1 v 0 out
        | 1%nat => a2b_loop rest 2 (N.land v 0x0F) 0
                     (low8 (N.lor (N.shiftl leftchar 2) (N.shiftr v 4)) :: out)
        | 2%nat => a2b_loop rest 3 (N.land v 0x03) 0
                     (low8 (N.lor (N.shiftl leftchar 4) (N.shiftr v 2)) :: out)
        | _ => a2b_loop rest 0 0 0 (low8 (N.lor (N.shiftl leftchar 6) v) :: out)
        end).
    { intros rest. cbn [a2b_loop]. by rewrite Hpad, Hv. }
    cbn [app length]. setoid_rewrite Hstep.
    destruct quad_pos as [|[|[|[|?]]]]; [| | | |lia].
    + destruct (IH 1%nat v out ltac:(lia)) as (H0 & H2 & H3).
      replace (0 + S (length l))%nat with (1 + length l)%nat by lia.
      split; [|split]; intros Hm.
      * destruct (H0 Hm) as (bs & ? & ?). exists bs. split; [done|]. simpl in *. lia.
      * destruct (H2 Hm) as (bs & ? & ?). exists bs. split; [done|]. simpl in *. lia.
      * destruct (H3 Hm) as (bs & ? & ?). exists bs. split; [done|]. simpl in *. lia.
    + destruct (IH 2%nat (N.land v 0x0F)
                  (low8 (N.lor (N.shiftl leftchar 2) (N.shiftr v 4)) :: out)
                  ltac:(lia)) as (H0 & H2 & H3).
      replace (1 + S (length l))%nat with (2 + length l)%nat by lia.
      split; [|split]; intros Hm.
      * destruct (H0 Hm) as (bs & ? & ?). exists bs. split; [done|]. simpl in *. lia.
      * destruct (H2 Hm) as (bs & ? & ?). exists bs. split; [done|]. simpl in *. lia.
      * destruct (H3 Hm) as (bs & ? & ?). exists bs. split; [done|]. simpl in *. lia.
    + destruct (IH 3%nat (N.land v 0x03)
                  (low8 (N.lor (N.shiftl leftchar 4) (N.shiftr v 2)) :: out)
                  ltac:(lia)) as (H0 & H2 & H3).
      replace (2 + S (length l))%nat with (3 + length l)%nat by lia.
      split; [|split]; intros Hm.
      * destruct (H0 Hm) as (bs & ? & ?). exists bs. split; [done|]. simpl in *. lia.
      * destruct (H2 Hm) as (bs & ? & ?). exists bs. split; [done|]. simpl in *. lia.
      * destruct (H3 Hm) as (bs & ? & ?). exists bs. split; [done|]. simpl in *. lia.
    + destruct (IH 0%nat 0 (low8 (N.lor (N.shiftl leftchar 6) v) :: out)
                  ltac:(lia)) as (H0 & H2 & H3).
      replace (3 + S (length l))%nat with (0 + length l + 1 * 4)%nat by lia.
      rewrite Nat.Div0.mod_add.
      split; [|split]; intros Hm.
      * destruct (H0 Hm) as (bs & ? & ?). exists bs. split; [done|]. simpl in *. lia.
      * destruct (H2 Hm) as (bs & ? & ?). exists bs. split; [done|]. simpl in *. lia.
      * destruct (H3 Hm) as (bs & ? & ?). exists bs. split; [done|]. simpl in *. lia.
Qed.

Lemma low8_byte b : low8 b < 256.
Proof.
  unfold low8. change 0xFF with (N.ones 8). rewrite N.land_ones.
  apply N.mod_lt. done.
Qed.

(** Whatever the input, the decoder puts out bytes. *)
Lemma a2b_loop_bytes data quad_pos leftchar pads out bs :
  Forall (fun b => b < 256) out ->
  a2b_loop data quad_pos leftchar pads out = Ok bs ->
  Forall (fun b => b < 256) bs.
Proof.
  revert quad_pos leftchar pads out.
  induction data as [|x data IH]; intros quad_pos leftchar pads out Hout; simpl.
  - destruct quad_pos as [|[|?]]; try done. intros [= <-].
    by apply Forall_rev.
  - repeat case_match; try (intros [= <-]; by apply Forall_rev); try by apply IH.
    all: apply IH; constructor; [apply low8_byte|done].
Qed.

End Groups.

Section PartData.
Import Codec.

Lemma urlsafe_translate_alphabet (data : str) :
  Forall (fun c => urlsafe_chr c = true) data ->
  Forall (fun b => b <> BASE64_PAD /\ is_Some (b64_value b))
    (map urlsafe_translate data).
Proof.
  intros Hall. apply Forall_map. eapply Forall_impl; [exact Hall|].
  by intros c (_ & ? & ?)%urlsafe_chr_spec.
Qed.

Lemma decode_part_data_ascii (data : str) :
  Forall (fun c => c < 0x80) data ->
  decode_part_data data
  = (decoded <-r urlsafe_b64decode data ;; Ok (decode_utf8 decoded)).
Proof.
  intros Hall. unfold decode_part_data. by rewrite encode_utf8_ascii.
Qed.

Lemma urlsafe_b64decode_bytes s bs :
  urlsafe_b64decode s = Ok bs -> Forall (fun b => b < 256) bs.
Proof. apply a2b_loop_bytes. constructor. Qed.

End PartData.

(** X15. Body data made of characters of the URL-safe alphabet decodes
    in groups of four characters giving three bytes each. A length that
    is a multiple of four decodes to three quarters as many bytes. A
    last group of two characters closed by two padding signs gives one
    more byte, one of three characters closed by one padding sign gives
    two, and whatever follows the closing padding is dropped without an
    error. The text returned is the UTF-8 reading of these bytes. *)
Theorem body_data_groups (data : str) :
  Forall (fun c => urlsafe_chr c = true) data ->
  ((length data mod 4 = 0)%nat ->
   exists bs,
     Codec.urlsafe_b64decode data = Ok bs /\
     decode_part_data data = Ok (Codec.decode_utf8 bs) /\
     Forall (fun b => b < 256) bs /\
     (4 * length bs = 3 * length data)%nat) /\
  ((length data mod 4 = 2)%nat ->
   exists bs,
     Forall (fun b => b < 256) bs /\
     (4 * length bs + 2 = 3 * length data)%nat /\
     forall rest, Forall (fun c => c < 0x80) rest ->
       Codec.urlsafe_b64decode (data ++ lit "==" ++ rest) = Ok bs /\
       decode_part_data (data ++ lit "==" ++ rest) = Ok (Codec.decode_utf8 bs)) /\
  ((length data mod 4 = 3)%nat ->
   exists bs,
     Forall (fun b => b < 256) bs /\
     (4 * length bs + 1 = 3 * length data)%nat /\
     forall rest, Forall (fun c => c < 0x80) rest ->
       Codec.urlsafe_b64decode (data ++ lit "=" ++ rest) = Ok bs /\
       decode_part_data (data ++ lit "=" ++ rest) = Ok (Codec.decode_utf8 bs)).
Proof.
  intros Hall.
  assert (Hascii : Forall (fun c => c < 0x80) data).
  { eapply Forall_impl; [exact Hall|]. by intros c (? & _)%urlsafe_chr_spec. }
  destruct (a2b_loop_groups _ (urlsafe_translate_alphabet data Hall) O 0 []
              ltac:(lia)) as (H0 & H2 & H3).
  rewrite length_map, Nat.add_0_l in H0, H2, H3. cbn [length pred] in H0, H2, H3.
  split; [|split]; intros Hm.
  - destruct (H0 Hm) as (bs & Hbs & Hlen). exists bs.
    assert (Hdec : Codec.urlsafe_b64decode data = Ok bs) by exact Hbs.
    split; [done|]. split; [|split].
    + rewrite decode_part_data_ascii by done. by rewrite Hdec.
    + by eapply urlsafe_b64decode_bytes.
    + lia.
  - destruct (H2 Hm) as (bs & Hbs & Hlen).
    assert (Hdec : forall rest,
      Codec.urlsafe_b64decode (data ++ lit "==" ++ rest) = Ok bs).
    { intros rest. unfold Codec.urlsafe_b64decode, Codec.a2b_base64.
      rewrite map_app. exact (Hbs (map Codec.urlsafe_translate rest)). }
    exists bs. split; [|split].
    + eapply urlsafe_b64decode_bytes. apply (Hdec []).
    + lia.
    + intros rest Hrest. split; [done|].
      rewrite decode_part_data_ascii.
      * by rewrite Hdec.
      * apply Forall_app. split; [done|].
        apply Forall_app. split; [|done]. by repeat constructor.
  - destruct (H3 Hm) as (bs & Hbs & Hlen).
    assert (Hdec : forall rest,
      Codec.urlsafe_b64decode (data ++ lit "=" ++ rest) = Ok bs).
    { intros rest. unfold Codec.urlsafe_b64decode, Codec.a2b_base64.
      rewrite map_app. exact (Hbs (map Codec.urlsafe_translate rest)). }
    exists bs. split; [|split].
    + eapply urlsafe_b64decode_bytes. apply (Hdec []).
    + lia.
    + intros rest Hrest. split; [done|].
      rewrite decode_part_data_ascii.
      * by rewrite Hdec.
      * apply Forall_app. split; [done|].
        apply Forall_app. split; [|done]. by repeat constructor.
Qed.

(** The three characters [QUI] are the start of the encoding of [AB]:
    closed by one padding sign they decode to two bytes, whatever
    follows. *)
Lemma body_data_groups_witness :
  Forall (fun c => urlsafe_chr c = true) (lit "QUI") /\
  (exists bs,
     Forall (fun b => b < 256) bs /\
     (4 * length bs + 1 = 3 * length (lit "QUI"))%nat /\
     forall rest, Forall (fun c => c < 0x80) rest ->
       Codec.urlsafe_b64decode (lit "QUI" ++ lit "=" ++ rest) = Ok bs /\
       decode_part_data (lit "QUI" ++ lit "=" ++ rest)
       = Ok (Codec.decode_utf8 bs)).
Proof.
  assert (Hall : Forall (fun c => urlsafe_chr c = true) (lit "QUI"))
    by (repeat constructor).
  split; [exact Hall|].
  exact (proj2 (proj2 (body_data_groups (lit "QUI") Hall)) eq_refl).
Defined.
